(** * cca: the realtime course-selection engine

    A shallow embedding of the WebSocket message handlers, the coalescing
    signal, the frame splitter, the mode controller and the WebSocket
    endpoint of the cca server, with the properties its specification
    states about them.

    Conventions.
    - Go's [uint32] is an [N] with the wrap-around at [2^32] written out;
      Go's [int] is a [Z] with the wrap-around at [2^63] written out.
    - A [[]byte] is a [list byte]; a Go [string] is a [string].
    - A run-time panic is a result of its own ([Panic]), never a value.
    - Everything outside the process (the connection, the database, the
      clock, the context) is the environment: each call is recorded in a
      trace and its outcome is read from an oracle indexed by the trace,
      so that the environment may answer every call differently. *)

From Stdlib Require Import Strings.Byte Strings.Ascii.
From stdpp Require Import gmap strings list fin_maps pretty.



(** ** Results of code that may panic *)

Inductive panicT : Type :=
| IndexOutOfRange (index len : nat)   (* runtime error: index out of range *)
| PanicMsg (msg : string).            (* panic("...") *)

Inductive result (A : Type) : Type :=
| Ok (a : A)
| Panic (p : panicT).
Arguments Ok {A} a.
Arguments Panic {A} p.

Definition is_Ok {A} (r : result A) : bool :=
  match r with Ok _ => true | Panic _ => false end.

(** ** The frame splitter ([splitMsg]) *)

Module Split.

Definition SPACE : byte := x20.
Definition COLON : byte := x3a.

(** [string(elem)] on a byte slice. *)
Definition string_of_bytes (bs : list byte) : string := String.string_of_list_byte bs.

(** The body of the loop over the frame [b]: [todo] is what the range
    still has to visit and [i] the index of its head in [b].  The read of
    [b[i+1]] is a checked index: out of range it panics.  The slice
    [b[i+2:]] is then within bounds. *)
Fixpoint splitMsg_loop (b : list byte) (i : nat) (todo : list byte)
    (mar : list string) (elem : list byte) : result (list string) :=
  match todo with
  | [] => Ok (mar ++ [string_of_bytes elem])
  | c :: todo' =>
      if Byte.eqb c SPACE then
        match b !! (i + 1)%nat with
        | None => Panic (IndexOutOfRange (i + 1) (length b))
        | Some c1 =>
            if Byte.eqb c1 COLON then
              Ok ((mar ++ [string_of_bytes elem])
                    ++ [string_of_bytes (drop (i + 2) b)])
            else
              splitMsg_loop b (S i) todo' (mar ++ [string_of_bytes elem]) []
        end
      else splitMsg_loop b (S i) todo' mar (elem ++ [c])
  end.

Definition splitMsg (b : list byte) : result (list string) :=
  splitMsg_loop b 0 b [] [].

(** A frame given as text. *)
Definition frame (s : string) : list byte := String.list_byte_of_string s.

(** The loop invariant of [splitMsg]: the bytes still to visit are the
    suffix of the frame at the loop index. *)
Definition at_index (b : list byte) (i : nat) (todo : list byte) : Prop :=
  drop i b = todo.

End Split.

(** ** The coalescing signal ([usemT]) *)

Module Usem.

(** A [chan struct{}]: its capacity and the number of buffered elements
    (the elements carry no data). *)
Record chanT : Type := mkChan { cap : nat; buffered : nat }.

(** A channel operation either proceeds or would park the goroutine. *)
Inductive readiness (A : Type) : Type :=
| Proceeds (a : A)
| WouldBlock.
Arguments Proceeds {A} a.
Arguments WouldBlock {A}.

(** [ch <- struct{}{}] with no receiver waiting; a nil channel ([None]) is
    never ready. *)
Definition chan_send (ch : option chanT) : readiness (option chanT) :=
  match ch with
  | None => WouldBlock
  | Some c =>
      if (buffered c <? cap c)%nat
      then Proceeds (Some (mkChan (cap c) (S (buffered c))))
      else WouldBlock
  end.

(** [<-ch] with no sender waiting. *)
Definition chan_recv (ch : option chanT) : readiness (option chanT) :=
  match ch with
  | None => WouldBlock
  | Some c =>
      match buffered c with
      | O => WouldBlock
      | S k => Proceeds (Some (mkChan (cap c) k))
      end
  end.

Record usemT : Type := mkUsem { _ch : option chanT }.

(** The zero value [usemT{}]: a nil channel. *)
Definition zero : usemT := mkUsem None.

(** [s._ch = make(chan struct{}, 1)] *)
Definition init (s : usemT) : usemT := mkUsem (Some (mkChan 1 0)).

(** [select { case s._ch <- struct{}{}: default: }]: the send when it is
    ready, the default branch otherwise.  The statement as a whole is
    given the readiness type so that "does not block" is a statement
    about the result. *)
Definition set (s : usemT) : readiness usemT :=
  match chan_send (_ch s) with
  | Proceeds ch' => Proceeds (mkUsem ch')
  | WouldBlock => Proceeds s
  end.

(** A receive on [s.ch()]. *)
Definition wait (s : usemT) : readiness usemT :=
  match chan_recv (_ch s) with
  | Proceeds ch' => Proceeds (mkUsem ch')
  | WouldBlock => WouldBlock
  end.

(** [n] consecutive [set()] calls. *)
Fixpoint set_n (n : nat) (s : usemT) : readiness usemT :=
  match n with
  | O => Proceeds s
  | S k =>
      match set s with
      | Proceeds s' => set_n k s'
      | WouldBlock => WouldBlock
      end
  end.

(** The number of wakes a receiver can take without a further [set()]. *)
Definition pending (s : usemT) : nat :=
  match _ch s with
  | None => O
  | Some c => buffered c
  end.

(** A signal on which [init] has run, after any history of [set] and
    receives: a one-slot channel holding at most one element. *)
Definition initialized (s : usemT) : Prop :=
  exists c, _ch s = Some c /\ cap c = 1%nat /\ (buffered c <= 1)%nat.

End Usem.


(** ** Errors *)

(** Go [error] values: the sentinels the handlers name, the errors of the
    libraries they test for, and the two wrapping shapes of the sources. *)
Inductive error : Type :=
| errCannotSend
| errContextCancelled            (* the spelling of wsm.go *)
| errContextCanceled             (* the spelling of the later Y handler *)
| errBadNumberOfArguments
| errNoSuchCourse
| errUnexpectedDBError
| errInvalidState
| ErrTxClosed                    (* pgx.ErrTxClosed *)
| ErrNoRows                      (* pgx.ErrNoRows *)
| ErrNoCookie                    (* http.ErrNoCookie *)
| Canceled                       (* context.Canceled *)
| PgError (Code : string)        (* *pgconn.PgError *)
| errorString (msg : string)     (* any other error value *)
| Wrap (e1 e2 : error)           (* fmt.Errorf("%w: %w", e1, e2), wrapError(e1, e2) *)
| WrapNil (e1 : error)           (* wrapError(e1, nil) *)
| Errorf (prefix : string) (e : error).   (* fmt.Errorf(prefix + ": %w", e) *)

#[global] Instance error_eq_dec : EqDecision error.
Proof. solve_decision. Defined.

(** [errors.Is(err, target)] for a comparable target: the error itself or
    anything it wraps, depth first. *)
Fixpoint errors_Is (err target : error) : bool :=
  bool_decide (err = target) ||
  match err with
  | Wrap e1 e2 => errors_Is e1 target || errors_Is e2 target
  | WrapNil e | Errorf _ e => errors_Is e target
  | _ => false
  end.

(** [errors.As(err, &pgErr)]: the first [*pgconn.PgError] in the chain,
    given by its [Code]. *)
Fixpoint errors_As_PgError (err : error) : option string :=
  match err with
  | PgError code => Some code
  | Wrap e1 e2 =>
      match errors_As_PgError e1 with
      | Some code => Some code
      | None => errors_As_PgError e2
      end
  | WrapNil e | Errorf _ e => errors_As_PgError e
  | _ => None
  end.

(** [wrapError(e1, e2)], whose declaration is not part of the files
    embedded here: it is taken to wrap both errors, as the
    [fmt.Errorf("%w: %w", ...)] calls of wsm.go do in the same places. *)
Definition wrapError (e1 e2 : error) : error := Wrap e1 e2.

(** ** [strconv.ParseInt(s, 10, 64)] *)

Module Strconv.

Definition digit (a : ascii) : option Z :=
  let n := Z.of_nat (nat_of_ascii a) in
  if bool_decide (48 <= n <= 57)%Z then Some (n - 48)%Z else None.

Fixpoint digits (s : string) (acc : Z) : option Z :=
  match s with
  | EmptyString => Some acc
  | String a s' =>
      match digit a with
      | Some d => digits s' (acc * 10 + d)%Z
      | None => None                       (* ErrSyntax *)
      end
  end.

(** [ParseUint(s, 10, 64)] *)
Definition ParseUint (s : string) : option Z :=
  match s with
  | EmptyString => None                    (* ErrSyntax *)
  | _ =>
      match digits s 0 with
      | Some n => if bool_decide (n < 2 ^ 64)%Z then Some n else None  (* ErrRange *)
      | None => None
      end
  end.

(** [ParseInt(s, 10, strconv.IntSize)] with [IntSize = 64]: an optional
    sign, then [ParseUint]; [None] is a non-nil error.  The conversion
    [int(_courseID)] of the handlers is then the identity. *)
Definition ParseInt (s : string) : option Z :=
  match s with
  | EmptyString => None
  | String a s' =>
      let '(neg, rest) :=
        if bool_decide (a = "+"%char) then (false, s')
        else if bool_decide (a = "-"%char) then (true, s')
        else (false, s) in
      match ParseUint rest with
      | None => None
      | Some un =>
          if neg
          then if bool_decide (un <= 2 ^ 63)%Z then Some (- un)%Z else None
          else if bool_decide (un < 2 ^ 63)%Z then Some un else None
      end
  end.

End Strconv.

(** ** The process state and its environment *)

(** The address of a [courseT] object. *)
Definition loc : Type := nat.

(** Modelled from the spec: [courseT], whose declaration is not part of
    the files embedded here (section 3: id, title, group, type, max,
    selected).
    [Selected] and [Max] are [uint32] (the handlers compare them and add
    to [Selected] with [atomic.AddUint32]).  The lock and the subscriber
    table are not fields of the model: lock operations are events. *)
Record courseT : Type := mkCourse {
  ID : Z;
  Title : string;
  Group : string;
  Type_ : string;
  Max : N;
  Selected : N;
}.

(** A [*context.CancelFunc] in the session registry, by its identity. *)
Definition cancelT : Type := nat.

(** What is sent on or done to the WebSocket connection. *)
Inductive connEvent : Type :=
| WriteText (s : string)           (* a text frame: writeText, c.Write *)
| Close (reason : string).         (* c.Close *)

(** Every action of the code on something shared or outside the process,
    in program order. *)
Inductive event : Type :=
| EvConn (c : connEvent)
| EvCtxDone                                    (* poll of ctx.Done() *)
| EvBegin                                      (* db.Begin *)
| EvInsertChoice (seltime : Z) (userID : string) (courseID : Z)
| EvCommit                                     (* tx.Commit *)
| EvRollback                                   (* tx.Rollback *)
| EvDeleteChoice (userID : string) (courseID : Z)
| EvLock (course : loc)                        (* course.SelectedLock.Lock() *)
| EvUnlock (course : loc)                      (* course.SelectedLock.Unlock() *)
| EvAddSelected (course : loc) (delta : Z)     (* atomic.AddUint32(&course.Selected, _) *)
| EvGoPropagateSelectedUpdate (course : loc)   (* go propagateSelectedUpdate(course) *)
| EvCancel (cancel : cancelT)                  (* ( *cancel)() *)
| EvPropagate (msg : string)                   (* propagate(msg) *)
| EvUpdateState (newState : N)                 (* UPDATE misc SET value = $1 *)
| EvStoreState (newState : N)                  (* atomic.StoreUint32(&state, _) *)
| EvAccept                                     (* websocket.Accept *)
| EvHttpWrite (body : string)                  (* w.Write *)
| EvQuerySession (cookie : string)             (* SELECT ... FROM sessions *)
| EvHandleConn (session userid : string)       (* handleConn(ctx, c, session, userid) *)
| EvLog (err : error)                          (* log.Printf("%v", err) *)
| EvCloseNow.                                  (* c.CloseNow() *)

Abbreviation EvWriteText s := (EvConn (WriteText s)).

#[global] Instance connEvent_eq_dec : EqDecision connEvent.
Proof. solve_decision. Defined.
#[global] Instance event_eq_dec : EqDecision event.
Proof. solve_decision. Defined.

(** The environment answers each call from the trace of everything done
    so far, the call itself at its head (traces are newest first). *)
Record envT : Type := mkEnv {
  io_err : list event -> option error;   (* the error result, [None] for nil *)
  io_int : list event -> Z;              (* an integer result: rows affected, the clock *)
  io_str : list event -> string;         (* a string result: a scanned column *)
}.

Record world : Type := mkWorld {
  state : N;                             (* var state uint32, atomic *)
  courses : gmap Z (option loc);         (* var courses sync.Map: int to *courseT, nil as None *)
  heap : loc -> courseT;                 (* the courseT objects *)
  cancelPool : list (string * cancelT);  (* var cancelPool sync.Map, in the order Range visits it *)
  PropagateImmediate : bool;             (* config.Perf.PropagateImmediate *)
  trace : list event;                    (* newest first *)
}.

Definition set_trace (t : list event) (w : world) : world :=
  mkWorld (state w) (courses w) (heap w) (cancelPool w) (PropagateImmediate w) t.

Definition set_heap (h : loc -> courseT) (w : world) : world :=
  mkWorld (state w) (courses w) h (cancelPool w) (PropagateImmediate w) (trace w).

Definition set_state (s : N) (w : world) : world :=
  mkWorld s (courses w) (heap w) (cancelPool w) (PropagateImmediate w) (trace w).

(** State passing. *)
Definition M (A : Type) : Type := world -> A * world.

Definition ret {A} (a : A) : M A := fun w => (a, w).

Definition bind {A B} (m : M A) (k : A -> M B) : M B :=
  fun w => let '(a, w') := m w in k a w'.

Notation "'let*' x ':=' m 'in' k" := (bind m (fun x => k))
  (at level 10, x pattern, m at level 100, k at level 200).
Notation "m ';;' k" := (bind m (fun _ => k))
  (at level 100, k at level 200, right associativity).

(** Code that is handed only the connection: it is given the trace so far
    and returns its result with the connection events it adds (newest
    first). *)
Definition connM (A : Type) : Type := list event -> A * list connEvent.

Definition on_conn {A} (f : connM A) : M A :=
  fun w => let '(a, evs) := f (trace w) in (a, set_trace (map EvConn evs ++ trace w) w).

(** [type reportErrorT func(e string) error], a closure over the
    connection ([makeReportError(ctx, c)]). *)
Definition reportErrorT : Type := string -> connM (option error).

Definition uint32_add (a b : N) : N := ((a + b) mod 2 ^ 32)%N.

(** Go's [int] increment. *)
Definition int_incr (a : Z) : Z := ((a + 1 + 2 ^ 63) mod 2 ^ 64 - 2 ^ 63)%Z.

Definition with_Selected (c : courseT) (n : N) : courseT :=
  mkCourse (ID c) (Title c) (Group c) (Type_ c) (Max c) n.

Definition heap_update (h : loc -> courseT) (l : loc) (c : courseT) : loc -> courseT :=
  fun l' => if decide (l' = l) then c else h l'.

Section Primitives.
Variable env : envT.

Definition emit (ev : event) : M unit :=
  fun w => (tt, set_trace (ev :: trace w) w).

(** A call into the environment: recorded, then answered. *)
Definition call (ev : event) : M (option error) :=
  fun w => let t := ev :: trace w in (io_err env t, set_trace t w).

Definition get {A} (f : world -> A) : M A := fun w => (f w, w).

(** [writeText(ctx, c, s)], whose declaration is not part of the files
    embedded here: one text frame on the connection. *)
Definition writeText (s : string) : M (option error) := call (EvWriteText s).

(** [select { case <-ctx.Done(): ...ctx.Err()... default: }]: [Some] of
    [ctx.Err()] when the context is done. *)
Definition ctx_Done : M (option error) := call EvCtxDone.

(** [time.Now().UnixMicro()] *)
Definition now_UnixMicro : M Z := fun w => (io_int env (trace w), w).

(** [atomic.AddUint32(&course.Selected, 1)] *)
Definition AddUint32_Selected (l : loc) : M unit :=
  fun w =>
    let c := heap w l in
    (tt, set_trace (EvAddSelected l 1 :: trace w)
           (set_heap (heap_update (heap w) l (with_Selected c (uint32_add (Selected c) 1))) w)).

(** Modelled from the spec: the decrement of [decrementSelectedAndPropagate]
    (section 4.4, unchoose step 1: decrement selected, clamp at zero). *)
Definition decrement_Selected (l : loc) : M unit :=
  fun w =>
    let c := heap w l in
    if bool_decide (Selected c = 0%N) then (tt, w)
    else (tt, set_trace (EvAddSelected l (-1) :: trace w)
                (set_heap (heap_update (heap w) l (with_Selected c (Selected c - 1)%N)) w)).

(** Modelled from the spec: [sendSelectedUpdate], whose declaration is
    not part of the files embedded here (section 4.5, step 4: the frame
    [M <courseid> <selected>], the count read at the time of sending).  For an id that is not in the
    catalogue the spec says nothing; the model sends nothing and returns
    an error. *)
Definition sendSelectedUpdate (courseID : Z) : M (option error) :=
  let* cs := get courses in
  match cs !! courseID with
  | Some (Some l) =>
      let* h := get heap in
      writeText ("M " +:+ pretty courseID +:+ " " +:+ pretty (Selected (h l)))
  | _ => ret (Some errNoSuchCourse)
  end.

(** Modelled from the spec: [decrementSelectedAndPropagate], a method of
    [courseT] whose declaration is not part of the files embedded here
    (section 4.4: under the course's lock decrement selected, clamped at
    zero, then signal the subscribers).  Its callers hand it the connection and wrap its error
    as [errCannotSend]: the model has it send the count to the caller's
    connection and return the error of that write. *)
Definition decrementSelectedAndPropagate (l : loc) : M (option error) :=
  emit (EvLock l);;
  decrement_Selected l;;
  emit (EvUnlock l);;
  emit (EvGoPropagateSelectedUpdate l);;
  let* h := get heap in
  sendSelectedUpdate (ID (h l)).

(** Modelled from the spec: [makeReportError], whose declaration is not
    part of the files embedded here (section 7: a bad request is delivered
    as [E :<reason>] and the session continues).  The frame is written; the result is the error of
    the write, nil when the frame was delivered. *)
Definition makeReportError : reportErrorT :=
  fun e t =>
    let ev := WriteText ("E :" +:+ e) in
    (match io_err env (EvConn ev :: t) with
     | Some err => Some (Wrap errCannotSend err)
     | None => None
     end, [ev]).

End Primitives.


(** [type userCourseGroupsT map[courseGroupT]struct{}] and
    [type userCourseTypesT map[courseTypeT]int] *)
Abbreviation userCourseGroupsT := (gset string).
Abbreviation userCourseTypesT := (gmap string Z).

(** ** The message handlers of wsm.go *)

Module Wsm.
Section Handlers.
Variable env : envT.
(** [pgErrUniqueViolation], a constant whose declaration is not part of
    the files embedded here. *)
Variable pgErrUniqueViolation : string.
Variable reportError : reportErrorT.


(** [return reportError(msg)] *)
Definition report {S} (msg : string) (s : S) : M (option error * S) :=
  let* r := on_conn (reportError msg) in ret (r, s).

(** [errors.As(err, &pgErr) && pgErr.Code == pgErrUniqueViolation] *)
Definition isUniqueViolation (err : error) : bool :=
  match errors_As_PgError err with
  | Some code => bool_decide (code = pgErrUniqueViolation)
  | None => false
  end.

(** The admission critical section:
    [Lock(); defer Unlock(); if Selected < Max { AddUint32(&Selected, 1); return true }; return false] *)
Definition admission (course : loc) : M bool :=
  emit (EvLock course);;
  let* h := get heap in
  if (Selected (h course) <? Max (h course))%N then
    AddUint32_Selected course;;
    emit (EvUnlock course);;
    ret true
  else
    emit (EvUnlock course);;
    ret false.

(** The body of the closure of [messageChooseCourse] after the deferred
    rollback has been registered. *)
Definition chooseCourse_tx (mar1 userID : string) (courseID : Z) (course : loc)
    (userCourseGroups : userCourseGroupsT) : M (option error * userCourseGroupsT) :=
  let* seltime := now_UnixMicro env in
  let* err := call env (EvInsertChoice seltime userID courseID) in
  match err with
  | Some err =>
      if isUniqueViolation err then
        let* err := writeText env ("Y " +:+ mar1) in
        match err with
        | Some err =>
            ret (Some (Errorf "error reaffirming course choice" err), userCourseGroups)
        | None => ret (None, userCourseGroups)
        end
      else report "Database error while inserting course choice" userCourseGroups
  | None =>
      let* ok := admission course in
      if ok then
        emit (EvGoPropagateSelectedUpdate course);;
        let* err := call env EvCommit in
        match err with
        | Some _ =>
            let* err := decrementSelectedAndPropagate env course in
            match err with
            | Some err => ret (Some (Wrap errCannotSend err), userCourseGroups)
            | None =>
                report "Database error while committing transaction" userCourseGroups
            end
        | None =>
            let* h := get heap in
            let userCourseGroups := {[Group (h course)]} ∪ userCourseGroups in
            let* err := writeText env ("Y " +:+ mar1) in
            match err with
            | Some err => ret (Some (Wrap errCannotSend err), userCourseGroups)
            | None =>
                let* immediate := get PropagateImmediate in
                if immediate then
                  let* err := sendSelectedUpdate env courseID in
                  match err with
                  | Some err => ret (Some (Wrap errCannotSend err), userCourseGroups)
                  | None => ret (None, userCourseGroups)
                  end
                else ret (None, userCourseGroups)
            end
        end
      else
        let* err := call env EvRollback in
        match err with
        | Some _ =>
            report "Database error while rolling back transaction due to course limit"
              userCourseGroups
        | None =>
            let* err := writeText env ("R " +:+ mar1 +:+ " :Full") in
            match err with
            | Some err => ret (Some (Wrap errCannotSend err), userCourseGroups)
            | None => ret (None, userCourseGroups)
            end
        end
  end.

(** The closure [func() (returnedError error)]: begin, register the
    deferred rollback, run the body, then the deferred function, which
    may replace the returned error. *)
Definition chooseCourse_closure (mar1 userID : string) (courseID : Z) (course : loc)
    (userCourseGroups : userCourseGroupsT) : M (option error * userCourseGroupsT) :=
  let* err := call env EvBegin in
  match err with
  | Some _ => report "Database error while beginning transaction" userCourseGroups
  | None =>
      let* (returnedError, userCourseGroups) :=
        chooseCourse_tx mar1 userID courseID course userCourseGroups in
      let* err := call env EvRollback in
      match err with
      | Some err =>
          if negb (errors_Is err ErrTxClosed) then
            report "Database error while rolling back transaction in defer block"
              userCourseGroups
          else ret (returnedError, userCourseGroups)
      | None => ret (returnedError, userCourseGroups)
      end
  end.

Definition messageChooseCourse (mar : list string) (userID session : string)
    (userCourseGroups : userCourseGroupsT) : M (option error * userCourseGroupsT) :=
  let* st := get state in
  if negb (st =? 2)%N then
    let* err := writeText env "E :Course selections are not open" in
    match err with
    | Some err => ret (Some (Wrap errCannotSend err), userCourseGroups)
    | None => ret (None, userCourseGroups)
    end
  else
    let* done := ctx_Done env in
    match done with
    | Some ctxErr => ret (Some (Wrap errContextCancelled ctxErr), userCourseGroups)
    | None =>
        match mar with
        | [_; mar1] =>
            match Strconv.ParseInt mar1 with
            | None => report "Course ID must be an integer" userCourseGroups
            | Some courseID =>
                let* cs := get courses in
                match cs !! courseID with
                | None => report "no such course" userCourseGroups
                | Some None => report "couse is nil" userCourseGroups
                | Some (Some course) =>
                    let* h := get heap in
                    if bool_decide (Group (h course) ∈ userCourseGroups) then
                      let* err := writeText env ("R " +:+ mar1 +:+ " :Group conflict") in
                      match err with
                      | Some err => ret (Some (Wrap errCannotSend err), userCourseGroups)
                      | None => ret (None, userCourseGroups)
                      end
                    else
                      chooseCourse_closure mar1 userID courseID course userCourseGroups
                end
            end
        | _ => report "Invalid number of arguments for Y" userCourseGroups
        end
    end.

(** [db.Exec(ctx, "DELETE FROM choices WHERE userid = $1 AND courseid = $2", ...)]:
    the rows affected and the error. *)
Definition exec_delete (userID : string) (courseID : Z) : M (Z * option error) :=
  fun w =>
    let t := EvDeleteChoice userID courseID :: trace w in
    ((io_int env t, io_err env t), set_trace t w).

(** The block of [messageUnchooseCourse] under [ct.RowsAffected() != 0]:
    [inl] is a return from the handler, [inr] falls through to the reply
    with the updated groups. *)
Definition unchoose_removed (courseID : Z) (course : loc)
    (userCourseGroups : userCourseGroupsT)
  : M (option error + userCourseGroupsT) :=
  let* err := decrementSelectedAndPropagate env course in
  match err with
  | Some err => ret (inl (Some (Wrap errCannotSend err)))
  | None =>
      let* cs := get courses in
      match cs !! courseID with
      | None => let* r := on_conn (reportError "no such course") in ret (inl r)
      | Some None => let* r := on_conn (reportError "couse is nil") in ret (inl r)
      | Some (Some course) =>
          let* h := get heap in
          if negb (bool_decide (Group (h course) ∈ userCourseGroups)) then
            let* r := on_conn (reportError "inconsistent user course groups") in
            ret (inl r)
          else ret (inr (userCourseGroups ∖ {[Group (h course)]}))
      end
  end.

Definition messageUnchooseCourse (mar : list string) (userID session : string)
    (userCourseGroups : userCourseGroupsT) : M (option error * userCourseGroupsT) :=
  let* st := get state in
  if negb (st =? 2)%N then
    let* err := writeText env "E :Course selections are not open" in
    match err with
    | Some err => ret (Some (Wrap errCannotSend err), userCourseGroups)
    | None => ret (None, userCourseGroups)
    end
  else
    let* done := ctx_Done env in
    match done with
    | Some ctxErr => ret (Some (Wrap errContextCancelled ctxErr), userCourseGroups)
    | None =>
        match mar with
        | [_; mar1] =>
            match Strconv.ParseInt mar1 with
            | None => report "Course ID must be an integer" userCourseGroups
            | Some courseID =>
                let* cs := get courses in
                match cs !! courseID with
                | None => report "no such course" userCourseGroups
                | Some None => report "couse is nil" userCourseGroups
                | Some (Some course) =>
                    let* (rowsAffected, err) := exec_delete userID courseID in
                    match err with
                    | Some _ =>
                        report "Database error while deleting course choice"
                          userCourseGroups
                    | None =>
                        let* removed :=
                          if negb (rowsAffected =? 0)%Z
                          then unchoose_removed courseID course userCourseGroups
                          else ret (inr userCourseGroups) in
                        match removed with
                        | inl returned => ret (returned, userCourseGroups)
                        | inr userCourseGroups =>
                            let* err := writeText env ("N " +:+ mar1) in
                            match err with
                            | Some err =>
                                ret (Some (Wrap errCannotSend err), userCourseGroups)
                            | None => ret (None, userCourseGroups)
                            end
                        end
                    end
                end
            end
        | _ => report "Invalid number of arguments for N" userCourseGroups
        end
    end.

End Handlers.
End Wsm.


(** ** The later handler of the Y message *)

Module WsmY.
Section Handler.
Variable env : envT.
Variable pgErrUniqueViolation : string.

(** What the handler leaves in the two maps it is handed by pointer. *)
Record bookkeeping : Type := mkBook {
  userCourseGroups : userCourseGroupsT;
  userCourseTypes : userCourseTypesT;
}.

(** [( *userCourseTypes)[course.Type]++] *)
Definition incr_type (ty : string) (m : userCourseTypesT) : userCourseTypesT :=
  <[ty := int_incr (default 0%Z (m !! ty))]> m.

Definition chooseCourse_tx (mar1 userID : string) (courseID : Z) (course : loc)
    (b : bookkeeping) : M (option error * bookkeeping) :=
  let* seltime := now_UnixMicro env in
  let* err := call env (EvInsertChoice seltime userID courseID) in
  match err with
  | Some err =>
      if Wsm.isUniqueViolation pgErrUniqueViolation err then
        let* err2 := writeText env ("Y " +:+ mar1) in
        match err2 with
        | Some err2 =>
            ret (Some (wrapError err2 (wrapError errUnexpectedDBError err)), b)
        | None => ret (None, b)
        end
      else ret (Some (wrapError errUnexpectedDBError err), b)
  | None =>
      let* ok := Wsm.admission course in
      if ok then
        emit (EvGoPropagateSelectedUpdate course);;
        let* err := call env EvCommit in
        match err with
        | Some _ =>
            (* [err := course.decrementSelectedAndPropagate(ctx, c)] declares
               a new [err] inside the block: the [err] that is wrapped
               after the test is this one, which is nil there, not the
               error of the commit. *)
            let* err := decrementSelectedAndPropagate env course in
            match err with
            | Some err => ret (Some (wrapError errCannotSend err), b)
            | None => ret (Some (WrapNil errUnexpectedDBError), b)
            end
        | None =>
            let* h := get heap in
            let b := mkBook ({[Group (h course)]} ∪ userCourseGroups b)
                            (incr_type (Type_ (h course)) (userCourseTypes b)) in
            let* err := writeText env ("Y " +:+ mar1) in
            match err with
            | Some err => ret (Some (wrapError errCannotSend err), b)
            | None =>
                let* immediate := get PropagateImmediate in
                if immediate then
                  let* err := sendSelectedUpdate env courseID in
                  match err with
                  | Some err => ret (Some (wrapError errCannotSend err), b)
                  | None => ret (None, b)
                  end
                else ret (None, b)
            end
        end
      else
        let* err := call env EvRollback in
        match err with
        | Some err => ret (Some (wrapError errUnexpectedDBError err), b)
        | None =>
            let* err := writeText env ("R " +:+ mar1 +:+ " :Full") in
            match err with
            | Some err => ret (Some (wrapError errCannotSend err), b)
            | None => ret (None, b)
            end
        end
  end.

Definition chooseCourse_closure (mar1 userID : string) (courseID : Z) (course : loc)
    (b : bookkeeping) : M (option error * bookkeeping) :=
  let* err := call env EvBegin in
  match err with
  | Some err => ret (Some (wrapError errUnexpectedDBError err), b)
  | None =>
      let* (returnedError, b) := chooseCourse_tx mar1 userID courseID course b in
      let* err := call env EvRollback in
      match err with
      | Some err =>
          if negb (errors_Is err ErrTxClosed)
          then ret (Some (wrapError errUnexpectedDBError err), b)
          else ret (returnedError, b)
      | None => ret (returnedError, b)
      end
  end.

Definition messageChooseCourse (mar : list string) (userID : string)
    (b : bookkeeping) : M (option error * bookkeeping) :=
  let* st := get state in
  if negb (st =? 2)%N then
    let* err := writeText env "E :Course selections are not open" in
    match err with
    | Some err => ret (Some (wrapError errCannotSend err), b)
    | None => ret (None, b)
    end
  else
    let* done := ctx_Done env in
    match done with
    | Some ctxErr => ret (Some (wrapError errContextCanceled ctxErr), b)
    | None =>
        match mar with
        | [_; mar1] =>
            match Strconv.ParseInt mar1 with
            | None => ret (Some errNoSuchCourse, b)
            | Some courseID =>
                let* cs := get courses in
                match cs !! courseID with
                | None => ret (Some errNoSuchCourse, b)
                | Some None => ret (Some errNoSuchCourse, b)
                | Some (Some course) =>
                    let* h := get heap in
                    if bool_decide (Group (h course) ∈ userCourseGroups b) then
                      let* err := writeText env ("R " +:+ mar1 +:+ " :Group conflict") in
                      match err with
                      | Some err => ret (Some (wrapError errCannotSend err), b)
                      | None => ret (None, b)
                      end
                    else chooseCourse_closure mar1 userID courseID course b
                end
            end
        | _ => ret (Some errBadNumberOfArguments, b)
        end
    end.

End Handler.
End WsmY.

(** ** The mode controller (state.go) *)

Module State.
Section Mode.
Variable env : envT.

(** [cancelPool.Range(f)]: [f] is called on the entries in turn until it
    returns false. *)
Fixpoint Range {K V} (entries : list (K * V)) (f : K -> V -> M bool) : M unit :=
  match entries with
  | [] => ret tt
  | (k, v) :: rest =>
      let* continue := f k v in
      if continue then Range rest f else ret tt
  end.

(** [saveStateValue(ctx, newState)] *)
Definition saveStateValue (newState : N) : M (option error) :=
  let* err := call env (EvUpdateState newState) in
  match err with
  | Some err => ret (Some (wrapError errUnexpectedDBError err))
  | None => ret None
  end.

(** [propagate(msg)], whose declaration is not part of the files embedded
    here: recorded as an event. *)
Definition propagate (msg : string) : M unit := emit (EvPropagate msg).

Definition setState (newState : N) : M (option error) :=
  let* stop :=
    match newState with
    | 0%N =>
        let* pool := get cancelPool in
        Range pool (fun _ cancel => emit (EvCancel cancel);; ret false);;
        ret None
    | 1%N => propagate "STOP";; ret None
    | 2%N => propagate "START";; ret None
    | _ => ret (Some errInvalidState)
    end in
  match stop with
  | Some err => ret (Some err)
  | None =>
      let* err := saveStateValue newState in
      match err with
      | Some err => ret (Some err)
      | None =>
          (fun w => (tt, set_trace (EvStoreState newState :: trace w)
                           (set_state newState w)));;
          ret None
      end
  end.

(** What the switch of [setState] does before the value is saved. *)
Definition announced (newState : N) (w : world) : list event :=
  match newState with
  | 0%N => match cancelPool w with [] => [] | (_, cancel) :: _ => [EvCancel cancel] end
  | 1%N => [EvPropagate "STOP"]
  | _ => [EvPropagate "START"]
  end.

(** The cancel handles invoked in a trace, oldest first. *)
Definition cancelled (t : list event) : list cancelT :=
  rev (omap (fun ev => match ev with EvCancel c => Some c | _ => None end) t).

End Mode.
End State.

(** ** The WebSocket endpoint ([handleWs]) *)

Module Ws.
Section Endpoint.
Variable env : envT.

(** What [handleWs] reads of the request: the result of
    [req.Cookie("session")], the cookie's value and the error. *)
Record Request : Type := mkRequest {
  Cookie : string -> string * option error;
}.

(** [c.Write(req.Context(), websocket.MessageText, []byte(s))]; the
    result is dropped. *)
Definition c_Write (s : string) : M unit :=
  call env (EvWriteText s);; ret tt.

(** [db.QueryRow(..., cookie).Scan(&userid, &expr)]: on an error the
    variables keep their zero values. *)
Definition query_session (cookie : string) : M (string * option error) :=
  fun w =>
    let t := EvQuerySession cookie :: trace w in
    (match io_err env t with
     | Some err => ("", Some err)
     | None => (io_str env t, None)
     end, set_trace t w).

(** [handleConn(req.Context(), c, session, userid)]: its entry is
    recorded; what it returns is the environment's. *)
Definition handleConn (session userid : string) : M (option error) :=
  call env (EvHandleConn session userid).

Definition handleWs (req : Request) : M unit :=
  let* err := call env EvAccept in
  match err with
  | Some _ =>
      emit (EvHttpWrite "This endpoint only supports valid WebSocket connections.")
  | None =>
      (* defer c.CloseNow() *)
      (let '(sessionCookie, err) := Cookie req "session" in
       match err with
       | Some err =>
           if errors_Is err ErrNoCookie
           then c_Write "U"
           else c_Write "E :Error fetching cookie"
       | None =>
           let* (userid, err) := query_session sessionCookie in
           match err with
           | Some err =>
               if errors_Is err ErrNoRows then c_Write "U"
               else c_Write "E :Database error"
           | None => ret tt
           end;;
           let* err := handleConn sessionCookie userid in
           match err with
           | Some err => emit (EvLog err)
           | None => ret tt
           end
       end);;
      emit EvCloseNow
  end.

End Endpoint.
End Ws.


(** ** Runs, invariants and sample inputs *)

(** Invariant 4 of the data model, for every course object. *)
Definition capacity_inv (h : loc -> courseT) : Prop :=
  forall l, (Selected (h l) <= Max (h l))%N.

Definition is_Selected_update (ev : event) : bool :=
  match ev with EvAddSelected _ _ => true | _ => false end.

(** [logged h delta h']: the events [delta] (newest first) are the log of
    a run that takes the course objects from [h] to [h'], in which
    [Selected] changes only by an [EvAddSelected] that stands between the
    [Lock] and the [Unlock] of that course's lock, an increment only at a
    moment when [Selected < Max], a decrement only when [Selected] is not
    zero. *)
Inductive logged : (loc -> courseT) -> list event -> (loc -> courseT) -> Prop :=
| logged_nil h : logged h [] h
| logged_other h delta h' ev :
    logged h delta h' ->
    is_Selected_update ev = false ->
    logged h (ev :: delta) h'
| logged_increment h delta h' l :
    logged h delta h' ->
    (Selected (h' l) < Max (h' l))%N ->
    logged h (EvUnlock l :: EvAddSelected l 1 :: EvLock l :: delta)
      (heap_update h' l (with_Selected (h' l) (uint32_add (Selected (h' l)) 1)))
| logged_decrement h delta h' l :
    logged h delta h' ->
    Selected (h' l) <> 0%N ->
    logged h (EvUnlock l :: EvAddSelected l (-1) :: EvLock l :: delta)
      (heap_update h' l (with_Selected (h' l) (Selected (h' l) - 1)%N)).

(** Read off a log: each increment has the [Unlock] of its course right
    after it and the [Lock] right before it, and the counter was below
    [Max] in the course objects [h1] the log before the [Lock] leads to. *)
Definition increments_in_critical_section (h : loc -> courseT)
    (delta : list event) : Prop :=
  forall newer older l,
    delta = newer ++ EvAddSelected l 1 :: older ->
    exists newer' older' h1,
      newer = newer' ++ [EvUnlock l] /\ older = EvLock l :: older' /\
      logged h older' h1 /\ (Selected (h1 l) < Max (h1 l))%N.

(** The course a Y or N argument names: [strconv.ParseInt], then
    [courses.Load], then the nil test. *)
Definition resolve (w : world) (mar1 : string) : option loc :=
  match Strconv.ParseInt mar1 with
  | None => None
  | Some courseID =>
      match courses w !! courseID with
      | Some (Some course) => Some course
      | _ => None
      end
  end.

(** [silent p m]: no run of [m] adds an event that [p] selects. *)
Definition silent (p : event -> bool) {A} (m : M A) : Prop :=
  forall w, exists delta,
    trace (m w).2 = delta ++ trace w /\ Forall (fun ev => p ev = false) delta.

(** A computation all of whose runs are logged. *)
Definition runs {A} (m : M A) : Prop :=
  forall w, exists delta,
    trace (m w).2 = delta ++ trace w /\ logged (heap w) delta (heap (m w).2).

(** An environment in which every call succeeds. *)
Definition env_ok : envT := mkEnv (fun _ => None) (fun _ => 0%Z) (fun _ => "").

(** An environment that fails the calls [fails] selects, with [err]. *)
Definition env_failing (fails : event -> bool) (err : error) : envT :=
  mkEnv (fun t => match t with
                  | ev :: _ => if fails ev then Some err else None
                  | [] => None
                  end)
        (fun _ => 0%Z) (fun _ => "").

Definition is_insert (ev : event) : bool :=
  match ev with EvInsertChoice _ _ _ => true | _ => false end.
Definition is_delete (ev : event) : bool :=
  match ev with EvDeleteChoice _ _ => true | _ => false end.
Definition is_query (ev : event) : bool :=
  match ev with EvQuerySession _ => true | _ => false end.

(** The SQLSTATE of PostgreSQL's unique_violation, for the sample runs. *)
Definition sample_unique_violation : string := "23505".


Definition chess : courseT := mkCourse 7 "Chess" "x" "Enrichment" 1 0.

(** Selections open, one course (id 7, one seat, none taken), two
    sessions registered. *)
Definition sample_world (mode : N) : world :=
  mkWorld mode {[ 7%Z := Some 0%nat ]} (fun _ => chess)
    [("alice", 1%nat); ("bob", 2%nat)] true [].

(** ** The wire format, written *)

Module Wire.
Import Split.

(** Fields written one after the other with single spaces between them,
    as the comment at the head of the WebSocket routines describes the
    message format. *)
Definition join (fields : list (list byte)) : list byte :=
  match fields with
  | [] => []
  | f :: rest => f ++ concat (map (cons SPACE) rest)
  end.

(** The same followed by a trailing argument: a space, a colon, and the
    rest of the frame. *)
Definition join_trailing (fields : list (list byte)) (trailing : list byte)
  : list byte :=
  join fields ++ SPACE :: COLON :: trailing.

(** A field without a space. *)
Definition plain (f : list byte) : Prop :=
  Forall (fun c => Byte.eqb c SPACE = false) f.

(** A field that may follow a space: without a space, not empty, not
    beginning with a colon. *)
Definition follower (f : list byte) : Prop :=
  plain f /\ exists c f', f = c :: f' /\ Byte.eqb c COLON = false.

(** A space that is followed by a colon somewhere in the frame. *)
Definition has_marker (b : list byte) : Prop :=
  exists j, b !! j = Some SPACE /\ b !! (j + 1)%nat = Some COLON.

(** What the loop of [splitMsg] holds after the field [cur] and the
    fields [rest]: the fields completed and the one being read. *)
Fixpoint read_fields (cur : list byte) (rest : list (list byte))
  : list string * list byte :=
  match rest with
  | [] => ([], cur)
  | f :: rest' =>
      let '(done, last) := read_fields f rest' in
      (string_of_bytes cur :: done, last)
  end.

End Wire.

(** [strings.Join(elems, sep)] *)
Fixpoint strings_Join (elems : list string) (sep : string) : string :=
  match elems with
  | [] => ""
  | [e] => e
  | e :: rest => e +:+ sep +:+ strings_Join rest sep
  end.

(** ** The HELLO handler of wsm.go *)

Module Hello.

(** What the database answers to the SELECT of [messageHello]: the error
    of [db.Query], the error of [pgx.CollectRows] and the collected
    column. *)
Record choicesT : Type := mkChoices {
  query_err : option error;
  collect_err : option error;
  courseIDs : list string;
}.

Section Handler.
Variable env : envT.
(** The SELECT changes nothing and leaves no event: it is answered from
    the trace so far and the user id. *)
Variable choices : list event -> string -> choicesT.
Variable reportError : reportErrorT.

Definition messageHello (mar : list string) (userID session : string)
  : M (option error) :=
  let* done := ctx_Done env in
  match done with
  | Some ctxErr => ret (Some (Wrap errContextCancelled ctxErr))
  | None =>
      let* t := get trace in
      let answer := choices t userID in
      match query_err answer with
      | Some _ => on_conn (reportError "error fetching choices")
      | None =>
          match collect_err answer with
          | Some _ => on_conn (reportError "error collecting choices")
          | None =>
              let* st := get state in
              let* err :=
                if (st =? 2)%N then writeText env "START" else ret None in
              match err with
              | Some err => ret (Some (Wrap errCannotSend err))
              | None =>
                  let* err :=
                    writeText env
                      ("HI :" +:+ strings_Join (courseIDs answer) ",") in
                  match err with
                  | Some err => ret (Some (Wrap errCannotSend err))
                  | None => ret None
                  end
              end
          end
      end
  end.

End Handler.
End Hello.

(** ** The initial load of the mode ([loadState]) *)

Module Boot.

(** What [loadState] asks of the database, in program order. *)
Inductive miscCall : Type :=
| SelectState                 (* SELECT value FROM misc WHERE key = 'state' *)
| InsertState (value : N).    (* INSERT INTO misc(key, value) VALUES ('state', $1) *)

(** The answers of the database to the two statements: the error of the
    Scan with the value it left in [_state] when there is none, and the
    error of the INSERT. *)
Record dbT : Type := mkDb {
  select_state : option error * N;
  insert_state : N -> option error;
}.

(** [atomic.StoreUint32(&state, _state)] *)
Definition store_state (v : N) : M unit :=
  fun w => (tt, set_trace (EvStoreState v :: trace w) (set_state v w)).

(** [loadState()], with the statements it issued. *)
Definition loadState (db : dbT) : M (option error * list miscCall) :=
  let '(err, scanned) := select_state db in
  match err with
  | Some err =>
      if errors_Is err ErrNoRows then
        let _state := 0%N in
        match insert_state db _state with
        | Some err =>
            ret (Some (wrapError errUnexpectedDBError err),
                 [SelectState; InsertState _state])
        | None =>
            store_state _state;;
            ret (None, [SelectState; InsertState _state])
        end
      else ret (Some (wrapError errUnexpectedDBError err), [SelectState])
  | None =>
      store_state scanned;;
      ret (None, [SelectState])
  end.

End Boot.

(** ** More about runs *)

(** [w'] differs from [w] at most in the trace and in the [Selected]
    counters: the mode, the catalogue, the registry, the configuration
    and every other field of every course are the same. *)
Definition same_but_counters (w w' : world) : Prop :=
  state w' = state w /\ courses w' = courses w /\
  cancelPool w' = cancelPool w /\ PropagateImmediate w' = PropagateImmediate w /\
  forall l, with_Selected (heap w' l) 0 = with_Selected (heap w l) 0.

(** A computation that changes nothing but the trace and the counters. *)
Definition frames {A} (m : M A) : Prop := forall w, same_but_counters w (m w).2.

(** The trace after [db.Begin] and after the INSERT of a Y frame. *)
Definition t_begin (w : world) : list event := EvBegin :: EvCtxDone :: trace w.
Definition t_insert (env : envT) (w : world) (userID : string) (courseID : Z)
  : list event :=
  EvInsertChoice (io_int env (t_begin w)) userID courseID :: t_begin w.

(** The Y frame with argument [mar1] of [userID] gets as far as the
    admission critical section of [course]: the mode is open, the context
    live, the argument names [course], the transaction began and the
    INSERT succeeded. *)
Definition reaches_admission (env : envT) (w : world) (userID mar1 : string)
    (courseID : Z) (course : loc) : Prop :=
  state w = 2%N /\
  io_err env (EvCtxDone :: trace w) = None /\
  Strconv.ParseInt mar1 = Some courseID /\
  courses w !! courseID = Some (Some course) /\
  io_err env (t_begin w) = None /\
  io_err env (t_insert env w userID courseID) = None.

Definition is_increment (ev : event) : bool :=
  match ev with EvAddSelected _ delta => (delta =? 1)%Z | _ => false end.

(** The sample course with its one seat taken. *)
Definition chess_full : courseT := mkCourse 7 "Chess" "x" "Enrichment" 1 1.
Definition full_world : world :=
  mkWorld 2 {[ 7%Z := Some 0%nat ]} (fun _ => chess_full)
    [("alice", 1%nat); ("bob", 2%nat)] true [].

(** ** The first connection loop ([handleConn] of the primary WebSocket routines) *)

Module Conn0.

(** What the [select] of the loop takes: a string from the [send]
    channel, or what the reading goroutine passes on through [recv]. *)
Inductive arrival : Type :=
| FromSend (gonnasend : string)
| Received (b : list byte)
| ReadFailed (err : error).

(** How the run over a finite script of arrivals ends: [handleConn]
    returns, it panics, or the [select] waits for more. *)
Inductive ending : Type :=
| Returned (err : error)
| Panicked (p : panicT)
| Waiting.

(** The first field of a frame. *)
Definition verb (b : list byte) : string :=
  match Split.splitMsg b with
  | Ok (mar0 :: _) => mar0
  | _ => ""
  end.

Section Routine.
Variable env : envT.

(** The answer of the [switch mar[0]]. *)
Definition answer (mar0 : string) : string :=
  if String.eqb mar0 "HELLO" then "HI" else "E :Unknown command " +:+ mar0.

Fixpoint serve (arrivals : list arrival) : M ending :=
  match arrivals with
  | [] => ret Waiting
  | FromSend gonnasend :: rest =>
      let* err := call env (EvWriteText gonnasend) in
      match err with
      | Some err => ret (Returned err)
      | None => serve rest
      end
  | ReadFailed err :: _ => ret (Returned err)
  | Received b :: rest =>
      match Split.splitMsg b with
      | Panic p => ret (Panicked p)
      | Ok [] => ret (Panicked (IndexOutOfRange 0 0))
      | Ok (mar0 :: _) =>
          (* the result of c.Write is dropped *)
          call env (EvWriteText (answer mar0));;
          serve rest
      end
  end.

(** [handleConn(ctx, c, session, userid)]: [send] is the channel it
    makes, [chanPool] the package's slice of channels, which it returns
    as it leaves it. *)
Definition handleConn {chan : Type} (chanPool : list chan) (send : chan)
    (arrivals : list arrival) (session userid : string)
  : M (ending * list chan) :=
  let chanPool := chanPool ++ [send] in
  let* e := serve arrivals in
  ret (e, chanPool).

End Routine.
End Conn0.

(** ** The connection routine ([handleConn] of the WebSocket connection routine) *)

(** The goroutines that [handleConn] starts, the reader of the connection
    and one forwarder for each course's signal, are the producers of the
    arrivals its loop selects from; the routine is run over a finite
    script of them. *)
Module Conn.

(** What the [select] of the main loop takes. *)
Inductive arrival : Type :=
| Done (err : error)            (* <-newCtx.Done(); [err] is newCtx.Err() *)
| Wake (courseID : Z)           (* courseID := <-usemParent *)
| Received (b : list byte)      (* <-recv with a frame *)
| ReadFailed (err : error).     (* <-recv with the error of c.Read *)

(** How the run over a finite script of arrivals ends: [handleConn]
    returns [retErr], it panics, or the [select] waits for more. *)
Inductive ending : Type :=
| Returned (retErr : option error)
| Panicked (p : panicT)
| Waiting.

(** The package state of the update signals. *)
Record notifierT : Type := mkNotifier {
  numCourses : N;                            (* var numCourses uint32, atomic *)
  usemCount : Z;                             (* var usemCount int64, atomic *)
  Usems : loc -> gmap string Usem.usemT;     (* course.Usems, a sync.Map in each course *)
}.

(** [atomic.AddInt64(&usemCount, delta)] *)
Definition int64_add (a b : Z) : Z := ((a + b + 2 ^ 63) mod 2 ^ 64 - 2 ^ 63)%Z.

Definition AddInt64_usemCount (delta : Z) (n : notifierT) : notifierT :=
  mkNotifier (numCourses n) (int64_add (usemCount n) delta) (Usems n).

Definition set_Usems (u : loc -> gmap string Usem.usemT) (n : notifierT)
  : notifierT :=
  mkNotifier (numCourses n) (usemCount n) u.

(** [course.Usems.Store(userID, usem)] and [course.Usems.Delete(userID)] *)
Definition Usems_Store (course : loc) (userID : string) (usem : Usem.usemT)
    (n : notifierT) : notifierT :=
  set_Usems (fun l => if decide (l = course)
                      then <[userID := usem]> (Usems n l) else Usems n l) n.

Definition Usems_Delete (course : loc) (userID : string) (n : notifierT)
  : notifierT :=
  set_Usems (fun l => if decide (l = course)
                      then delete userID (Usems n l) else Usems n l) n.

(** The registry [cancelPool] as a [sync.Map]. *)
Fixpoint Load (pool : list (string * cancelT)) (key : string) : option cancelT :=
  match pool with
  | [] => None
  | (k, v) :: rest => if decide (k = key) then Some v else Load rest key
  end.

Fixpoint Store (pool : list (string * cancelT)) (key : string) (value : cancelT)
  : list (string * cancelT) :=
  match pool with
  | [] => [(key, value)]
  | (k, v) :: rest =>
      if decide (k = key) then (key, value) :: rest
      else (k, v) :: Store rest key value
  end.

Fixpoint CompareAndDelete (pool : list (string * cancelT)) (key : string)
    (old : cancelT) : list (string * cancelT) :=
  match pool with
  | [] => []
  | (k, v) :: rest =>
      if decide (k = key) then
        if decide (v = old) then rest else (k, v) :: rest
      else (k, v) :: CompareAndDelete rest key old
  end.

Definition set_cancelPool (pool : list (string * cancelT)) (w : world) : world :=
  mkWorld (state w) (courses w) (heap w) pool (PropagateImmediate w) (trace w).

(** The first [courses.Range]: a signal for every course, stored under
    the user.  A nil course pointer panics at [course.Usems]; what was
    stored before stays. *)
Fixpoint store_usems (userID : string) (entries : list (Z * option loc))
    (n : notifierT) : result unit * notifierT :=
  match entries with
  | [] => (Ok tt, n)
  | (_, None) :: _ =>
      (Panic (PanicMsg "invalid memory address or nil pointer dereference"), n)
  | (_, Some course) :: rest =>
      store_usems userID rest
        (Usems_Store course userID (Usem.init Usem.zero) n)
  end.

(** The [courses.Range] of the deferred function. *)
Fixpoint delete_usems (userID : string) (entries : list (Z * option loc))
    (n : notifierT) : result unit * notifierT :=
  match entries with
  | [] => (Ok tt, n)
  | (_, None) :: _ =>
      (Panic (PanicMsg "invalid memory address or nil pointer dereference"), n)
  | (_, Some course) :: rest =>
      delete_usems userID rest (Usems_Delete course userID n)
  end.

(** What the first statements of [handleConn] leave: the session the
    user had is cancelled, the new one has its place in the registry. *)
Definition registered (userID : string) (newCancel : cancelT) (w : world) : world :=
  set_cancelPool (Store (cancelPool w) userID newCancel)
    (set_trace (match Load (cancelPool w) userID with
                | Some old => [EvCancel old]
                | None => []
                end ++ trace w) w).

Section Routine.
Variables (env : envT) (pgErrUniqueViolation : string).
(** [reportError := makeReportError(ctx, c)] *)
Variable reportError : reportErrorT.
Variable choices : list event -> string -> Hello.choicesT.
(** [populateUserCourseGroups(newCtx, &userCourseGroups, userID)], whose
    declaration is not part of the files embedded here: its error and
    the groups it leaves in the map. *)
Variable populateUserCourseGroups : string -> M (option error * userCourseGroupsT).
(** [errCannotReceiveMessage], declared elsewhere. *)
Variable errCannotReceiveMessage : error.
(** [fmt.Sprintf("%v", err)] *)
Variable sprint : error -> string.

(** The first statements: cancel the session the user already has, then
    take its place in the registry. *)
Definition register (userID : string) (newCancel : cancelT) : M unit :=
  let* pool := get cancelPool in
  match Load pool userID with
  | Some cancel => emit (EvCancel cancel)
  | None => ret tt
  end;;
  fun w => (tt, set_cancelPool (Store (cancelPool w) userID newCancel) w).

(** The first deferred function. *)
Definition unregister (userID : string) (newCancel : cancelT)
    (retErr : option error) : M unit :=
  (fun w =>
     (tt, set_cancelPool (CompareAndDelete (cancelPool w) userID newCancel) w));;
  match retErr with
  | Some err =>
      if errors_Is err Canceled
      then writeText env "E :Context canceled";; ret tt
      else ret tt
  | None => ret tt
  end.

(** The second deferred function. *)
Definition release (userID : string) (entries : list (Z * option loc))
    (n : notifierT) : result unit * notifierT :=
  match delete_usems userID entries n with
  | (Ok _, n) => (Ok tt, AddInt64_usemCount (- Z.of_N (numCourses n)) n)
  | (Panic p, n) => (Panic p, n)
  end.

(** The main loop. *)
Fixpoint serve (arrivals : list arrival) (userID session : string)
    (userCourseGroups : userCourseGroupsT) : M ending :=
  match arrivals with
  | [] => ret Waiting
  | Done err :: _ => ret (Returned (Some (Wrap errContextCancelled err)))
  | Wake courseID :: rest =>
      let* err := sendSelectedUpdate env courseID in
      match err with
      | Some err => ret (Returned (Some (Wrap errCannotSend err)))
      | None => serve rest userID session userCourseGroups
      end
  | ReadFailed err :: _ =>
      ret (Returned (Some (Wrap errCannotReceiveMessage err)))
  | Received b :: rest =>
      match Split.splitMsg b with
      | Panic p => ret (Panicked p)
      | Ok [] => ret (Panicked (IndexOutOfRange 0 0))
      | Ok ((mar0 :: _) as mar) =>
          if String.eqb mar0 "HELLO" then
            let* err :=
              Hello.messageHello env choices reportError mar userID session in
            match err with
            | Some err => ret (Returned (Some err))
            | None => serve rest userID session userCourseGroups
            end
          else if String.eqb mar0 "Y" then
            let* (err, userCourseGroups) :=
              Wsm.messageChooseCourse env pgErrUniqueViolation reportError
                mar userID session userCourseGroups in
            match err with
            | Some err => ret (Returned (Some err))
            | None => serve rest userID session userCourseGroups
            end
          else if String.eqb mar0 "N" then
            let* (err, userCourseGroups) :=
              Wsm.messageUnchooseCourse env reportError
                mar userID session userCourseGroups in
            match err with
            | Some err => ret (Returned (Some err))
            | None => serve rest userID session userCourseGroups
            end
          else
            let* r := on_conn (reportError ("Unknown command " +:+ mar0)) in
            ret (Returned r)
      end
  end.

(** What follows the registration of the second deferred function. *)
Definition body (arrivals : list arrival) (session userID : string) : M ending :=
  let* (err, userCourseGroups) := populateUserCourseGroups userID in
  match err with
  | Some err =>
      let* r :=
        on_conn (reportError
                   ("cannot populate user course groups: " +:+ sprint err)) in
      ret (Returned r)
  | None => serve arrivals userID session userCourseGroups
  end.

(** [handleConn(ctx, c, session, userID)]; [newCancel] is the cancel
    function it makes.  The deferred functions run when the body returns
    or panics, the later one first; a panic of a deferred function
    replaces the ending. *)
Definition handleConn (arrivals : list arrival) (newCancel : cancelT)
    (session userID : string) (n : notifierT) : M (ending * notifierT) :=
  register userID newCancel;;
  let n := AddInt64_usemCount (Z.of_N (numCourses n)) n in
  let* cs := get courses in
  match store_usems userID (map_to_list cs) n with
  | (Panic p, n) =>
      unregister userID newCancel None;;
      ret (Panicked p, n)
  | (Ok _, n) =>
      let* e := body arrivals session userID in
      match e with
      | Waiting => ret (Waiting, n)
      | _ =>
          let retErr := match e with Returned retErr => retErr | _ => None end in
          let* cs := get courses in
          let '(released, n) := release userID (map_to_list cs) n in
          unregister userID newCancel retErr;;
          ret (match released with Panic p => Panicked p | Ok _ => e end, n)
      end
  end.

End Routine.
End Conn.

Definition is_cancel (ev : event) : bool :=
  match ev with EvCancel _ => true | _ => false end.

(** Sample inputs of the connection routine: a user with one choice, no
    group held yet, one course's worth of signals. *)
Definition sample_choices : list event -> string -> Hello.choicesT :=
  fun _ _ => Hello.mkChoices None None ["7"].
Definition sample_populate : string -> M (option error * userCourseGroupsT) :=
  fun _ => ret (None, ∅).
Definition sample_notifier : Conn.notifierT := Conn.mkNotifier 1 0 (fun _ => ∅).

(** A catalogue whose one entry is a nil pointer. *)
Definition nil_world : world :=
  mkWorld 2 {[ 7%Z := None ]} (fun _ => chess) [] true [].

(** * Properties *)

Section SplitFacts.
Import Split.

Example splitMsg_empty : splitMsg [] = Ok [""].
Proof. reflexivity. Qed.

Example splitMsg_trailing :
  splitMsg (frame "SQUISH POP :cat purr!!") = Ok ["SQUISH"; "POP"; "cat purr!!"].
Proof. reflexivity. Qed.

Example splitMsg_Y : splitMsg (frame "Y 12") = Ok ["Y"; "12"].
Proof. reflexivity. Qed.

End SplitFacts.

Section SplitTotality.
Import Split.

Lemma at_index_next b i c todo :
  at_index b i (c :: todo) -> at_index b (S i) todo.
Proof.
  unfold at_index. intros H.
  rewrite <- (Nat.add_1_r i), <- drop_drop, H. reflexivity.
Qed.

Lemma at_index_peek b i c todo :
  at_index b i (c :: todo) -> b !! (i + 1)%nat = head todo.
Proof.
  intros H. apply at_index_next in H. unfold at_index in H.
  rewrite Nat.add_1_r, <- (Nat.add_0_r (S i)), <- lookup_drop, H.
  now destruct todo.
Qed.

(** Without a final space the loop runs to its end or leaves through the
    trailing-argument exit. *)
Lemma splitMsg_loop_total b todo :
  last todo <> Some SPACE ->
  forall i mar elem, at_index b i todo ->
    exists fields, splitMsg_loop b i todo mar elem = Ok fields.
Proof.
  induction todo as [|c todo IH]; intros Hlast i mar elem Hat.
  - simpl. eauto.
  - cbn [splitMsg_loop].
    pose proof (at_index_peek _ _ _ _ Hat) as Hpeek.
    pose proof (at_index_next _ _ _ _ Hat) as Hnext.
    destruct (Byte.eqb c SPACE) eqn:Hc.
    + rewrite Hpeek. destruct todo as [|c1 todo1].
      * apply Byte.byte_dec_bl in Hc. subst c. now contradiction Hlast.
      * cbn [head]. destruct (Byte.eqb c1 COLON); [eauto |].
        now apply IH.
    + destruct todo as [|c1 todo1]; [simpl; eauto |].
      now apply IH.
Qed.

Lemma splitMsg_total_without_final_space b :
  last b <> Some SPACE -> exists fields, splitMsg b = Ok fields.
Proof. intros H. now apply splitMsg_loop_total. Qed.

(** A final space that no trailing argument precedes is read past the end
    of the frame. *)
Lemma splitMsg_loop_final_space b todo :
  Forall (fun c => Byte.eqb c SPACE = false) todo ->
  forall i mar elem, at_index b i (todo ++ [SPACE]) ->
    splitMsg_loop b i (todo ++ [SPACE]) mar elem
    = Panic (IndexOutOfRange (i + length todo + 1) (length b)).
Proof.
  induction 1 as [|c todo Hc _ IH]; intros i mar elem Hat.
  - cbn [app splitMsg_loop length].
    rewrite (at_index_peek _ _ _ _ Hat). cbn [head].
    replace (Byte.eqb SPACE SPACE) with true by reflexivity.
    now rewrite Nat.add_0_r.
  - cbn [app splitMsg_loop length]. rewrite Hc.
    rewrite IH by (eapply at_index_next; exact Hat).
    do 2 f_equal. lia.
Qed.

Lemma splitMsg_final_space_panics word :
  Forall (fun c => Byte.eqb c SPACE = false) word ->
  splitMsg (word ++ [SPACE])
  = Panic (IndexOutOfRange (length word + 1) (length word + 1)).
Proof.
  intros H. unfold splitMsg.
  rewrite splitMsg_loop_final_space by (assumption || reflexivity).
  now rewrite length_app, Nat.add_0_l.
Qed.

(** C10 (the claim: [splitMsg] returns a field list for every frame, also
    for one whose final byte is a space).  On the two-byte frame [Y ] the
    loop reaches the space at index 1 and reads index 2 of a slice of
    length 2: the run ends in an index-out-of-range panic and no field
    list is returned. *)
Theorem splitMsg_space_at_end_panics :
  splitMsg (frame "Y ") = Panic (IndexOutOfRange 2 2)
  /\ is_Ok (splitMsg (frame "Y ")) = false
  /\ splitMsg (frame " ") = Panic (IndexOutOfRange 1 1).
Proof. repeat split; reflexivity. Qed.

End SplitTotality.

Section UsemFacts.
Import Usem.

Lemma init_initialized s : initialized (init s).
Proof. exists (mkChan 1 0). simpl. auto. Qed.

(** [set()] takes the default branch whenever the send is not ready, so
    it proceeds in every state, also on the nil channel of a zero value. *)
Lemma set_never_blocks s : exists s', set s = Proceeds s'.
Proof. unfold set. destruct (chan_send (_ch s)); eauto. Qed.

(** One [set()] on an initialized signal leaves the slot marked. *)
Lemma set_marks s :
  initialized s ->
  exists s', set s = Proceeds s' /\ initialized s' /\ pending s' = 1%nat.
Proof.
  intros (c & Hch & Hcap & Hbuf). unfold set, chan_send, pending. rewrite Hch.
  destruct c as [k b]; simpl in *; subst k.
  destruct b as [|[|b]]; simpl; [| |lia].
  - eexists; split; [reflexivity|]. split; [|reflexivity].
    exists (mkChan 1 1). simpl. auto.
  - eexists; split; [reflexivity|]. simpl. rewrite Hch. split; [|reflexivity].
    exists (mkChan 1 1). simpl. auto.
Qed.

Lemma wait_preserves_initialized s s' :
  initialized s -> wait s = Proceeds s' -> initialized s'.
Proof.
  intros (c & Hch & Hcap & Hbuf). unfold wait, chan_recv. rewrite Hch.
  destruct (buffered c) eqn:Hb; [discriminate|].
  intros [= <-]. eexists; split; [reflexivity|]. simpl. split; [assumption | lia].
Qed.

(** A marked slot is taken by one receive; the next receive finds it
    empty. *)
Lemma wait_takes_the_wake s :
  initialized s -> pending s = 1%nat ->
  exists s', wait s = Proceeds s' /\ pending s' = 0%nat /\ wait s' = WouldBlock.
Proof.
  intros (c & Hch & Hcap & Hbuf). unfold pending, wait, chan_recv.
  rewrite Hch. intros ->. eexists; split; [reflexivity|]. simpl. auto.
Qed.

(** C9: on an initialized signal every [set()] proceeds (none parks the
    caller), and after [n >= 1] consecutive [set()] calls with no receive
    in between exactly one wake is pending: one receive takes it and a
    second receive finds nothing. *)
Theorem set_coalesces (s : usemT) (n : nat) :
  initialized s -> (1 <= n)%nat ->
  exists s',
    set_n n s = Proceeds s' /\ initialized s' /\ pending s' = 1%nat /\
    exists s'', wait s' = Proceeds s'' /\ pending s'' = 0%nat
                /\ wait s'' = WouldBlock.
Proof.
  intros Hinit Hn. destruct n as [|n]; [lia|]. clear Hn.
  revert s Hinit. induction n as [|n IH]; intros s Hinit.
  - destruct (set_marks s Hinit) as (s' & Hset & Hi & Hp).
    exists s'. simpl. rewrite Hset. repeat split; try assumption.
    now apply wait_takes_the_wake.
  - destruct (set_marks s Hinit) as (s1 & Hset & Hi & _).
    destruct (IH s1 Hi) as (s' & Hn & Hrest).
    exists s'. split; [|exact Hrest].
    change (set_n (S (S n)) s) with
      (match set s with Proceeds s0 => set_n (S n) s0 | WouldBlock => WouldBlock end).
    now rewrite Hset.
Qed.

Lemma set_coalesces_witness :
  initialized (init zero) /\ (1 <= 3)%nat /\
  exists s',
    set_n 3 (init zero) = Proceeds s' /\ initialized s' /\ pending s' = 1%nat /\
    exists s'', wait s' = Proceeds s'' /\ pending s'' = 0%nat
                /\ wait s'' = WouldBlock.
Proof.
  split; [apply init_initialized|]. split; [lia|].
  apply (set_coalesces (init zero) 3); [apply init_initialized | lia].
Defined.

End UsemFacts.

(** ** The state-passing layer *)

Ltac run_M :=
  unfold bind, ret, get, emit, call, writeText, ctx_Done, on_conn; cbn.

Ltac world_simpl :=
  cbn [trace heap courses state cancelPool PropagateImmediate
       set_trace set_heap set_state].

Lemma bind_get {A B} (f : world -> A) (k : A -> M B) w :
  bind (get f) k w = k (f w) w.
Proof. reflexivity. Qed.

Lemma bind_call {B} env ev (k : option error -> M B) w :
  bind (call env ev) k w
  = k (io_err env (ev :: trace w)) (set_trace (ev :: trace w) w).
Proof. reflexivity. Qed.

Lemma bind_now {B} env (k : Z -> M B) w :
  bind (now_UnixMicro env) k w = k (io_int env (trace w)) w.
Proof. reflexivity. Qed.

Lemma bind_exec_delete {B} env userID courseID (k : Z * option error -> M B) w :
  bind (Wsm.exec_delete env userID courseID) k w
  = let t := EvDeleteChoice userID courseID :: trace w in
    k (io_int env t, io_err env t) (set_trace t w).
Proof. reflexivity. Qed.

Lemma bind_assoc {A B C} (m : M A) (k : A -> M B) (k' : B -> M C) w :
  bind (bind m k) k' w = bind m (fun a => bind (k a) k') w.
Proof. unfold bind. now destruct (m w). Qed.

Lemma mode_closed w : state w <> 2%N -> negb (state w =? 2)%N = true.
Proof. intros H. apply negb_true_iff, N.eqb_neq, H. Qed.

Lemma mode_open w : state w = 2%N -> negb (state w =? 2)%N = false.
Proof. intros ->. reflexivity. Qed.

(** ** Mode gating *)

Section Gate.
Variables (env : envT) (pgErrUniqueViolation : string) (reportError : reportErrorT).
Variables (mar : list string) (userID session : string) (w : world).
Hypothesis Hmode : state w <> 2%N.

Let reply : event := EvWriteText "E :Course selections are not open".
Let returned : option error :=
  match io_err env (reply :: trace w) with
  | Some err => Some (Wrap errCannotSend err)
  | None => None
  end.

Lemma choose_gate ucg :
  Wsm.messageChooseCourse env pgErrUniqueViolation reportError mar userID session ucg w
  = ((returned, ucg), set_trace (reply :: trace w) w).
Proof.
  unfold Wsm.messageChooseCourse. rewrite bind_get, (mode_closed _ Hmode).
  subst returned reply. run_M. now destruct (io_err env _).
Qed.

Lemma unchoose_gate ucg :
  Wsm.messageUnchooseCourse env reportError mar userID session ucg w
  = ((returned, ucg), set_trace (reply :: trace w) w).
Proof.
  unfold Wsm.messageUnchooseCourse. rewrite bind_get, (mode_closed _ Hmode).
  subst returned reply. run_M. now destruct (io_err env _).
Qed.

Lemma chooseY_gate b :
  WsmY.messageChooseCourse env pgErrUniqueViolation mar userID b w
  = ((returned, b), set_trace (reply :: trace w) w).
Proof.
  unfold WsmY.messageChooseCourse. rewrite bind_get, (mode_closed _ Hmode).
  subst returned reply. run_M. now destruct (io_err env _).
Qed.

End Gate.

(** C2: while the mode is not 2 the handlers of Y and of N do one thing,
    whatever the frame: they write [E :Course selections are not open].
    The world after the call is the world before it with that one write
    added to the trace (no database call, no lock, no counter changed, the
    catalogue and the mode as they were), the group and type bookkeeping is
    returned as it was handed in, and the result is nil unless the write
    failed. *)
Theorem mode_gate env pgErrUniqueViolation reportError mar userID session
    (ucg : userCourseGroupsT) (b : WsmY.bookkeeping) w :
  state w <> 2%N ->
  let reply := EvWriteText "E :Course selections are not open" in
  let w' := set_trace (reply :: trace w) w in
  let returned := match io_err env (reply :: trace w) with
                  | Some err => Some (Wrap errCannotSend err)
                  | None => None
                  end in
  Wsm.messageChooseCourse env pgErrUniqueViolation reportError mar userID session ucg w
    = ((returned, ucg), w') /\
  Wsm.messageUnchooseCourse env reportError mar userID session ucg w
    = ((returned, ucg), w') /\
  WsmY.messageChooseCourse env pgErrUniqueViolation mar userID b w
    = ((returned, b), w') /\
  heap w' = heap w /\ courses w' = courses w /\ state w' = state w.
Proof.
  intros Hmode. cbn zeta.
  rewrite choose_gate, unchoose_gate, chooseY_gate by assumption.
  repeat split.
Qed.

Lemma mode_gate_witness :
  let w := sample_world 1 in
  let reply := EvWriteText "E :Course selections are not open" in
  let w' := set_trace [reply] w in
  Wsm.messageChooseCourse env_ok sample_unique_violation (makeReportError env_ok)
    ["Y"; "7"] "alice" "cookie" ∅ w = ((None, ∅), w') /\
  Wsm.messageUnchooseCourse env_ok (makeReportError env_ok)
    ["N"; "7"] "alice" "cookie" ∅ w = ((None, ∅), w') /\
  WsmY.messageChooseCourse env_ok sample_unique_violation
    ["Y"; "7"] "alice" (WsmY.mkBook ∅ ∅) w = ((None, WsmY.mkBook ∅ ∅), w') /\
  heap w' = heap w /\ courses w' = courses w /\ state w' = state w.
Proof.
  apply (mode_gate env_ok sample_unique_violation (makeReportError env_ok)
           ["Y"; "7"] "alice" "cookie" ∅ (WsmY.mkBook ∅ ∅) (sample_world 1)).
  simpl. discriminate.
Defined.

(** ** The mode controller *)

Section ModeController.
Import State.

(** The callback of [setState] returns false, so [Range] stops after the
    first entry it visits. *)
Lemma Range_stops {K V} (pool : list (K * V)) (g : V -> event) w :
  Range pool (fun _ v => emit (g v);; ret false) w
  = (tt, set_trace (match pool with [] => [] | (_, v) :: _ => [g v] end ++ trace w) w).
Proof.
  destruct pool as [|[k v] rest]; simpl.
  - now destruct w.
  - reflexivity.
Qed.

Lemma setState_valid env newState w :
  (newState <= 2)%N ->
  setState env newState w =
    let t := EvUpdateState newState :: announced newState w ++ trace w in
    match io_err env t with
    | Some e => (Some (wrapError errUnexpectedDBError e), set_trace t w)
    | None => (None, set_trace (EvStoreState newState :: t) (set_state newState w))
    end.
Proof.
  intros Hle.
  assert (newState = 0 \/ newState = 1 \/ newState = 2)%N as [-> | [-> | ->]] by lia.
  - unfold setState. unfold bind at 1 2 3. unfold get.
    rewrite Range_stops. unfold saveStateValue. run_M.
    destruct (io_err env _); reflexivity.
  - unfold setState, saveStateValue, propagate. run_M.
    destruct (io_err env _); reflexivity.
  - unfold setState, saveStateValue, propagate. run_M.
    destruct (io_err env _); reflexivity.
Qed.

Lemma setState_invalid env newState w :
  (3 <= newState)%N -> setState env newState w = (Some errInvalidState, w).
Proof.
  intros H. destruct newState as [|[[p|p|]|[p|p|]|]]; try lia; reflexivity.
Qed.

Lemma announced_no_store newState w n :
  (EvStoreState n ∉ announced newState w) /\ (EvUpdateState n ∉ announced newState w).
Proof.
  unfold announced.
  destruct newState as [|[[p|p|]|[p|p|]|]]; try destruct (cancelPool w) as [|[]];
    split; intros Hin;
    repeat (apply elem_of_cons in Hin as [Hin|Hin]; [discriminate|]);
    inversion Hin.
Qed.

(** C7: [setState] saves the new mode before it stores it in the
    process-wide cell.  For a mode outside 0..2 nothing is done at all.
    Otherwise the UPDATE is issued after the announcement [pre] (which
    contains neither a save nor a store): when it fails, [setState]
    returns that error (wrapped as an unexpected database error), the cell
    keeps its value and no store is in the trace; when it succeeds, the
    store follows the UPDATE and the cell holds the new mode. *)
Theorem setState_persists_first env newState w :
  let returned := (setState env newState w).1 in
  let w' := (setState env newState w).2 in
  (returned = Some errInvalidState /\ w' = w /\ (3 <= newState)%N) \/
  exists pre,
    let t := EvUpdateState newState :: pre ++ trace w in
    (newState <= 2)%N /\
    (forall n, (EvStoreState n ∉ pre) /\ (EvUpdateState n ∉ pre)) /\
    match io_err env t with
    | Some e =>
        returned = Some (wrapError errUnexpectedDBError e) /\
        state w' = state w /\ trace w' = t
    | None =>
        returned = None /\ state w' = newState /\
        trace w' = EvStoreState newState :: t
    end.
Proof.
  destruct (decide (newState <= 2)%N) as [Hle|Hgt].
  - right. exists (announced newState w). cbn zeta.
    rewrite (setState_valid _ _ _ Hle). cbn zeta.
    split; [assumption|]. split; [apply announced_no_store|].
    destruct (io_err env _); auto.
  - left. rewrite setState_invalid by lia. repeat split. lia.
Qed.

(** On the way to mode 0 at most one cancel handle is invoked: the one of
    the first registry entry [Range] visits. *)
Lemma setState_closed_cancels env w :
  cancelled (trace (setState env 0 w).2)
  = cancelled (trace w) ++ take 1 (map snd (cancelPool w)).
Proof.
  rewrite setState_valid by lia. cbn zeta. unfold announced, cancelled.
  destruct (cancelPool w) as [|[user cancel] rest];
    destruct (io_err env _); cbn; rewrite ?app_nil_r; reflexivity.
Qed.

(** C5 (the claim: on the transition to mode 0 every registered session's
    cancel handle is invoked).  With two sessions in the registry,
    [setState(ctx, 0)] invokes the handle of the first entry the walk
    visits and no other: the callback handed to [Range] returns false,
    which ends the walk.  The mode is saved and stored all the same. *)
Theorem setState_closed_cancels_one_session :
  let w := sample_world 2 in
  let w' := (setState env_ok 0 w).2 in
  map snd (cancelPool w) = [1%nat; 2%nat] /\
  cancelled (trace w') = [1%nat] /\
  (EvCancel 2 ∉ trace w') /\
  (setState env_ok 0 w).1 = None /\ state w' = 0%N.
Proof.
  cbn zeta. repeat split; try reflexivity.
  vm_compute. intros Hin.
  repeat (apply elem_of_cons in Hin as [Hin|Hin]; [discriminate|]).
  inversion Hin.
Qed.

End ModeController.

(** ** The WebSocket endpoint *)

Section Endpoint.
Import Ws.

(** After a failed session query (no row, or another error) [handleWs]
    writes its one-frame answer and then goes on into [handleConn], with
    the cookie as the session and the zero value as the user id. *)
Lemma handleWs_failed_query env req cookie e w :
  io_err env (EvAccept :: trace w) = None ->
  Cookie req "session" = (cookie, None) ->
  io_err env (EvQuerySession cookie :: EvAccept :: trace w) = Some e ->
  let answer := if errors_Is e ErrNoRows then "U" else "E :Database error" in
  exists newer,
    trace (handleWs env req w).2
    = newer ++ EvHandleConn cookie "" :: EvWriteText answer
        :: EvQuerySession cookie :: EvAccept :: trace w.
Proof.
  intros Haccept Hcookie Hquery answer. subst answer.
  unfold handleWs. rewrite bind_call, Haccept, Hcookie.
  unfold query_session, handleConn, c_Write. run_M. rewrite Hquery.
  destruct (errors_Is e ErrNoRows); cbn;
    match goal with
    | |- context [match io_err env ?t with _ => _ end] =>
        destruct (io_err env t) as [err|]
    end; cbn;
    [ exists [EvCloseNow; EvLog err] | exists [EvCloseNow]
    | exists [EvCloseNow; EvLog err] | exists [EvCloseNow] ]; reflexivity.
Qed.

(** C6 (the claim: for a cookie that matches no session row, and likewise
    on a database error, [handleWs] sends its frame and closes without
    entering [handleConn]).  For the cookie [stale] and a query that ends
    in [pgx.ErrNoRows], the run is: accept, query, the frame [U], the call
    of [handleConn] with session [stale] and user id the empty string,
    close.  With a query that ends in another error the frame is
    [E :Database error] and [handleConn] is entered in the same way.  The
    two branches write their frame and do not return, unlike the branches
    of the cookie lookup above them. *)
Theorem handleWs_unknown_cookie_enters_handleConn :
  let req := mkRequest (fun _ => ("stale", None)) in
  rev (trace (handleWs (env_failing is_query ErrNoRows) req (sample_world 2)).2)
  = [EvAccept; EvQuerySession "stale"; EvWriteText "U";
     EvHandleConn "stale" ""; EvCloseNow] /\
  rev (trace (handleWs (env_failing is_query (errorString "connection refused")) req
                (sample_world 2)).2)
  = [EvAccept; EvQuerySession "stale"; EvWriteText "E :Database error";
     EvHandleConn "stale" ""; EvCloseNow].
Proof. split; reflexivity. Qed.

(** A request without the cookie is answered with [U] and not handed to
    [handleConn]: the branch returns. *)
Lemma handleWs_no_cookie env req w :
  io_err env (EvAccept :: trace w) = None ->
  Cookie req "session" = ("", Some ErrNoCookie) ->
  trace (handleWs env req w).2
  = EvCloseNow :: EvWriteText "U" :: EvAccept :: trace w.
Proof.
  intros Haccept Hcookie. unfold handleWs.
  rewrite bind_call, Haccept, Hcookie. reflexivity.
Qed.

End Endpoint.

(** ** Logged runs *)

Lemma logged_app h d1 h1 d2 h2 :
  logged h d1 h1 -> logged h1 d2 h2 -> logged h (d2 ++ d1) h2.
Proof.
  intros H1 H2. induction H2; simpl.
  - assumption.
  - apply logged_other; auto.
  - apply logged_increment; auto.
  - apply logged_decrement; auto.
Qed.

Lemma logged_conn h (evs : list connEvent) : logged h (map EvConn evs) h.
Proof.
  induction evs as [|ev evs IH]; simpl; [apply logged_nil|].
  now apply logged_other.
Qed.

Lemma uint32_add_le a b : (uint32_add a b <= a + b)%N.
Proof. unfold uint32_add. apply N.Div0.mod_le. Qed.

(** A logged run keeps every counter within its capacity. *)
Lemma logged_capacity h delta h' :
  logged h delta h' -> capacity_inv h -> capacity_inv h'.
Proof.
  induction 1 as [h|h delta h' ev _ IH _|h delta h' l _ IH Hlt|h delta h' l _ IH Hnz];
    intros Hinv; try (apply IH in Hinv); try assumption.
  - intros l'. unfold heap_update. destruct (decide (l' = l)) as [->|_]; [|apply Hinv].
    cbn. pose proof (uint32_add_le (Selected (h' l)) 1). lia.
  - intros l'. unfold heap_update. destruct (decide (l' = l)) as [->|_]; [|apply Hinv].
    cbn. specialize (Hinv l). lia.
Qed.

Lemma logged_increments h delta h' :
  logged h delta h' -> increments_in_critical_section h delta.
Proof.
  induction 1 as [h|h delta h' ev Hlog IH Hev|h delta h' l0 Hlog IH Hlt
                 |h delta h' l0 Hlog IH Hnz];
    intros newer older l Heq.
  - now destruct newer.
  - destruct newer as [|ev' newer]; simplify_eq/=.
    destruct (IH _ _ _ eq_refl) as (n' & o' & h1 & -> & -> & ? & ?).
    exists (ev' :: n'), o', h1. auto.
  - destruct newer as [|e1 [|e2 [|e3 newer]]]; simplify_eq/=.
    + exists [], delta, h'. auto.
    + destruct (IH _ _ _ eq_refl) as (n' & o' & h1 & -> & -> & ? & ?).
      exists (EvUnlock l0 :: EvAddSelected l0 1 :: EvLock l0 :: n'), o', h1. auto.
  - destruct newer as [|e1 [|e2 [|e3 newer]]]; simplify_eq/=.
    destruct (IH _ _ _ eq_refl) as (n' & o' & h1 & -> & -> & ? & ?).
    exists (EvUnlock l0 :: EvAddSelected l0 (-1) :: EvLock l0 :: n'), o', h1. auto.
Qed.

Section Runs.
Variable env : envT.

Lemma runs_ret {A} (a : A) : runs (ret a).
Proof. intros w. exists []. split; [reflexivity | apply logged_nil]. Qed.

Lemma runs_bind {A B} (m : M A) (k : A -> M B) :
  runs m -> (forall a, runs (k a)) -> runs (bind m k).
Proof.
  intros Hm Hk w. unfold bind.
  destruct (Hm w) as (d1 & Ht1 & Hl1). destruct (m w) as [a w1]. simpl in *.
  destruct (Hk a w1) as (d2 & Ht2 & Hl2).
  exists (d2 ++ d1). split.
  - now rewrite Ht2, Ht1, app_assoc.
  - eapply logged_app; eassumption.
Qed.

Lemma runs_ext {A} (m m' : M A) : (forall w, m w = m' w) -> runs m -> runs m'.
Proof. intros Heq Hm w. rewrite <- Heq. apply Hm. Qed.

Lemma runs_get {A} (f : world -> A) : runs (get f).
Proof. intros w. exists []. split; [reflexivity | apply logged_nil]. Qed.

Lemma runs_emit ev : is_Selected_update ev = false -> runs (emit ev).
Proof.
  intros Hev w. exists [ev]. split; [reflexivity|].
  apply logged_other; [apply logged_nil | assumption].
Qed.

Lemma runs_call ev : is_Selected_update ev = false -> runs (call env ev).
Proof.
  intros Hev w. exists [ev]. split; [reflexivity|].
  apply logged_other; [apply logged_nil | assumption].
Qed.

Lemma runs_writeText s : runs (writeText env s).
Proof. apply runs_call. reflexivity. Qed.

Lemma runs_now : runs (now_UnixMicro env).
Proof. intros w. exists []. split; [reflexivity | apply logged_nil]. Qed.

Lemma runs_on_conn {A} (f : connM A) : runs (on_conn f).
Proof.
  intros w. unfold on_conn. destruct (f (trace w)) as [a evs]. simpl.
  exists (map EvConn evs). split; [reflexivity | apply logged_conn].
Qed.

Lemma runs_exec_delete userID courseID : runs (Wsm.exec_delete env userID courseID).
Proof.
  intros w. exists [EvDeleteChoice userID courseID]. split; [reflexivity|].
  apply logged_other; [apply logged_nil | reflexivity].
Qed.

(** The admission critical section is one logged increment, or none. *)
Lemma runs_admission l : runs (Wsm.admission l).
Proof.
  intros w. unfold Wsm.admission. run_M.
  destruct (Selected (heap w l) <? Max (heap w l))%N eqn:Hlt; cbn.
  - exists [EvUnlock l; EvAddSelected l 1; EvLock l]. split; [reflexivity|].
    apply (logged_increment _ [] _ l); [apply logged_nil | now apply N.ltb_lt].
  - exists [EvUnlock l; EvLock l]. split; [reflexivity|].
    repeat (apply logged_other; [|reflexivity]). apply logged_nil.
Qed.

Lemma runs_locked_decrement l :
  runs (emit (EvLock l);; decrement_Selected l;; emit (EvUnlock l)).
Proof.
  intros w. unfold decrement_Selected. run_M.
  destruct (bool_decide (Selected (heap w l) = 0%N)) eqn:Hz; cbn.
  - exists [EvUnlock l; EvLock l]. split; [reflexivity|].
    repeat (apply logged_other; [|reflexivity]). apply logged_nil.
  - exists [EvUnlock l; EvAddSelected l (-1); EvLock l]. split; [reflexivity|].
    apply (logged_decrement _ [] _ l); [apply logged_nil |].
    now apply bool_decide_eq_false in Hz.
Qed.

Ltac runs_step :=
  first
    [ apply runs_ret | apply runs_get | apply runs_now | apply runs_on_conn
    | apply runs_writeText | apply runs_exec_delete | apply runs_admission
    | apply runs_emit; reflexivity
    | apply runs_call; reflexivity
    | apply runs_bind; [|intros ?]
    | match goal with
      | |- runs (match ?x with _ => _ end) => destruct x
      end ].

Lemma runs_sendSelectedUpdate courseID : runs (sendSelectedUpdate env courseID).
Proof. unfold sendSelectedUpdate. repeat runs_step. Qed.

Lemma runs_decrementSelectedAndPropagate l :
  runs (decrementSelectedAndPropagate env l).
Proof.
  unfold decrementSelectedAndPropagate.
  apply (runs_ext
    (bind (emit (EvLock l);; decrement_Selected l;; emit (EvUnlock l))
       (fun _ => emit (EvGoPropagateSelectedUpdate l);;
                 let* h := get heap in sendSelectedUpdate env (ID (h l))))).
  { intros w. unfold bind.
    destruct (emit (EvLock l) w) as [? w1].
    destruct (decrement_Selected l w1) as [? w2]. reflexivity. }
  apply runs_bind; [apply runs_locked_decrement|intros _].
  repeat (apply runs_sendSelectedUpdate || runs_step).
Qed.

Ltac runs_tac :=
  repeat first
    [ apply runs_sendSelectedUpdate
    | apply runs_decrementSelectedAndPropagate
    | runs_step ].

Variable pgErrUniqueViolation : string.
Variable reportError : reportErrorT.

Lemma runs_messageChooseCourse mar userID session ucg :
  runs (Wsm.messageChooseCourse env pgErrUniqueViolation reportError
          mar userID session ucg).
Proof.
  unfold Wsm.messageChooseCourse, Wsm.chooseCourse_closure, Wsm.chooseCourse_tx,
    Wsm.report, ctx_Done.
  runs_tac.
Qed.

Lemma runs_messageUnchooseCourse mar userID session ucg :
  runs (Wsm.messageUnchooseCourse env reportError mar userID session ucg).
Proof.
  unfold Wsm.messageUnchooseCourse, Wsm.unchoose_removed, Wsm.report, ctx_Done.
  runs_tac.
Qed.


(** What a logged run gives from a state within capacity. *)
Lemma runs_capacity {A} (m : M A) w :
  runs m -> capacity_inv (heap w) ->
  capacity_inv (heap (m w).2) /\
  exists delta,
    trace (m w).2 = delta ++ trace w /\
    logged (heap w) delta (heap (m w).2) /\
    increments_in_critical_section (heap w) delta.
Proof.
  intros Hruns Hinv. destruct (Hruns w) as (delta & Htrace & Hlog).
  split; [eapply logged_capacity; eassumption|].
  exists delta. repeat split; [assumption..|].
  eapply logged_increments; eassumption.
Qed.

End Runs.


Lemma sample_world_capacity mode : capacity_inv (heap (sample_world mode)).
Proof. intros l. simpl. lia. Defined.


(** The full-course race of the specification, one session after the
    other: the first Y takes the seat, the second is told [Full] and the
    counter stays at the capacity. *)
Example full_course_declines :
  let choose user w :=
    WsmY.messageChooseCourse env_ok sample_unique_violation
      ["Y"; "7"] user (WsmY.mkBook ∅ ∅) w in
  let w1 := (choose "alice" (sample_world 2)).2 in
  let w2 := (choose "bob" w1).2 in
  Selected (heap w1 0%nat) = 1%N /\ Selected (heap w2 0%nat) = 1%N /\
  head (trace w2) = Some EvRollback /\
  (EvWriteText "R 7 :Full" ∈ trace w2).
Proof.
  cbn zeta. repeat split; try reflexivity.
  vm_compute. do 2 constructor.
Qed.

(** ** Runs that do not issue a given call *)

Section Silent.
Variable p : event -> bool.
Variable env : envT.

Lemma silent_ret {A} (a : A) : silent p (ret a).
Proof. intros w. exists []. split; [reflexivity | constructor]. Qed.

Lemma silent_bind {A B} (m : M A) (k : A -> M B) :
  silent p m -> (forall a, silent p (k a)) -> silent p (bind m k).
Proof.
  intros Hm Hk w. unfold bind.
  destruct (Hm w) as (d1 & Ht1 & Hl1). destruct (m w) as [a w1]. simpl in *.
  destruct (Hk a w1) as (d2 & Ht2 & Hl2).
  exists (d2 ++ d1). split.
  - now rewrite Ht2, Ht1, app_assoc.
  - now apply Forall_app.
Qed.

Lemma silent_get {A} (f : world -> A) : silent p (get f).
Proof. intros w. exists []. split; [reflexivity | constructor]. Qed.

Lemma silent_now : silent p (now_UnixMicro env).
Proof. intros w. exists []. split; [reflexivity | constructor]. Qed.

Lemma silent_emit ev : p ev = false -> silent p (emit ev).
Proof.
  intros Hev w. exists [ev]. split; [reflexivity | repeat constructor; assumption].
Qed.

Lemma silent_call ev : p ev = false -> silent p (call env ev).
Proof.
  intros Hev w. exists [ev]. split; [reflexivity | repeat constructor; assumption].
Qed.

Lemma silent_on_conn {A} (f : connM A) :
  (forall c, p (EvConn c) = false) -> silent p (on_conn f).
Proof.
  intros Hp w. unfold on_conn. destruct (f (trace w)) as [a evs]. simpl.
  exists (map EvConn evs). split; [reflexivity|].
  induction evs as [|c evs IH]; simpl; constructor; [apply Hp | exact IH].
Qed.

Lemma silent_AddUint32_Selected l :
  p (EvAddSelected l 1) = false -> silent p (AddUint32_Selected l).
Proof.
  intros Hp w. exists [EvAddSelected l 1].
  split; [reflexivity | repeat constructor; apply Hp].
Qed.

Lemma silent_decrement_Selected l :
  p (EvAddSelected l (-1)) = false -> silent p (decrement_Selected l).
Proof.
  intros Hp w. unfold decrement_Selected. destruct (bool_decide _).
  - exists []. split; [reflexivity | constructor].
  - exists [EvAddSelected l (-1)].
    split; [reflexivity | repeat constructor; apply Hp].
Qed.

(** A silent run from a state whose trace is [pre ++ base], [pre] silent
    too, leaves no selected event above [base]. *)
Lemma silent_absurd {A} (m : M A) w pre base newer ev older :
  silent p m -> trace w = pre ++ base ->
  Forall (fun ev => p ev = false) pre ->
  p ev = true ->
  trace (m w).2 = newer ++ ev :: older ++ base -> False.
Proof.
  intros Hm Hw Hpre Hev Htrace. destruct (Hm w) as (delta & Hd & Hsilent).
  rewrite Hd, Hw, app_assoc in Htrace.
  change (newer ++ ev :: older ++ base)
    with (newer ++ (ev :: older) ++ base) in Htrace.
  rewrite (app_assoc newer) in Htrace. apply app_inv_tail in Htrace.
  assert (Hall : Forall (fun ev => p ev = false) (newer ++ ev :: older)).
  { rewrite <- Htrace. now apply Forall_app. }
  apply Forall_app in Hall as [_ Hall]. inversion Hall; congruence.
Qed.

(** In a list with one selected event, the event and what surrounds it
    are determined. *)
Lemma split_at_selected X a Y X' a' Y' :
  Forall (fun ev => p ev = false) X -> Forall (fun ev => p ev = false) Y ->
  p a' = true ->
  X ++ a :: Y = X' ++ a' :: Y' -> X' = X /\ a' = a /\ Y' = Y.
Proof.
  intros HX HY Ha'. revert X'. induction HX as [|x X Hx HX IH]; intros X' Heq.
  - destruct X' as [|x' X']; simplify_eq/=; [auto|].
    apply Forall_app in HY as [_ HY]. inversion HY; congruence.
  - destruct X' as [|x' X']; simplify_eq/=; [congruence|].
    match goal with H : _ ++ _ :: _ = _ ++ _ :: _ |- _ =>
      destruct (IH _ H) as (-> & -> & ->) end.
    auto.
Qed.

(** The same with a common base below both lists. *)
Lemma split_above_base X a Y X' a' Y' base :
  Forall (fun ev => p ev = false) X -> Forall (fun ev => p ev = false) Y ->
  p a' = true ->
  X ++ a :: Y ++ base = X' ++ a' :: Y' ++ base -> X' = X /\ a' = a /\ Y' = Y.
Proof.
  intros HX HY Ha' Heq.
  change (X ++ (a :: Y) ++ base = X' ++ (a' :: Y') ++ base) in Heq.
  rewrite 2!app_assoc in Heq. apply app_inv_tail in Heq.
  eapply split_at_selected; eassumption.
Qed.

End Silent.

Ltac silent_step :=
  first
    [ apply silent_ret | apply silent_get | apply silent_now
    | apply silent_on_conn; intros ?; reflexivity
    | apply silent_AddUint32_Selected; reflexivity
    | apply silent_decrement_Selected; reflexivity
    | apply silent_emit; reflexivity
    | apply silent_call; reflexivity
    | apply silent_bind; [|intros ?]
    | match goal with
      | |- silent _ (match ?x with _ => _ end) => destruct x
      end ].

Ltac silent_tac :=
  unfold Wsm.report, Wsm.admission, Wsm.unchoose_removed, sendSelectedUpdate,
    decrementSelectedAndPropagate, writeText, ctx_Done;
  repeat silent_step.

(** A branch that returns before the call [p] is about. *)
Ltac early_exit p pre :=
  solve [ let H := fresh in
          intros H; exfalso; revert H;
          apply (silent_absurd p _ _ pre);
          [silent_tac | reflexivity | repeat constructor | reflexivity] ].

(** ** Re-affirming a held course *)

Section Reaffirm.
Variables (env : envT) (pgErrUniqueViolation : string) (reportError : reportErrorT).
Variables (verb mar1 userID session : string) (w : world).
Variables (courseID : Z) (course : loc) (e : error).
Hypothesis Hmode : state w = 2%N.
Hypothesis Hctx : io_err env (EvCtxDone :: trace w) = None.
Hypothesis Hid : Strconv.ParseInt mar1 = Some courseID.
Hypothesis Hcourse : courses w !! courseID = Some (Some course).
Hypothesis Hbegin : io_err env (EvBegin :: EvCtxDone :: trace w) = None.

Let t3 : list event :=
  EvInsertChoice (io_int env (EvBegin :: EvCtxDone :: trace w)) userID courseID
    :: EvBegin :: EvCtxDone :: trace w.

Hypothesis Hinsert : io_err env t3 = Some e.
Hypothesis Hdup : Wsm.isUniqueViolation pgErrUniqueViolation e = true.

Let t5 : list event := EvRollback :: EvWriteText ("Y " +:+ mar1) :: t3.

(** The path of wsm.go through the failed INSERT.  The deferred rollback
    may still hand a text to [reportError]; what that writes is [tail]. *)
Lemma choose_reaffirm ucg :
  Group (heap w course) ∉ ucg ->
  exists returned tail,
    Wsm.messageChooseCourse env pgErrUniqueViolation reportError
      [verb; mar1] userID session ucg w
    = ((returned, ucg), set_trace (map EvConn tail ++ t5) w).
Proof.
  intros Hgroup. subst t5 t3.
  unfold Wsm.messageChooseCourse. rewrite bind_get, (mode_open _ Hmode).
  unfold ctx_Done. rewrite bind_call, Hctx, Hid, bind_get.
  world_simpl. rewrite Hcourse, bind_get. world_simpl.
  rewrite (bool_decide_eq_false_2 _ Hgroup).
  unfold Wsm.chooseCourse_closure, Wsm.chooseCourse_tx, Wsm.report, now_UnixMicro.
  run_M. rewrite Hbegin. world_simpl. rewrite Hinsert, Hdup.
  destruct (io_err env (EvWriteText _ :: _)) as [errY|];
    (destruct (io_err env (EvRollback :: _)) as [errR|];
     [destruct (errors_Is errR ErrTxClosed); cbn;
      [ eexists _, []; reflexivity
      | destruct (reportError _ _) as [r evs]; eexists _, evs; reflexivity ]
     | eexists _, []; reflexivity ]).
Qed.

(** The same path in the later handler. *)
Lemma chooseY_reaffirm b :
  Group (heap w course) ∉ WsmY.userCourseGroups b ->
  exists returned,
    WsmY.messageChooseCourse env pgErrUniqueViolation [verb; mar1] userID b w
    = ((returned, b), set_trace t5 w).
Proof.
  intros Hgroup. subst t5 t3.
  unfold WsmY.messageChooseCourse. rewrite bind_get, (mode_open _ Hmode).
  unfold ctx_Done. rewrite bind_call, Hctx, Hid, bind_get.
  world_simpl. rewrite Hcourse, bind_get. world_simpl.
  rewrite (bool_decide_eq_false_2 _ Hgroup).
  unfold WsmY.chooseCourse_closure, WsmY.chooseCourse_tx, now_UnixMicro.
  run_M. rewrite Hbegin. world_simpl. rewrite Hinsert, Hdup.
  destruct (io_err env (EvWriteText _ :: _)) as [errY|];
    (destruct (io_err env (EvRollback :: _)) as [errR|];
     [destruct (errors_Is errR ErrTxClosed); cbn|]; eexists; reflexivity).
Qed.

End Reaffirm.

Section InsertIssued.
Variables (env : envT) (pgErrUniqueViolation : string) (reportError : reportErrorT).
Variables (mar : list string) (userID session : string) (w : world).
Variables (newer older : list event) (seltime : Z) (user : string) (id : Z).

(** The INSERT is issued by a run of [messageChooseCourse] only on one
    path: the mode is open, the context is live, the frame has two
    fields, the second names a course of the catalogue whose group the
    session does not hold, and the transaction began.  The run issues it
    once, right after [db.Begin]. *)
Lemma choose_insert_issued ucg :
  trace (Wsm.messageChooseCourse env pgErrUniqueViolation reportError
           mar userID session ucg w).2
    = newer ++ EvInsertChoice seltime user id :: older ++ trace w ->
  exists verb mar1 course,
    mar = [verb; mar1] /\ state w = 2%N /\
    io_err env (EvCtxDone :: trace w) = None /\
    Strconv.ParseInt mar1 = Some id /\
    courses w !! id = Some (Some course) /\
    (Group (heap w course) ∉ ucg) /\
    io_err env (EvBegin :: EvCtxDone :: trace w) = None /\
    seltime = io_int env (EvBegin :: EvCtxDone :: trace w) /\
    user = userID /\ older = [EvBegin; EvCtxDone].
Proof.
  unfold Wsm.messageChooseCourse. rewrite bind_get.
  destruct (negb (state w =? 2)%N) eqn:Hmode;
    [early_exit is_insert (@nil event)|].
  apply negb_false_iff, N.eqb_eq in Hmode.
  unfold ctx_Done. rewrite bind_call.
  destruct (io_err env (EvCtxDone :: trace w)) as [ctxErr|] eqn:Hctx;
    [early_exit is_insert [EvCtxDone]|].
  destruct mar as [|verb [|mar1 [|extra mar']]];
    try early_exit is_insert [EvCtxDone].
  destruct (Strconv.ParseInt mar1) as [courseID|] eqn:Hid;
    [|early_exit is_insert [EvCtxDone]].
  rewrite bind_get. world_simpl.
  destruct (courses w !! courseID) as [[course|]|] eqn:Hcourse;
    try early_exit is_insert [EvCtxDone].
  rewrite bind_get. world_simpl.
  destruct (bool_decide (Group (heap w course) ∈ ucg)) eqn:Hgroup;
    [early_exit is_insert [EvCtxDone]|].
  apply bool_decide_eq_false in Hgroup.
  unfold Wsm.chooseCourse_closure. rewrite bind_call. world_simpl.
  destruct (io_err env (EvBegin :: EvCtxDone :: trace w)) as [beginErr|] eqn:Hbegin;
    [early_exit is_insert [EvBegin; EvCtxDone]|].
  unfold Wsm.chooseCourse_tx.
  rewrite bind_assoc, bind_now, bind_assoc, bind_call. world_simpl.
  match goal with
  | |- trace (?m ?w3).2 = _ -> _ =>
      assert (Hrest : silent is_insert m) by silent_tac;
      destruct (Hrest w3) as (delta & -> & Hdelta)
  end.
  world_simpl. intros Heq.
  apply (split_above_base is_insert delta _ [EvBegin; EvCtxDone]) in Heq
    as (-> & Hev & ->); [|assumption|repeat constructor|reflexivity].
  injection Hev as -> -> ->.
  exists verb, mar1, course. repeat split; assumption.
Qed.

Lemma chooseY_insert_issued b :
  trace (WsmY.messageChooseCourse env pgErrUniqueViolation mar userID b w).2
    = newer ++ EvInsertChoice seltime user id :: older ++ trace w ->
  exists verb mar1 course,
    mar = [verb; mar1] /\ state w = 2%N /\
    io_err env (EvCtxDone :: trace w) = None /\
    Strconv.ParseInt mar1 = Some id /\
    courses w !! id = Some (Some course) /\
    (Group (heap w course) ∉ WsmY.userCourseGroups b) /\
    io_err env (EvBegin :: EvCtxDone :: trace w) = None /\
    seltime = io_int env (EvBegin :: EvCtxDone :: trace w) /\
    user = userID /\ older = [EvBegin; EvCtxDone].
Proof.
  unfold WsmY.messageChooseCourse. rewrite bind_get.
  destruct (negb (state w =? 2)%N) eqn:Hmode;
    [early_exit is_insert (@nil event)|].
  apply negb_false_iff, N.eqb_eq in Hmode.
  unfold ctx_Done. rewrite bind_call.
  destruct (io_err env (EvCtxDone :: trace w)) as [ctxErr|] eqn:Hctx;
    [early_exit is_insert [EvCtxDone]|].
  destruct mar as [|verb [|mar1 [|extra mar']]];
    try early_exit is_insert [EvCtxDone].
  destruct (Strconv.ParseInt mar1) as [courseID|] eqn:Hid;
    [|early_exit is_insert [EvCtxDone]].
  rewrite bind_get. world_simpl.
  destruct (courses w !! courseID) as [[course|]|] eqn:Hcourse;
    try early_exit is_insert [EvCtxDone].
  rewrite bind_get. world_simpl.
  destruct (bool_decide (Group (heap w course) ∈ WsmY.userCourseGroups b))
    eqn:Hgroup; [early_exit is_insert [EvCtxDone]|].
  apply bool_decide_eq_false in Hgroup.
  unfold WsmY.chooseCourse_closure. rewrite bind_call. world_simpl.
  destruct (io_err env (EvBegin :: EvCtxDone :: trace w)) as [beginErr|] eqn:Hbegin;
    [early_exit is_insert [EvBegin; EvCtxDone]|].
  unfold WsmY.chooseCourse_tx.
  rewrite bind_assoc, bind_now, bind_assoc, bind_call. world_simpl.
  match goal with
  | |- trace (?m ?w3).2 = _ -> _ =>
      assert (Hrest : silent is_insert m) by silent_tac;
      destruct (Hrest w3) as (delta & -> & Hdelta)
  end.
  world_simpl. intros Heq.
  apply (split_above_base is_insert delta _ [EvBegin; EvCtxDone]) in Heq
    as (-> & Hev & ->); [|assumption|repeat constructor|reflexivity].
  injection Hev as -> -> ->.
  exists verb, mar1, course. repeat split; assumption.
Qed.

End InsertIssued.

(** Conversely, a run of [messageChooseCourse] (the handler of wsm.go,
    and the later one) in which the INSERT into choices is issued and
    fails with a unique violation is a run on the path above: after the
    INSERT it writes [Y <id>] and runs the deferred rollback, and nothing
    else. *)
Lemma unique_violation_runs env pgErrUniqueViolation reportError
    mar userID session (ucg : userCourseGroupsT) (b : WsmY.bookkeeping)
    w seltime user id older e :
  let issued := EvInsertChoice seltime user id :: older ++ trace w in
  io_err env issued = Some e ->
  Wsm.isUniqueViolation pgErrUniqueViolation e = true ->
  (forall newer,
     trace (Wsm.messageChooseCourse env pgErrUniqueViolation reportError
              mar userID session ucg w).2 = newer ++ issued ->
     exists verb mar1 returned tail,
       mar = [verb; mar1] /\ older = [EvBegin; EvCtxDone] /\
       newer = map EvConn tail ++ [EvRollback; EvWriteText ("Y " +:+ mar1)] /\
       Wsm.messageChooseCourse env pgErrUniqueViolation reportError
         mar userID session ucg w
       = ((returned, ucg), set_trace (newer ++ issued) w)) /\
  (forall newer,
     trace (WsmY.messageChooseCourse env pgErrUniqueViolation mar userID b w).2
       = newer ++ issued ->
     exists verb mar1 returned,
       mar = [verb; mar1] /\ older = [EvBegin; EvCtxDone] /\
       newer = [EvRollback; EvWriteText ("Y " +:+ mar1)] /\
       WsmY.messageChooseCourse env pgErrUniqueViolation mar userID b w
       = ((returned, b), set_trace (newer ++ issued) w)).
Proof.
  intros issued Hfail Hdup. subst issued. split; intros newer Htrace.
  - destruct (choose_insert_issued _ _ _ _ _ _ _ _ _ _ _ _ _ Htrace)
      as (verb & mar1 & course & -> & Hmode & Hctx & Hid & Hcourse & Hgroup
          & Hbegin & -> & -> & ->).
    destruct (choose_reaffirm env pgErrUniqueViolation reportError verb mar1
                userID session w id course e Hmode Hctx Hid Hcourse Hbegin
                Hfail Hdup ucg Hgroup) as (returned & tail & Hrun).
    rewrite Hrun in Htrace. cbn [snd trace set_trace] in Htrace.
    assert (newer = map EvConn tail ++ [EvRollback; EvWriteText ("Y " +:+ mar1)])
      as ->.
    { symmetry. eapply app_inv_tail. rewrite <- Htrace, <- app_assoc. reflexivity. }
    exists verb, mar1, returned, tail. repeat split.
    rewrite Hrun, <- app_assoc. reflexivity.
  - destruct (chooseY_insert_issued _ _ _ _ _ _ _ _ _ _ _ Htrace)
      as (verb & mar1 & course & -> & Hmode & Hctx & Hid & Hcourse & Hgroup
          & Hbegin & -> & -> & ->).
    destruct (chooseY_reaffirm env pgErrUniqueViolation verb mar1
                userID w id course e Hmode Hctx Hid Hcourse Hbegin
                Hfail Hdup b Hgroup) as (returned & Hrun).
    rewrite Hrun in Htrace. cbn [snd trace set_trace] in Htrace.
    assert (newer = [EvRollback; EvWriteText ("Y " +:+ mar1)]) as ->.
    { symmetry. eapply app_inv_tail. rewrite <- Htrace. reflexivity. }
    exists verb, mar1, returned. repeat split. exact Hrun.
Qed.





(** Within one session the INSERT is not reached for a course that was
    granted before: the group of the course is in the session's groups
    and the second Y is answered with [Group conflict]. *)
Example second_Y_in_session_is_group_conflict :
  let choose b w :=
    WsmY.messageChooseCourse env_ok sample_unique_violation ["Y"; "7"] "alice" b w in
  let first := choose (WsmY.mkBook ∅ ∅) (sample_world 2) in
  let second := choose first.1.2 first.2 in
  head (trace second.2) = Some (EvWriteText "R 7 :Group conflict") /\
  Selected (heap second.2 0%nat) = 1%N.
Proof. split; reflexivity. Qed.

(** ** Releasing a course that is not held *)

(** The path of [messageUnchooseCourse] through a DELETE that removes no
    row. *)
Lemma unchoose_without_row env reportError verb mar1 userID session
    (ucg : userCourseGroupsT) w courseID course :
  let t2 := EvDeleteChoice userID courseID :: EvCtxDone :: trace w in
  let t3 := EvWriteText ("N " +:+ mar1) :: t2 in
  state w = 2%N ->
  io_err env (EvCtxDone :: trace w) = None ->
  Strconv.ParseInt mar1 = Some courseID ->
  courses w !! courseID = Some (Some course) ->
  io_err env t2 = None ->
  io_int env t2 = 0%Z ->
  Wsm.messageUnchooseCourse env reportError [verb; mar1] userID session ucg w
  = ((match io_err env t3 with
      | Some err => Some (Wrap errCannotSend err)
      | None => None
      end, ucg), set_trace t3 w).
Proof.
  intros t2 t3 Hmode Hctx Hid Hcourse Hdelete Hrows. subst t3 t2.
  unfold Wsm.messageUnchooseCourse. rewrite bind_get, (mode_open _ Hmode).
  unfold ctx_Done. rewrite bind_call, Hctx, Hid, bind_get.
  world_simpl. rewrite Hcourse.
  unfold Wsm.exec_delete. run_M. rewrite Hdelete, Hrows. cbn.
  destruct (io_err env (EvWriteText _ :: _)); reflexivity.
Qed.

(** The DELETE is issued by a run of [messageUnchooseCourse] only when
    the mode is open, the context is live and the frame names a course of
    the catalogue; the run issues it once, right after the context
    poll. *)
Lemma unchoose_delete_issued env reportError mar userID session
    (ucg : userCourseGroupsT) w newer user id older :
  trace (Wsm.messageUnchooseCourse env reportError mar userID session ucg w).2
    = newer ++ EvDeleteChoice user id :: older ++ trace w ->
  exists verb mar1 course,
    mar = [verb; mar1] /\ state w = 2%N /\
    io_err env (EvCtxDone :: trace w) = None /\
    Strconv.ParseInt mar1 = Some id /\
    courses w !! id = Some (Some course) /\
    user = userID /\ older = [EvCtxDone].
Proof.
  unfold Wsm.messageUnchooseCourse. rewrite bind_get.
  destruct (negb (state w =? 2)%N) eqn:Hmode;
    [early_exit is_delete (@nil event)|].
  apply negb_false_iff, N.eqb_eq in Hmode.
  unfold ctx_Done. rewrite bind_call.
  destruct (io_err env (EvCtxDone :: trace w)) as [ctxErr|] eqn:Hctx;
    [early_exit is_delete [EvCtxDone]|].
  destruct mar as [|verb [|mar1 [|extra mar']]];
    try early_exit is_delete [EvCtxDone].
  destruct (Strconv.ParseInt mar1) as [courseID|] eqn:Hid;
    [|early_exit is_delete [EvCtxDone]].
  rewrite bind_get. world_simpl.
  destruct (courses w !! courseID) as [[course|]|] eqn:Hcourse;
    try early_exit is_delete [EvCtxDone].
  rewrite bind_exec_delete. cbn zeta beta iota. world_simpl.
  match goal with
  | |- trace (?m ?w3).2 = _ -> _ =>
      assert (Hrest : silent is_delete m) by silent_tac;
      destruct (Hrest w3) as (delta & -> & Hdelta)
  end.
  world_simpl. intros Heq.
  apply (split_above_base is_delete delta _ [EvCtxDone]) in Heq
    as (-> & Hev & ->); [|assumption|repeat constructor|reflexivity].
  injection Hev as -> ->.
  exists verb, mar1, course. repeat split; assumption.
Qed.

(** Conversely, a run of [messageUnchooseCourse] in which the DELETE is
    issued, succeeds and removes no row is a run on the path above: the
    frame names a course of the catalogue, and after the DELETE the run
    writes [N <id>] and nothing else. *)
Lemma zero_row_runs env reportError mar userID session
    (ucg : userCourseGroupsT) w user id older :
  let issued := EvDeleteChoice user id :: older ++ trace w in
  io_err env issued = None ->
  io_int env issued = 0%Z ->
  forall newer,
    trace (Wsm.messageUnchooseCourse env reportError mar userID session ucg w).2
      = newer ++ issued ->
    exists verb mar1 course,
      mar = [verb; mar1] /\ resolve w mar1 = Some course /\
      older = [EvCtxDone] /\
      newer = [EvWriteText ("N " +:+ mar1)] /\
      Wsm.messageUnchooseCourse env reportError mar userID session ucg w
      = ((match io_err env (newer ++ issued) with
          | Some err => Some (Wrap errCannotSend err)
          | None => None
          end, ucg), set_trace (newer ++ issued) w).
Proof.
  intros issued Hdelete Hrows newer Htrace. subst issued.
  destruct (unchoose_delete_issued _ _ _ _ _ _ _ _ _ _ _ Htrace)
    as (verb & mar1 & course & -> & Hmode & Hctx & Hid & Hcourse & -> & ->).
  pose proof (unchoose_without_row env reportError verb mar1 userID session
                ucg w id course Hmode Hctx Hid Hcourse Hdelete Hrows) as Hrun.
  cbn zeta in Hrun. rewrite Hrun in Htrace. cbn [snd trace set_trace] in Htrace.
  assert (newer = [EvWriteText ("N " +:+ mar1)]) as ->.
  { symmetry. eapply app_inv_tail. rewrite <- Htrace. reflexivity. }
  exists verb, mar1, course. repeat split; [|exact Hrun].
  unfold resolve. now rewrite Hid, Hcourse.
Qed.


(** C4: an N frame, in open mode and with a live context, that names a
    course of the catalogue, when the user holds no row for it (the
    DELETE succeeds and removes no row).  [messageUnchooseCourse] issues
    the DELETE and then writes [N <id>], and that is all it does: the
    world after the run is the world before it with these events added to
    the trace.  No lock is taken, no counter is decremented, no
    propagation is started, and the groups are returned as they were
    handed in.  It returns nil, or the error of the write wrapped as a
    send error. *)
Theorem release_without_row env reportError verb mar1 userID session
    (ucg : userCourseGroupsT) w courseID course :
  state w = 2%N ->
  io_err env (EvCtxDone :: trace w) = None ->
  Strconv.ParseInt mar1 = Some courseID ->
  courses w !! courseID = Some (Some course) ->
  let deleted := EvDeleteChoice userID courseID :: EvCtxDone :: trace w in
  io_err env deleted = None ->
  io_int env deleted = 0%Z ->
  let replied := EvWriteText ("N " +:+ mar1) :: deleted in
  Wsm.messageUnchooseCourse env reportError [verb; mar1] userID session ucg w
  = ((match io_err env replied with
      | Some err => Some (Wrap errCannotSend err)
      | None => None
      end, ucg), set_trace replied w).
Proof.
  intros Hmode Hctx Hid Hcourse deleted Hdelete Hrows replied.
  exact (unchoose_without_row env reportError verb mar1 userID session ucg w
           courseID course Hmode Hctx Hid Hcourse Hdelete Hrows).
Qed.

Lemma release_without_row_witness :
  Wsm.messageUnchooseCourse env_ok (makeReportError env_ok)
    ["N"; "7"] "alice" "cookie" {["x"]} (sample_world 2)
  = ((None, {["x"]}),
     set_trace [EvWriteText "N 7"; EvDeleteChoice "alice" 7; EvCtxDone]
       (sample_world 2)).
Proof.
  exact (release_without_row env_ok (makeReportError env_ok)
           "N" "7" "alice" "cookie" {["x"]} (sample_world 2) 7%Z 0%nat
           eq_refl eq_refl eq_refl eq_refl eq_refl eq_refl).
Defined.

(** ** A Y frame for a course that does not exist *)

(** C8 as the claim states it (the reply to a Y frame whose id names no
    course is [R <id> :No such course]) fails: for [Y 99] and a catalogue
    without course 99, the later handler writes no frame at all and
    returns [errNoSuchCourse]; the handler of wsm.go hands the text
    [no such course], without the id, to [reportError], which writes an
    [E] frame. *)
Lemma no_such_course_is_no_rejection :
  let w := sample_world 2 in
  let laterY := WsmY.messageChooseCourse env_ok sample_unique_violation
                  ["Y"; "99"] "alice" (WsmY.mkBook ∅ ∅) w in
  let wsmY := Wsm.messageChooseCourse env_ok sample_unique_violation
                (makeReportError env_ok) ["Y"; "99"] "alice" "cookie" ∅ w in
  resolve w "99" = None /\
  laterY.1.1 = Some errNoSuchCourse /\ trace laterY.2 = [EvCtxDone] /\
  (EvWriteText "R 99 :No such course" ∉ trace laterY.2) /\
  trace wsmY.2 = [EvWriteText "E :no such course"; EvCtxDone] /\
  (EvWriteText "R 99 :No such course" ∉ trace wsmY.2).
Proof.
  cbn zeta. repeat split; try reflexivity;
    vm_compute; intros Hin;
    repeat (apply elem_of_cons in Hin as [Hin|Hin]; [discriminate|]);
    inversion Hin.
Qed.

(** C8, amended: for a Y frame whose id argument names no course of the
    catalogue (the mode is open, the context live) the handler writes no
    frame of its own.  The later handler returns [errNoSuchCourse].  The
    handler of wsm.go does one thing after the context poll: it returns
    [reportError(msg)], where [msg] is [Course ID must be an integer]
    when [strconv.ParseInt] rejects the argument, [no such course] when
    the catalogue has no entry for the id, and [couse is nil] when the
    entry is there and is a nil pointer (the one way left for an entry not
    to resolve); none of the texts carries the id. *)
Theorem no_such_course_is_an_error env pgErrUniqueViolation reportError
    verb mar1 userID session (ucg : userCourseGroupsT) (b : WsmY.bookkeeping) w :
  state w = 2%N ->
  io_err env (EvCtxDone :: trace w) = None ->
  resolve w mar1 = None ->
  let w1 := set_trace (EvCtxDone :: trace w) w in
  let msg :=
    match Strconv.ParseInt mar1 with
    | None => "Course ID must be an integer"
    | Some courseID =>
        match courses w !! courseID with
        | None => "no such course"
        | Some _ => "couse is nil"
        end
    end in
  WsmY.messageChooseCourse env pgErrUniqueViolation [verb; mar1] userID b w
    = ((Some errNoSuchCourse, b), w1) /\
  Wsm.messageChooseCourse env pgErrUniqueViolation reportError
    [verb; mar1] userID session ucg w
    = Wsm.report reportError msg ucg w1.
Proof.
  intros Hmode Hctx Hres w1 msg. subst w1 msg. unfold resolve in Hres.
  unfold WsmY.messageChooseCourse, Wsm.messageChooseCourse.
  rewrite !bind_get, !(mode_open _ Hmode).
  unfold ctx_Done. rewrite !bind_call, !Hctx.
  destruct (Strconv.ParseInt mar1) as [courseID|]; [|split; reflexivity].
  rewrite !bind_get. world_simpl.
  destruct (courses w !! courseID) as [[course|]|];
    [discriminate | split; reflexivity | split; reflexivity].
Qed.

Lemma no_such_course_is_an_error_witness :
  let w := sample_world 2 in
  let w1 := set_trace [EvCtxDone] w in
  WsmY.messageChooseCourse env_ok sample_unique_violation ["Y"; "99"] "alice"
    (WsmY.mkBook ∅ ∅) w
    = ((Some errNoSuchCourse, WsmY.mkBook ∅ ∅), w1) /\
  Wsm.messageChooseCourse env_ok sample_unique_violation (makeReportError env_ok)
    ["Y"; "99"] "alice" "cookie" ∅ w
    = Wsm.report (makeReportError env_ok) "no such course" ∅ w1.
Proof.
  exact (no_such_course_is_an_error env_ok sample_unique_violation
           (makeReportError env_ok) "Y" "99" "alice" "cookie" ∅
           (WsmY.mkBook ∅ ∅) (sample_world 2) eq_refl eq_refl eq_refl).
Defined.


(** * Further properties *)

(** ** The wire format read back *)

Section WireFacts.
Import Split Wire.

Lemma splitMsg_loop_nonempty b todo : forall i mar elem fields,
  splitMsg_loop b i todo mar elem = Ok fields -> fields <> [].
Proof.
  induction todo as [|c todo IH]; intros i mar elem fields; cbn [splitMsg_loop].
  - intros [= <-]. now destruct mar.
  - destruct (Byte.eqb c SPACE); [|apply IH].
    destruct (b !! (i + 1)%nat) as [c1|]; [|discriminate].
    destruct (Byte.eqb c1 COLON); [|apply IH].
    intros [= <-]. now destruct mar.
Qed.

(** X1: whenever [splitMsg] returns, the slice it returns has a first
    element: the [mar[0]] of the connection loops cannot be out of range
    once the frame has been split.  This holds for the empty frame too. *)
Theorem splitMsg_fields_nonempty b fields :
  splitMsg b = Ok fields -> exists verb args, fields = verb :: args.
Proof.
  intros H. apply splitMsg_loop_nonempty in H. destruct fields; [done | eauto].
Qed.

Lemma splitMsg_fields_nonempty_witness :
  exists verb args, ["Y"; "7"] = verb :: args.
Proof. exact (splitMsg_fields_nonempty (frame "Y 7") ["Y"; "7"] eq_refl). Defined.

Lemma splitMsg_loop_plain b u : plain u -> forall i rest mar elem,
  splitMsg_loop b i (u ++ rest) mar elem
  = splitMsg_loop b (i + length u) rest mar (elem ++ u).
Proof.
  induction 1 as [|c u Hc _ IH]; intros i rest mar elem.
  - cbn. now rewrite Nat.add_0_r, app_nil_r.
  - cbn [app splitMsg_loop length]. rewrite Hc, IH.
    rewrite <- app_assoc. f_equal. lia.
Qed.

Lemma splitMsg_loop_step b i c todo mar elem :
  splitMsg_loop b i (c :: todo) mar elem
  = if Byte.eqb c SPACE then
      match b !! (i + 1)%nat with
      | None => Panic (IndexOutOfRange (i + 1) (length b))
      | Some c1 =>
          if Byte.eqb c1 COLON then
            Ok ((mar ++ [string_of_bytes elem])
                  ++ [string_of_bytes (drop (i + 2) b)])
          else splitMsg_loop b (S i) todo (mar ++ [string_of_bytes elem]) []
      end
    else splitMsg_loop b (S i) todo mar (elem ++ [c]).
Proof. reflexivity. Qed.

(** A space before a field that does not begin with a colon ends the
    field being read. *)
Lemma splitMsg_loop_space b i c todo mar elem :
  at_index b i (SPACE :: c :: todo) -> Byte.eqb c COLON = false ->
  splitMsg_loop b i (SPACE :: c :: todo) mar elem
  = splitMsg_loop b (S i) (c :: todo) (mar ++ [string_of_bytes elem]) [].
Proof.
  intros Hat Hc. rewrite splitMsg_loop_step.
  replace (Byte.eqb SPACE SPACE) with true by reflexivity.
  rewrite (at_index_peek _ _ _ _ Hat). cbn [head]. now rewrite Hc.
Qed.

(** A space before a colon ends the frame: what follows the colon is the
    last field. *)
Lemma splitMsg_loop_marker b i trailing mar elem :
  at_index b i (SPACE :: COLON :: trailing) ->
  splitMsg_loop b i (SPACE :: COLON :: trailing) mar elem
  = Ok ((mar ++ [string_of_bytes elem]) ++ [string_of_bytes trailing]).
Proof.
  intros Hat. rewrite splitMsg_loop_step.
  replace (Byte.eqb SPACE SPACE) with true by reflexivity.
  rewrite (at_index_peek _ _ _ _ Hat). cbn [head].
  replace (Byte.eqb COLON COLON) with true by reflexivity.
  do 2 f_equal. apply at_index_next, at_index_next in Hat.
  unfold at_index in Hat.
  replace (i + 2)%nat with (S (S i)) by lia. now rewrite Hat.
Qed.

Lemma at_index_skip b i u rest :
  at_index b i (u ++ rest) -> at_index b (i + length u) rest.
Proof.
  unfold at_index. intros H. rewrite <- drop_drop, H. apply drop_app_length.
Qed.

Lemma read_fields_all cur rest :
  (read_fields cur rest).1 ++ [string_of_bytes (read_fields cur rest).2]
  = map string_of_bytes (cur :: rest).
Proof.
  revert cur. induction rest as [|f rest IH]; intros cur; cbn; [done|].
  specialize (IH f). destruct (read_fields f rest) as [done last]. cbn in *.
  now rewrite IH.
Qed.

(** After the first field and a run of followers the loop has completed all but the last. *)
Lemma splitMsg_loop_fields b rest : Forall follower rest ->
  forall cur i tail mar elem, plain cur ->
  at_index b i (cur ++ concat (map (cons SPACE) rest) ++ tail) ->
  splitMsg_loop b i (cur ++ concat (map (cons SPACE) rest) ++ tail) mar elem
  = splitMsg_loop b (i + length (cur ++ concat (map (cons SPACE) rest))) tail
      (mar ++ (read_fields (elem ++ cur) rest).1) (read_fields (elem ++ cur) rest).2.
Proof.
  induction 1 as [|f rest Hf _ IH]; intros cur i tail mar elem Hcur Hat.
  - cbn [map concat app] in *. rewrite splitMsg_loop_plain by assumption.
    cbn. now rewrite !app_nil_r.
  - destruct Hf as (Hplain & c & f' & -> & Hc).
    cbn [map concat] in *. rewrite <- !app_assoc in *. cbn [app] in Hat |- *.
    rewrite splitMsg_loop_plain by assumption.
    apply at_index_skip in Hat.
    rewrite splitMsg_loop_space by assumption.
    apply at_index_next in Hat.
    specialize (IH (c :: f') (S (i + length cur)) tail
                  (mar ++ [string_of_bytes (elem ++ cur)]) [] Hplain).
    cbn [app] in IH. rewrite <- !app_assoc in IH. cbn [app] in IH.
    rewrite IH by exact Hat.
    cbn [read_fields]. destruct (read_fields (c :: f') rest) as [done last] eqn:E.
    cbn [fst snd]. f_equal.
    rewrite !length_app. cbn [length]. rewrite !length_app. lia.
Qed.

Lemma splitMsg_of_join first rest :
  plain first -> Forall follower rest ->
  splitMsg (join (first :: rest)) = Ok (map string_of_bytes (first :: rest)).
Proof.
  intros Hfirst Hrest. unfold splitMsg, join.
  pose proof (splitMsg_loop_fields (first ++ concat (map (cons SPACE) rest)) rest Hrest
                first 0 [] [] [] Hfirst) as H.
  rewrite !app_nil_r in H. rewrite H by reflexivity. cbn [splitMsg_loop app].
  now rewrite read_fields_all.
Qed.

Lemma splitMsg_of_join_trailing first rest trailing :
  plain first -> Forall follower rest ->
  splitMsg (join_trailing (first :: rest) trailing)
  = Ok (map string_of_bytes (first :: rest) ++ [string_of_bytes trailing]).
Proof.
  intros Hfirst Hrest. unfold splitMsg, join_trailing, join.
  set (b := (first ++ concat (map (cons SPACE) rest)) ++ SPACE :: COLON :: trailing).
  assert (Hat : at_index b 0 (first ++ concat (map (cons SPACE) rest) ++ SPACE :: COLON :: trailing)).
  { unfold at_index, b. now rewrite <- app_assoc. }
  pose proof (splitMsg_loop_fields b rest Hrest first 0 (SPACE :: COLON :: trailing) [] [] Hfirst Hat) as H.
  unfold b at 2. rewrite <- app_assoc, H. cbn [app].
  rewrite app_assoc in Hat. apply at_index_skip in Hat.
  rewrite splitMsg_loop_marker by exact Hat.
  cbn [app]. now rewrite read_fields_all.
Qed.

(** X3: [splitMsg] reads back what the message format writes.  Fields
    joined by single spaces, the first without a space and the others
    without a space, not empty and not beginning with a colon, come back
    one string each; with a trailing argument ([ :] and any bytes, spaces
    and colons included) the trailing argument comes back as the last
    string, unchanged. *)
Theorem splitMsg_reads_back first rest trailing :
  plain first -> Forall follower rest ->
  splitMsg (join (first :: rest)) = Ok (map string_of_bytes (first :: rest)) /\
  splitMsg (join_trailing (first :: rest) trailing)
  = Ok (map string_of_bytes (first :: rest) ++ [string_of_bytes trailing]).
Proof.
  intros Hfirst Hrest. split.
  - now apply splitMsg_of_join.
  - now apply splitMsg_of_join_trailing.
Qed.

Lemma splitMsg_reads_back_witness :
  splitMsg (frame "R 7") = Ok ["R"; "7"] /\
  splitMsg (frame "R 7 :Group conflict") = Ok ["R"; "7"; "Group conflict"].
Proof.
  assert (Hfirst : plain (frame "R")) by (repeat constructor).
  assert (Hrest : Forall follower [frame "7"]).
  { repeat constructor. eexists _, _. split; reflexivity. }
  exact (splitMsg_reads_back (frame "R") [frame "7"] (frame "Group conflict")
           Hfirst Hrest).
Defined.
End WireFacts.

(** ** The frames that panic *)

Section WirePanics.
Import Split Wire.

Lemma byte_eqb_true c d : Byte.eqb c d = true <-> c = d.
Proof. split; [apply Byte.byte_dec_bl | apply Byte.byte_dec_lb]. Qed.

Lemma byte_eqb_false c d : Byte.eqb c d = false <-> c <> d.
Proof.
  rewrite <- byte_eqb_true. destruct (Byte.eqb c d); split; congruence.
Qed.

Lemma has_marker_cons c todo :
  has_marker (c :: todo)
  <-> (c = SPACE /\ head todo = Some COLON) \/ has_marker todo.
Proof.
  unfold has_marker. split.
  - intros ([|j] & H1 & H2); cbn in *.
    + left. split; [congruence|]. now destruct todo; simplify_eq/=.
    + right. eauto.
  - intros [[-> Hh]|(j & H1 & H2)].
    + exists 0%nat. split; [reflexivity|]. now destruct todo; simplify_eq/=.
    + exists (S j). auto.
Qed.

Lemma splitMsg_loop_panics b todo : forall i mar elem,
  at_index b i todo ->
  is_Ok (splitMsg_loop b i todo mar elem) = false
  <-> last todo = Some SPACE /\ ~ has_marker todo.
Proof.
  induction todo as [|c todo IH]; intros i mar elem Hat.
  - cbn. split; [discriminate | now intros [? _]].
  - rewrite splitMsg_loop_step, has_marker_cons.
    pose proof (at_index_peek _ _ _ _ Hat) as Hpeek.
    pose proof (at_index_next _ _ _ _ Hat) as Hnext.
    destruct (Byte.eqb c SPACE) eqn:Hc.
    + apply byte_eqb_true in Hc. subst c. rewrite Hpeek.
      destruct todo as [|c1 todo1]; cbn [head].
      * cbn. split; [intros _|done]. split; [done|].
        intros [[_ ?]|(j & H1 & H2)]; [done|]. now destruct j.
      * destruct (Byte.eqb c1 COLON) eqn:Hc1.
        -- apply byte_eqb_true in Hc1. subst c1. cbn [is_Ok]. split; [done|].
           intros [_ Hno]. exfalso. apply Hno. now left.
        -- apply byte_eqb_false in Hc1. rewrite IH by assumption.
           change (last (SPACE :: c1 :: todo1)) with (last (c1 :: todo1)).
           split; intros [Hl Hno]; (split; [assumption|]).
           ++ intros [[_ [= ?]]|?]; auto.
           ++ intros ?. apply Hno. now right.
    + apply byte_eqb_false in Hc. destruct todo as [|c1 todo1].
      * cbn. split; [discriminate|]. intros [[= ?] _]. done.
      * rewrite IH by assumption.
        change (last (c :: c1 :: todo1)) with (last (c1 :: todo1)).
        split; intros [Hl Hno]; (split; [assumption|]).
        -- intros [[? _]|?]; auto.
        -- intros ?. apply Hno. now right.
Qed.

(** X2: the frames on which [splitMsg] panics are exactly those that end
    in a space and contain no space followed by a colon.  On every other
    frame it returns. *)
Theorem splitMsg_panics_iff b :
  is_Ok (splitMsg b) = false <-> last b = Some SPACE /\ ~ has_marker b.
Proof. now apply splitMsg_loop_panics. Qed.
End WirePanics.


(** ** More about the coalescing signal *)

Section UsemExtra.
Import Usem.

(** X6: once [set()] has been called on an initialised signal, a further
    [set()] changes nothing. *)
Theorem set_idempotent s s' :
  initialized s -> set s = Proceeds s' -> set s' = Proceeds s'.
Proof.
  intros (c & Hch & Hcap & Hbuf). unfold set, chan_send. rewrite Hch.
  destruct c as [k b]; cbn in *; subst k.
  destruct b as [|[|b]]; cbn; [| |lia]; intros [= <-]; cbn; [reflexivity|].
  now rewrite Hch.
Qed.

Lemma set_idempotent_witness :
  set (mkUsem (Some (mkChan 1 1))) = Proceeds (mkUsem (Some (mkChan 1 1))).
Proof.
  apply (set_idempotent (init zero)); [apply init_initialized | reflexivity].
Defined.

(** X7: on an initialised signal, taking the pending wake and calling
    [set()] gives back the signal as it was. *)
Theorem wait_then_set_restores s s' :
  initialized s -> wait s = Proceeds s' -> set s' = Proceeds s.
Proof.
  intros (c & Hch & Hcap & Hbuf). unfold wait, chan_recv, set, chan_send.
  rewrite Hch. destruct s as [ch]. cbn in *. subst ch.
  destruct c as [k b]; cbn in *; subst k.
  destruct b as [|[|b]]; cbn; [discriminate| |lia]. now intros [= <-].
Qed.

Lemma wait_then_set_restores_witness :
  set (mkUsem (Some (mkChan 1 0))) = Proceeds (mkUsem (Some (mkChan 1 1))).
Proof.
  apply (wait_then_set_restores (mkUsem (Some (mkChan 1 1)))); [|reflexivity].
  exists (mkChan 1 1). repeat split. cbn. lia.
Defined.

(** X8: on a signal whose [init] has not run (the zero value, a nil
    channel) every [set()] takes the default branch and is lost: after any
    number of them nothing is pending and a receive would block. *)
Theorem uninitialized_drops_sets s n :
  _ch s = None ->
  set_n n s = Proceeds s /\ pending s = 0%nat /\ wait s = WouldBlock.
Proof.
  intros Hnil. repeat split.
  - induction n as [|n IH]; [reflexivity|].
    cbn [set_n]. unfold set, chan_send. now rewrite Hnil.
  - unfold pending. now rewrite Hnil.
  - unfold wait, chan_recv. now rewrite Hnil.
Qed.

Lemma uninitialized_drops_sets_witness :
  set_n 3 zero = Proceeds zero /\ pending zero = 0%nat /\ wait zero = WouldBlock.
Proof. exact (uninitialized_drops_sets zero 3 eq_refl). Defined.
End UsemExtra.

(** ** The mode in memory and in the database *)

Section StateExtra.
Import State Boot.

(** X9: [setState] never leaves the mode outside 0, 1, 2: whatever value
    it is asked for and whatever the database answers, a mode that was at
    most 2 is at most 2 afterwards. *)
Theorem setState_keeps_mode_in_range env newState w :
  (state w <= 2)%N -> (state (setState env newState w).2 <= 2)%N.
Proof.
  intros Hw. destruct (decide (newState <= 2)%N) as [Hle|Hgt].
  - rewrite setState_valid by assumption. cbn zeta.
    destruct (io_err env _); cbn; assumption.
  - rewrite setState_invalid by lia. assumption.
Qed.

Lemma setState_keeps_mode_in_range_witness :
  (state (setState env_ok 1 (sample_world 2)).2 <= 2)%N.
Proof.
  exact (setState_keeps_mode_in_range env_ok 1 (sample_world 2) (N.le_refl 2)).
Defined.

(** X10: for the modes 1 and 2 [setState] announces before it saves: when
    the UPDATE fails, STOP or START has already been propagated, the error
    is returned wrapped as an unexpected database error, and the mode in
    memory is the old one. *)
Theorem setState_announces_before_saving env newState w e :
  (1 <= newState <= 2)%N ->
  let msg := if (newState =? 1)%N then "STOP" else "START" in
  io_err env (EvUpdateState newState :: EvPropagate msg :: trace w) = Some e ->
  setState env newState w
  = (Some (wrapError errUnexpectedDBError e),
     set_trace (EvUpdateState newState :: EvPropagate msg :: trace w) w).
Proof.
  intros Hn msg Hfail. subst msg.
  rewrite setState_valid by lia. cbn zeta.
  assert (newState = 1 \/ newState = 2)%N as [-> | ->] by lia;
    cbn in *; now rewrite Hfail.
Qed.

Lemma setState_announces_before_saving_witness :
  let env :=
    env_failing (fun ev => match ev with EvUpdateState _ => true | _ => false end)
      ErrTxClosed in
  setState env 2 (sample_world 1)
  = (Some (wrapError errUnexpectedDBError ErrTxClosed),
     set_trace [EvUpdateState 2; EvPropagate "START"] (sample_world 1)).
Proof.
  intros env.
  apply (setState_announces_before_saving env 2 (sample_world 1) ErrTxClosed);
    [lia | reflexivity].
Defined.

(** X11: when [loadState] returns an error it has not stored anything:
    the mode in memory and the trace are as before. *)
Theorem loadState_error_keeps_cell db w :
  (loadState db w).1.1 <> None -> (loadState db w).2 = w.
Proof.
  unfold loadState. destruct (select_state db) as [[err|] scanned].
  - destruct (errors_Is err ErrNoRows); [|reflexivity].
    destruct (insert_state db 0%N); [reflexivity|]. cbn. congruence.
  - cbn. congruence.
Qed.

Lemma loadState_error_keeps_cell_witness :
  (loadState (mkDb (Some ErrTxClosed, 0%N) (fun _ => None)) (sample_world 2)).2
  = sample_world 2.
Proof.
  apply (loadState_error_keeps_cell
           (mkDb (Some ErrTxClosed, 0%N) (fun _ => None)) (sample_world 2)).
  cbn. discriminate.
Defined.

(** X12: when the [misc] table has no [state] row, [loadState] inserts the
    value 0 and, the INSERT done, stores 0 as the mode, whatever the Scan
    left in its variable; it issues the SELECT, then the INSERT, and
    returns nil. *)
Theorem loadState_missing_row_defaults db w err scanned :
  select_state db = (Some err, scanned) -> errors_Is err ErrNoRows = true ->
  insert_state db 0%N = None ->
  loadState db w
  = ((None, [SelectState; InsertState 0]),
     set_trace (EvStoreState 0 :: trace w) (set_state 0 w)).
Proof.
  intros Hsel Hno Hins. unfold loadState. now rewrite Hsel, Hno, Hins.
Qed.

Lemma loadState_missing_row_defaults_witness :
  loadState (mkDb (Some ErrNoRows, 5%N) (fun _ => None)) (sample_world 2)
  = ((None, [SelectState; InsertState 0]),
     set_trace [EvStoreState 0] (set_state 0 (sample_world 2))).
Proof.
  exact (loadState_missing_row_defaults
           (mkDb (Some ErrNoRows, 5%N) (fun _ => None)) (sample_world 2)
           ErrNoRows 5%N eq_refl eq_refl eq_refl).
Defined.
End StateExtra.


(** ** What the handlers leave alone *)

Section Frames.
Variable env : envT.

Lemma same_but_counters_refl w : same_but_counters w w.
Proof. repeat split. Qed.

Lemma same_but_counters_trans w1 w2 w3 :
  same_but_counters w1 w2 -> same_but_counters w2 w3 -> same_but_counters w1 w3.
Proof.
  intros (? & ? & ? & ? & H12) (? & ? & ? & ? & H23).
  repeat split; try congruence.
Qed.

Lemma frames_ret {A} (a : A) : frames (ret a).
Proof. intros w. apply same_but_counters_refl. Qed.

Lemma frames_bind {A B} (m : M A) (k : A -> M B) :
  frames m -> (forall a, frames (k a)) -> frames (bind m k).
Proof.
  intros Hm Hk w. unfold bind. specialize (Hm w). destruct (m w) as [a w1].
  eapply same_but_counters_trans; [exact Hm | apply Hk].
Qed.

Lemma frames_get {A} (f : world -> A) : frames (get f).
Proof. intros w. apply same_but_counters_refl. Qed.

Lemma frames_now : frames (now_UnixMicro env).
Proof. intros w. apply same_but_counters_refl. Qed.

Lemma frames_emit ev : frames (emit ev).
Proof. intros w. repeat split. Qed.

Lemma frames_call ev : frames (call env ev).
Proof. intros w. repeat split. Qed.

Lemma frames_on_conn {A} (f : connM A) : frames (on_conn f).
Proof. intros w. unfold on_conn. destruct (f (trace w)). repeat split. Qed.

Lemma frames_exec_delete userID courseID : frames (Wsm.exec_delete env userID courseID).
Proof. intros w. repeat split. Qed.

Lemma frames_AddUint32_Selected l : frames (AddUint32_Selected l).
Proof.
  intros w. repeat split. intros l'. cbn. unfold heap_update.
  now destruct (decide (l' = l)) as [->|].
Qed.

Lemma frames_decrement_Selected l : frames (decrement_Selected l).
Proof.
  intros w. unfold decrement_Selected. destruct (bool_decide _); repeat split.
  intros l'. cbn. unfold heap_update. now destruct (decide (l' = l)) as [->|].
Qed.

End Frames.

Ltac frames_step :=
  first
    [ apply frames_ret | apply frames_get | apply frames_now | apply frames_on_conn
    | apply frames_exec_delete | apply frames_AddUint32_Selected
    | apply frames_decrement_Selected | apply frames_emit | apply frames_call
    | apply frames_bind; [|intros ?]
    | match goal with
      | |- frames (match ?x with _ => _ end) => destruct x
      end ].

Ltac frames_tac :=
  unfold Wsm.report, Wsm.admission, Wsm.unchoose_removed, sendSelectedUpdate,
    decrementSelectedAndPropagate, writeText, ctx_Done;
  repeat frames_step.

(** X16: the three handlers of the Y and N frames change nothing of the
    shared state but the trace and the [Selected] counters: the mode, the
    catalogue, the registry of sessions, the configuration and every
    other field of every course are as before, whatever the frame and
    whatever the environment answers. *)
Theorem handlers_change_counters_only env pg reportError mar userID session
    (ucg : userCourseGroupsT) (b : WsmY.bookkeeping) w :
  same_but_counters w
    (Wsm.messageChooseCourse env pg reportError mar userID session ucg w).2 /\
  same_but_counters w
    (Wsm.messageUnchooseCourse env reportError mar userID session ucg w).2 /\
  same_but_counters w (WsmY.messageChooseCourse env pg mar userID b w).2.
Proof.
  split; [|split].
  - revert w. change (frames (Wsm.messageChooseCourse env pg reportError mar userID session ucg)).
    unfold Wsm.messageChooseCourse, Wsm.chooseCourse_closure, Wsm.chooseCourse_tx.
    frames_tac.
  - revert w. change (frames (Wsm.messageUnchooseCourse env reportError mar userID session ucg)).
    unfold Wsm.messageUnchooseCourse. frames_tac.
  - revert w. change (frames (WsmY.messageChooseCourse env pg mar userID b)).
    unfold WsmY.messageChooseCourse, WsmY.chooseCourse_closure, WsmY.chooseCourse_tx.
    frames_tac.
Qed.


Ltac prefix_of t base :=
  match t with
  | _ => let _ := match goal with _ => constr_eq t base end in constr:(@nil event)
  | ?x :: ?t' => let d := prefix_of t' base in constr:(x :: d)
  | ?xs ++ ?t' => let d := prefix_of t' base in constr:(xs ++ d)
  end.

(** ** The paths of a Y frame *)

Section Paths.
Variables (env : envT) (pg : string) (reportError : reportErrorT).
Variables (verb mar1 userID session : string) (w : world).
Variables (courseID : Z) (course : loc).

Section Conflict.
Hypothesis Hmode : state w = 2%N.
Hypothesis Hctx : io_err env (EvCtxDone :: trace w) = None.
Hypothesis Hres : resolve w mar1 = Some course.

Let reply : list event :=
  EvWriteText ("R " +:+ mar1 +:+ " :Group conflict") :: EvCtxDone :: trace w.
Let returned : option error :=
  match io_err env reply with
  | Some err => Some (Wrap errCannotSend err)
  | None => None
  end.

Lemma choose_conflict ucg :
  Group (heap w course) ∈ ucg ->
  Wsm.messageChooseCourse env pg reportError [verb; mar1] userID session ucg w
  = ((returned, ucg), set_trace reply w).
Proof.
  intros Hg. unfold resolve in Hres. subst returned reply.
  unfold Wsm.messageChooseCourse. rewrite bind_get, (mode_open _ Hmode).
  unfold ctx_Done. rewrite bind_call, Hctx.
  destruct (Strconv.ParseInt mar1) as [id|]; [|discriminate].
  rewrite bind_get. world_simpl.
  destruct (courses w !! id) as [[c|]|]; try discriminate. injection Hres as ->.
  rewrite bind_get. world_simpl. rewrite (bool_decide_eq_true_2 _ Hg).
  run_M. now destruct (io_err env (EvWriteText _ :: _)).
Qed.

Lemma chooseY_conflict b :
  Group (heap w course) ∈ WsmY.userCourseGroups b ->
  WsmY.messageChooseCourse env pg [verb; mar1] userID b w
  = ((returned, b), set_trace reply w).
Proof.
  intros Hg. unfold resolve in Hres. subst returned reply.
  unfold WsmY.messageChooseCourse. rewrite bind_get, (mode_open _ Hmode).
  unfold ctx_Done. rewrite bind_call, Hctx.
  destruct (Strconv.ParseInt mar1) as [id|]; [|discriminate].
  rewrite bind_get. world_simpl.
  destruct (courses w !! id) as [[c|]|]; try discriminate. injection Hres as ->.
  rewrite bind_get. world_simpl. rewrite (bool_decide_eq_true_2 _ Hg).
  run_M. now destruct (io_err env (EvWriteText _ :: _)).
Qed.
End Conflict.

Section Admission.
Hypothesis Hreach : reaches_admission env w userID mar1 courseID course.

Let declined : list event :=
  EvUnlock course :: EvLock course :: t_insert env w userID courseID.
Let granted : list event :=
  EvUnlock course :: EvAddSelected course 1 :: EvLock course
    :: t_insert env w userID courseID.

Lemma choose_full ucg :
  Group (heap w course) ∉ ucg ->
  (Max (heap w course) <= Selected (heap w course))%N ->
  io_err env (EvRollback :: declined) = None ->
  exists returned tail,
    Wsm.messageChooseCourse env pg reportError [verb; mar1] userID session ucg w
    = ((returned, ucg),
       set_trace (map EvConn tail ++ EvRollback
                    :: EvWriteText ("R " +:+ mar1 +:+ " :Full")
                    :: EvRollback :: declined) w).
Proof.
  destruct Hreach as (Hmode & Hctx & Hid & Hcourse & Hbegin & Hinsert).
  intros Hgroup Hfull Hroll. subst declined. unfold t_insert, t_begin in *.
  apply N.ltb_ge in Hfull.
  unfold Wsm.messageChooseCourse. rewrite bind_get, (mode_open _ Hmode).
  unfold ctx_Done. rewrite bind_call, Hctx, Hid, bind_get.
  world_simpl. rewrite Hcourse, bind_get. world_simpl.
  rewrite (bool_decide_eq_false_2 _ Hgroup).
  unfold Wsm.chooseCourse_closure, Wsm.chooseCourse_tx, Wsm.admission, Wsm.report,
    now_UnixMicro.
  run_M. rewrite Hbegin. world_simpl. rewrite Hinsert. world_simpl.
  rewrite Hfull. cbn. rewrite Hroll. cbn.
  destruct (io_err env (EvWriteText _ :: _)) as [errW|]; cbn;
    (destruct (io_err env (EvRollback :: EvConn _ :: _)) as [errR|];
     [destruct (errors_Is errR ErrTxClosed); cbn;
      [ eexists _, []; reflexivity
      | destruct (reportError _ _) as [r evs]; eexists _, evs; reflexivity ]
     | eexists _, []; reflexivity ]).
Qed.

Lemma chooseY_full b :
  Group (heap w course) ∉ WsmY.userCourseGroups b ->
  (Max (heap w course) <= Selected (heap w course))%N ->
  io_err env (EvRollback :: declined) = None ->
  exists returned,
    WsmY.messageChooseCourse env pg [verb; mar1] userID b w
    = ((returned, b),
       set_trace (EvRollback :: EvWriteText ("R " +:+ mar1 +:+ " :Full")
                    :: EvRollback :: declined) w).
Proof.
  destruct Hreach as (Hmode & Hctx & Hid & Hcourse & Hbegin & Hinsert).
  intros Hgroup Hfull Hroll. subst declined. unfold t_insert, t_begin in *.
  apply N.ltb_ge in Hfull.
  unfold WsmY.messageChooseCourse. rewrite bind_get, (mode_open _ Hmode).
  unfold ctx_Done. rewrite bind_call, Hctx, Hid, bind_get.
  world_simpl. rewrite Hcourse, bind_get. world_simpl.
  rewrite (bool_decide_eq_false_2 _ Hgroup).
  unfold WsmY.chooseCourse_closure, WsmY.chooseCourse_tx, Wsm.admission,
    now_UnixMicro.
  run_M. rewrite Hbegin. world_simpl. rewrite Hinsert. world_simpl.
  rewrite Hfull. cbn. rewrite Hroll. cbn.
  destruct (io_err env (EvWriteText _ :: _)) as [errW|]; cbn;
    (destruct (io_err env (EvRollback :: EvConn _ :: _)) as [errR|];
     [destruct (errors_Is errR ErrTxClosed); cbn|]; eexists; reflexivity).
Qed.

Lemma heap_update_same h l c : heap_update h l c l = c.
Proof. unfold heap_update. now rewrite decide_True. Qed.

Let seated : loc -> courseT :=
  heap_update (heap w) course
    (with_Selected (heap w course) (uint32_add (Selected (heap w course)) 1)).

Ltac split_leaves :=
  repeat (match goal with
          | |- context [match io_err env ?t with _ => _ end] =>
              destruct (io_err env t)
          | |- context [errors_Is ?e ErrTxClosed] =>
              destruct (errors_Is e ErrTxClosed)
          | |- context [reportError ?m ?t] => destruct (reportError m t)
          | |- context [if PropagateImmediate w then _ else _] =>
              destruct (PropagateImmediate w)
          end; cbn).

Ltac give_newer base :=
  lazymatch goal with
  | |- exists returned newer, (?r, ?g, ?W) = _ =>
      let t := eval cbn [trace set_trace] in (trace W) in
      let d := prefix_of t base in
      exists r, d; rewrite <- ?app_assoc; reflexivity
  end.

Lemma choose_grant ucg :
  Group (heap w course) ∉ ucg ->
  (Selected (heap w course) < Max (heap w course))%N ->
  io_err env (EvCommit :: EvGoPropagateSelectedUpdate course :: granted) = None ->
  exists returned newer,
    Wsm.messageChooseCourse env pg reportError [verb; mar1] userID session ucg w
    = ((returned, {[Group (heap w course)]} ∪ ucg),
       set_trace (newer ++ EvWriteText ("Y " +:+ mar1) :: EvCommit
                    :: EvGoPropagateSelectedUpdate course :: granted)
         (set_heap seated w)).
Proof.
  destruct Hreach as (Hmode & Hctx & Hid & Hcourse & Hbegin & Hinsert).
  intros Hgroup Hfree Hcommit. subst granted seated. unfold t_insert, t_begin in *.
  apply N.ltb_lt in Hfree.
  unfold Wsm.messageChooseCourse. rewrite bind_get, (mode_open _ Hmode).
  unfold ctx_Done. rewrite bind_call, Hctx, Hid, bind_get.
  world_simpl. rewrite Hcourse, bind_get. world_simpl.
  rewrite (bool_decide_eq_false_2 _ Hgroup).
  unfold Wsm.chooseCourse_closure, Wsm.chooseCourse_tx, Wsm.admission, Wsm.report,
    AddUint32_Selected, sendSelectedUpdate, now_UnixMicro.
  run_M. rewrite Hbegin. world_simpl. rewrite Hinsert. world_simpl.
  rewrite Hfree. cbn. rewrite Hcommit. cbn. rewrite heap_update_same. cbn.
  rewrite ?Hcourse.
  set (base := EvWriteText ("Y " +:+ mar1) :: _).
  destruct (io_err env base) as [errY|]; cbn.
  - split_leaves; give_newer base.
  - destruct (PropagateImmediate w); cbn; rewrite ?Hcourse; cbn;
      split_leaves; give_newer base.
Qed.

Lemma chooseY_grant b :
  Group (heap w course) ∉ WsmY.userCourseGroups b ->
  (Selected (heap w course) < Max (heap w course))%N ->
  io_err env (EvCommit :: EvGoPropagateSelectedUpdate course :: granted) = None ->
  exists returned newer,
    WsmY.messageChooseCourse env pg [verb; mar1] userID b w
    = ((returned,
        WsmY.mkBook ({[Group (heap w course)]} ∪ WsmY.userCourseGroups b)
          (WsmY.incr_type (Type_ (heap w course)) (WsmY.userCourseTypes b))),
       set_trace (newer ++ EvWriteText ("Y " +:+ mar1) :: EvCommit
                    :: EvGoPropagateSelectedUpdate course :: granted)
         (set_heap seated w)).
Proof.
  destruct Hreach as (Hmode & Hctx & Hid & Hcourse & Hbegin & Hinsert).
  intros Hgroup Hfree Hcommit. subst granted seated. unfold t_insert, t_begin in *.
  apply N.ltb_lt in Hfree.
  unfold WsmY.messageChooseCourse. rewrite bind_get, (mode_open _ Hmode).
  unfold ctx_Done. rewrite bind_call, Hctx, Hid, bind_get.
  world_simpl. rewrite Hcourse, bind_get. world_simpl.
  rewrite (bool_decide_eq_false_2 _ Hgroup).
  unfold WsmY.chooseCourse_closure, WsmY.chooseCourse_tx, Wsm.admission,
    AddUint32_Selected, sendSelectedUpdate, now_UnixMicro.
  run_M. rewrite Hbegin. world_simpl. rewrite Hinsert. world_simpl.
  rewrite Hfree. cbn. rewrite Hcommit. cbn. rewrite heap_update_same. cbn.
  rewrite ?Hcourse.
  set (base := EvWriteText ("Y " +:+ mar1) :: _).
  destruct (io_err env base) as [errY|]; cbn.
  - split_leaves; give_newer base.
  - destruct (PropagateImmediate w); cbn; rewrite ?Hcourse; cbn;
      split_leaves; give_newer base.
Qed.
End Admission.
End Paths.


Lemma bind_emit {B} ev (k : unit -> M B) w :
  bind (emit ev) k w = k tt (set_trace (ev :: trace w) w).
Proof. reflexivity. Qed.

Lemma bind_AddUint32_Selected {B} l (k : unit -> M B) w :
  bind (AddUint32_Selected l) k w
  = k tt (set_trace (EvAddSelected l 1 :: trace w)
            (set_heap (heap_update (heap w) l
                         (with_Selected (heap w l) (uint32_add (Selected (heap w l)) 1))) w)).
Proof. reflexivity. Qed.

Lemma bind_if {A B} (c : bool) (m1 m2 : M A) (k : A -> M B) w :
  bind (if c then m1 else m2) k w = if c then bind m1 k w else bind m2 k w.
Proof. now destruct c. Qed.

Section IncrementIssued.
Variables (env : envT) (pg : string) (reportError : reportErrorT).
Variables (mar : list string) (userID session : string) (w : world).
Variables (newer older : list event) (l : loc).

Lemma choose_increment_issued ucg :
  trace (Wsm.messageChooseCourse env pg reportError mar userID session ucg w).2
    = newer ++ EvAddSelected l 1 :: older ++ trace w ->
  exists verb mar1 courseID,
    mar = [verb; mar1] /\ reaches_admission env w userID mar1 courseID l /\
    (Group (heap w l) ∉ ucg) /\
    (Selected (heap w l) < Max (heap w l))%N /\
    older ++ trace w = EvLock l :: t_insert env w userID courseID.
Proof.
  unfold Wsm.messageChooseCourse. rewrite bind_get.
  destruct (negb (state w =? 2)%N) eqn:Hmode;
    [early_exit is_increment (@nil event)|].
  apply negb_false_iff, N.eqb_eq in Hmode.
  unfold ctx_Done. rewrite bind_call.
  destruct (io_err env (EvCtxDone :: trace w)) as [ctxErr|] eqn:Hctx;
    [early_exit is_increment [EvCtxDone]|].
  destruct mar as [|verb [|mar1 [|extra mar']]];
    try early_exit is_increment [EvCtxDone].
  destruct (Strconv.ParseInt mar1) as [courseID|] eqn:Hid;
    [|early_exit is_increment [EvCtxDone]].
  rewrite bind_get. world_simpl.
  destruct (courses w !! courseID) as [[course|]|] eqn:Hcourse;
    try early_exit is_increment [EvCtxDone].
  rewrite bind_get. world_simpl.
  destruct (bool_decide (Group (heap w course) ∈ ucg)) eqn:Hgroup;
    [early_exit is_increment [EvCtxDone]|].
  apply bool_decide_eq_false in Hgroup.
  unfold Wsm.chooseCourse_closure. rewrite bind_call. world_simpl.
  destruct (io_err env (EvBegin :: EvCtxDone :: trace w)) as [beginErr|] eqn:Hbegin;
    [early_exit is_increment [EvBegin; EvCtxDone]|].
  unfold Wsm.chooseCourse_tx.
  rewrite bind_assoc, bind_now, bind_assoc, bind_call. world_simpl.
  set (ins := EvInsertChoice (io_int env (EvBegin :: EvCtxDone :: trace w)) userID courseID).
  destruct (io_err env (ins :: EvBegin :: EvCtxDone :: trace w)) as [insErr|] eqn:Hinsert;
    [early_exit is_increment [ins; EvBegin; EvCtxDone]|].
  unfold Wsm.admission.
  rewrite !bind_assoc, bind_emit, bind_assoc, bind_get, bind_if. world_simpl.
  destruct (Selected (heap w course) <? Max (heap w course))%N eqn:Hfree;
    [|early_exit is_increment [EvLock course; ins; EvBegin; EvCtxDone]].
  apply N.ltb_lt in Hfree.
  rewrite !bind_assoc, bind_AddUint32_Selected. world_simpl.
  match goal with
  | |- trace (?m ?w3).2 = _ -> _ =>
      assert (Hrest : silent is_increment m) by silent_tac;
      destruct (Hrest w3) as (delta & -> & Hdelta)
  end.
  world_simpl. intros Heq.
  apply (split_above_base is_increment delta _ [EvLock course; ins; EvBegin; EvCtxDone])
    in Heq as (-> & Hev & ->); [|assumption|repeat constructor|reflexivity].
  injection Hev as ->.
  exists verb, mar1, courseID. repeat split; assumption.
Qed.
End IncrementIssued.


(** ** More about the endpoint *)

Section WsExtra.
Import Ws.

(** X13: when the request has no usable session cookie, [handleWs] writes
    one frame ([U] when the cookie is missing, [E :Error fetching cookie]
    for any other error), closes the connection and returns: the database
    is not asked and [handleConn] is not entered. *)
Theorem handleWs_missing_cookie env req w value err :
  io_err env (EvAccept :: trace w) = None ->
  Cookie req "session" = (value, Some err) ->
  let answer := if errors_Is err ErrNoCookie then "U" else "E :Error fetching cookie" in
  handleWs env req w
  = (tt, set_trace (EvCloseNow :: EvWriteText answer :: EvAccept :: trace w) w).
Proof.
  intros Haccept Hcookie answer. subst answer. unfold handleWs.
  rewrite bind_call, Haccept, Hcookie. now destruct (errors_Is err ErrNoCookie).
Qed.

Lemma handleWs_missing_cookie_witness :
  handleWs env_ok (mkRequest (fun _ => ("", Some ErrNoCookie))) (sample_world 2)
  = (tt, set_trace [EvCloseNow; EvWriteText "U"; EvAccept] (sample_world 2)).
Proof.
  exact (handleWs_missing_cookie env_ok
           (mkRequest (fun _ => ("", Some ErrNoCookie))) (sample_world 2)
           "" ErrNoCookie eq_refl eq_refl).
Defined.

(** X14: once the upgrade has been accepted, [handleWs] closes the
    connection, as the last thing it does and exactly once, on every
    path. *)
Theorem handleWs_always_closes env req w :
  io_err env (EvAccept :: trace w) = None ->
  exists delta,
    handleWs env req w
    = (tt, set_trace (EvCloseNow :: delta ++ EvAccept :: trace w) w) /\
    Forall (fun ev => ev <> EvCloseNow /\ ev <> EvAccept) delta.
Proof.
  intros Haccept. unfold handleWs. rewrite bind_call, Haccept.
  assert (Hgive : forall t delta,
            Forall (fun ev => ev <> EvCloseNow /\ ev <> EvAccept) delta ->
            t = delta ++ EvAccept :: trace w ->
            exists delta',
              (tt, set_trace (EvCloseNow :: t) w)
              = (tt, set_trace (EvCloseNow :: delta' ++ EvAccept :: trace w) w) /\
              Forall (fun ev => ev <> EvCloseNow /\ ev <> EvAccept) delta').
  { intros t delta Hall ->. eauto. }
  destruct (Cookie req "session") as [cookie [err|]].
  - destruct (errors_Is err ErrNoCookie);
      (eapply (Hgive _ [_]); [|reflexivity]); repeat constructor; discriminate.
  - unfold query_session, handleConn, c_Write. run_M.
    destruct (io_err env (EvQuerySession _ :: _)) as [qerr|]; cbn;
      [destruct (errors_Is qerr ErrNoRows); cbn|];
      (destruct (io_err env (EvHandleConn _ _ :: _)) as [herr|]; cbn;
       lazymatch goal with
       | |- exists delta, (tt, ?W) = _ /\ _ =>
           let t := eval cbn [trace set_trace] in (trace W) in
           lazymatch t with
           | EvCloseNow :: ?t' =>
               let d := prefix_of t' (EvAccept :: trace w) in
               apply (Hgive t' d); [repeat constructor; discriminate | reflexivity]
           end
       end).
Qed.

Lemma handleWs_always_closes_witness :
  exists delta,
    handleWs env_ok (mkRequest (fun _ => ("c", None))) (sample_world 2)
    = (tt, set_trace (EvCloseNow :: delta ++ [EvAccept]) (sample_world 2)) /\
    Forall (fun ev => ev <> EvCloseNow /\ ev <> EvAccept) delta.
Proof.
  exact (handleWs_always_closes env_ok (mkRequest (fun _ => ("c", None)))
           (sample_world 2) eq_refl).
Defined.

(** X15: for a cookie that the sessions table knows, [handleWs] writes no
    frame of its own: it enters [handleConn] with the cookie's value and
    the user id the query returned, logs the error if there is one, and
    closes the connection. *)
Theorem handleWs_authenticated env req w cookie :
  io_err env (EvAccept :: trace w) = None ->
  Cookie req "session" = (cookie, None) ->
  let asked := EvQuerySession cookie :: EvAccept :: trace w in
  io_err env asked = None ->
  let entered := EvHandleConn cookie (io_str env asked) :: asked in
  handleWs env req w
  = (tt, set_trace
           (EvCloseNow :: match io_err env entered with
                          | Some err => [EvLog err]
                          | None => []
                          end ++ entered) w).
Proof.
  intros Haccept Hcookie asked Hquery entered. subst entered asked.
  unfold handleWs. rewrite bind_call, Haccept, Hcookie.
  unfold query_session, handleConn. run_M. rewrite Hquery. cbn.
  now destruct (io_err env (EvHandleConn _ _ :: _)).
Qed.

Lemma handleWs_authenticated_witness :
  handleWs env_ok (mkRequest (fun _ => ("c", None))) (sample_world 2)
  = (tt, set_trace [EvCloseNow; EvHandleConn "c" ""; EvQuerySession "c"; EvAccept]
           (sample_world 2)).
Proof.
  exact (handleWs_authenticated env_ok (mkRequest (fun _ => ("c", None)))
           (sample_world 2) "c" eq_refl eq_refl eq_refl).
Defined.
End WsExtra.


(** ** Replies as frames *)

Section Text.
Import Split Wire.

Lemma frame_app s1 s2 : frame (s1 +:+ s2) = frame s1 ++ frame s2.
Proof.
  induction s1 as [|a s1 IH]; [reflexivity|].
  change (frame (String a s1 +:+ s2)) with (byte_of_ascii a :: frame (s1 +:+ s2)).
  now rewrite IH.
Qed.

Lemma string_of_frame s : string_of_bytes (frame s) = s.
Proof. apply String.string_of_list_byte_of_string. Qed.

Lemma frame_String a s : frame (String a s) = byte_of_ascii a :: frame s.
Proof. reflexivity. Qed.

Lemma digit_byte a d :
  Strconv.digit a = Some d ->
  Byte.eqb (byte_of_ascii a) SPACE = false /\ Byte.eqb (byte_of_ascii a) COLON = false.
Proof.
  unfold Strconv.digit. intros H.
  split; apply byte_eqb_false; intros Hb;
    apply (f_equal ascii_of_byte) in Hb; rewrite ascii_of_byte_of_ascii in Hb;
    subst a; discriminate H.
Qed.

Lemma digits_plain s : forall acc n,
  Strconv.digits s acc = Some n -> plain (frame s).
Proof.
  induction s as [|a s IH]; intros acc n; cbn [Strconv.digits].
  - constructor.
  - destruct (Strconv.digit a) as [d|] eqn:Hd; [|discriminate].
    intros H. rewrite frame_String. apply Forall_cons.
    split; [exact (proj1 (digit_byte _ _ Hd)) | exact (IH _ _ H)].
Qed.

Lemma ParseUint_follower s n :
  Strconv.ParseUint s = Some n -> follower (frame s).
Proof.
  unfold Strconv.ParseUint. destruct s as [|a s]; [discriminate|].
  destruct (Strconv.digits (String a s) 0) as [m|] eqn:Hd; [|discriminate].
  intros _. split; [eapply digits_plain; eassumption|].
  exists (byte_of_ascii a), (frame s). split; [reflexivity|].
  cbn [Strconv.digits] in Hd. destruct (Strconv.digit a) eqn:Ha; [|discriminate].
  exact (proj2 (digit_byte _ _ Ha)).
Qed.

(** An argument that [strconv.ParseInt] accepts is one field on the wire. *)
Lemma ParseInt_follower s n :
  Strconv.ParseInt s = Some n -> follower (frame s).
Proof.
  unfold Strconv.ParseInt. destruct s as [|a s]; [discriminate|].
  destruct (bool_decide (a = "+"%char)) eqn:Hplus;
    [|destruct (bool_decide (a = "-"%char)) eqn:Hminus].
  - apply bool_decide_eq_true in Hplus. subst a.
    destruct (Strconv.ParseUint s) as [un|] eqn:Hu; [|discriminate]. intros _.
    destruct (ParseUint_follower _ _ Hu) as [Hp _].
    split; [constructor; [reflexivity | exact Hp]|].
    eexists _, _. split; reflexivity.
  - apply bool_decide_eq_true in Hminus. subst a.
    destruct (Strconv.ParseUint s) as [un|] eqn:Hu; [|discriminate]. intros _.
    destruct (ParseUint_follower _ _ Hu) as [Hp _].
    split; [constructor; [reflexivity | exact Hp]|].
    eexists _, _. split; reflexivity.
  - destruct (Strconv.ParseUint (String a s)) as [un|] eqn:Hu; [|discriminate].
    intros _. eapply ParseUint_follower; eassumption.
Qed.

(** X4: the replies that the Y and N handlers write for an argument they
    have accepted as a course id ([Y <id>], [N <id>], [R <id> :<reason>])
    are well-formed frames: [splitMsg] returns the verb, the id as it was
    sent and the reason, whatever the reason contains. *)
Theorem replies_split_back mar1 courseID reason :
  Strconv.ParseInt mar1 = Some courseID ->
  splitMsg (frame ("Y " +:+ mar1)) = Ok ["Y"; mar1] /\
  splitMsg (frame ("N " +:+ mar1)) = Ok ["N"; mar1] /\
  splitMsg (frame ("R " +:+ mar1 +:+ " :" +:+ reason)) = Ok ["R"; mar1; reason].
Proof.
  intros Hid. apply ParseInt_follower in Hid.
  assert (HY : plain (frame "Y")) by (repeat constructor).
  assert (HN : plain (frame "N")) by (repeat constructor).
  assert (HR : plain (frame "R")) by (repeat constructor).
  repeat split.
  - change ("Y " +:+ mar1) with ("Y" +:+ " " +:+ mar1).
    rewrite !frame_app. change (frame " ") with [SPACE].
    change (frame " :") with [SPACE; COLON]. cbn [app].
    pose proof (splitMsg_of_join (frame "Y") [frame mar1] HY) as H.
    cbn [join map concat] in H. rewrite app_nil_r in H.
    rewrite H by (constructor; [assumption | constructor]).
    cbn [map]. now rewrite !string_of_frame.
  - change ("N " +:+ mar1) with ("N" +:+ " " +:+ mar1).
    rewrite !frame_app. change (frame " ") with [SPACE].
    change (frame " :") with [SPACE; COLON]. cbn [app].
    pose proof (splitMsg_of_join (frame "N") [frame mar1] HN) as H.
    cbn [join map concat] in H. rewrite app_nil_r in H.
    rewrite H by (constructor; [assumption | constructor]).
    cbn [map]. now rewrite !string_of_frame.
  - change ("R " +:+ mar1 +:+ " :" +:+ reason)
      with ("R" +:+ " " +:+ mar1 +:+ " :" +:+ reason).
    rewrite !frame_app. change (frame " ") with [SPACE].
    change (frame " :") with [SPACE; COLON]. cbn [app].
    pose proof (splitMsg_of_join_trailing (frame "R") [frame mar1] (frame reason) HR) as H.
    unfold join_trailing in H. cbn [join map concat] in H.
    rewrite app_nil_r, <- !app_assoc in H. cbn [app] in H.
    rewrite H by (constructor; [assumption | constructor]).
    cbn [map app]. now rewrite !string_of_frame.
Qed.

Lemma replies_split_back_witness :
  splitMsg (frame "Y 7") = Ok ["Y"; "7"] /\
  splitMsg (frame "N 7") = Ok ["N"; "7"] /\
  splitMsg (frame "R 7 :Full") = Ok ["R"; "7"; "Full"].
Proof. exact (replies_split_back "7" 7 "Full" eq_refl). Defined.

(** X5: the [HI :<ids>] frame of [messageHello] splits into the verb and
    the comma-separated list, whatever the ids are, the empty list
    included. *)
Theorem HI_splits_back (courseIDs : list string) :
  splitMsg (frame ("HI :" +:+ strings_Join courseIDs ","))
  = Ok ["HI"; strings_Join courseIDs ","].
Proof.
  change ("HI :" +:+ strings_Join courseIDs ",")
    with ("HI" +:+ " :" +:+ strings_Join courseIDs ",").
  rewrite !frame_app. change (frame " :") with [SPACE; COLON]. cbn [app].
  pose proof (splitMsg_of_join_trailing (frame "HI") [] (frame (strings_Join courseIDs ","))) as H.
  unfold join_trailing in H. cbn [join map concat] in H. rewrite app_nil_r in H.
  rewrite H by (repeat constructor). cbn [map app]. now rewrite !string_of_frame.
Qed.
End Text.


Section IncrementIssuedY.
Variables (env : envT) (pg : string).
Variables (mar : list string) (userID : string) (w : world).
Variables (newer older : list event) (l : loc).

Lemma chooseY_increment_issued b :
  trace (WsmY.messageChooseCourse env pg mar userID b w).2
    = newer ++ EvAddSelected l 1 :: older ++ trace w ->
  exists verb mar1 courseID,
    mar = [verb; mar1] /\ reaches_admission env w userID mar1 courseID l /\
    (Group (heap w l) ∉ WsmY.userCourseGroups b) /\
    (Selected (heap w l) < Max (heap w l))%N /\
    older ++ trace w = EvLock l :: t_insert env w userID courseID.
Proof.
  unfold WsmY.messageChooseCourse. rewrite bind_get.
  destruct (negb (state w =? 2)%N) eqn:Hmode;
    [early_exit is_increment (@nil event)|].
  apply negb_false_iff, N.eqb_eq in Hmode.
  unfold ctx_Done. rewrite bind_call.
  destruct (io_err env (EvCtxDone :: trace w)) as [ctxErr|] eqn:Hctx;
    [early_exit is_increment [EvCtxDone]|].
  destruct mar as [|verb [|mar1 [|extra mar']]];
    try early_exit is_increment [EvCtxDone].
  destruct (Strconv.ParseInt mar1) as [courseID|] eqn:Hid;
    [|early_exit is_increment [EvCtxDone]].
  rewrite bind_get. world_simpl.
  destruct (courses w !! courseID) as [[course|]|] eqn:Hcourse;
    try early_exit is_increment [EvCtxDone].
  rewrite bind_get. world_simpl.
  destruct (bool_decide (Group (heap w course) ∈ WsmY.userCourseGroups b)) eqn:Hgroup;
    [early_exit is_increment [EvCtxDone]|].
  apply bool_decide_eq_false in Hgroup.
  unfold WsmY.chooseCourse_closure. rewrite bind_call. world_simpl.
  destruct (io_err env (EvBegin :: EvCtxDone :: trace w)) as [beginErr|] eqn:Hbegin;
    [early_exit is_increment [EvBegin; EvCtxDone]|].
  unfold WsmY.chooseCourse_tx.
  rewrite bind_assoc, bind_now, bind_assoc, bind_call. world_simpl.
  set (ins := EvInsertChoice (io_int env (EvBegin :: EvCtxDone :: trace w)) userID courseID).
  destruct (io_err env (ins :: EvBegin :: EvCtxDone :: trace w)) as [insErr|] eqn:Hinsert;
    [early_exit is_increment [ins; EvBegin; EvCtxDone]|].
  unfold Wsm.admission.
  rewrite !bind_assoc, bind_emit, bind_assoc, bind_get, bind_if. world_simpl.
  destruct (Selected (heap w course) <? Max (heap w course))%N eqn:Hfree;
    [|early_exit is_increment [EvLock course; ins; EvBegin; EvCtxDone]].
  apply N.ltb_lt in Hfree.
  rewrite !bind_assoc, bind_AddUint32_Selected. world_simpl.
  match goal with
  | |- trace (?m ?w3).2 = _ -> _ =>
      assert (Hrest : silent is_increment m) by silent_tac;
      destruct (Hrest w3) as (delta & -> & Hdelta)
  end.
  world_simpl. intros Heq.
  apply (split_above_base is_increment delta _ [EvLock course; ins; EvBegin; EvCtxDone])
    in Heq as (-> & Hev & ->); [|assumption|repeat constructor|reflexivity].
  injection Hev as ->.
  exists verb, mar1, courseID. repeat split; assumption.
Qed.
End IncrementIssuedY.

(** ** The outcomes of a Y frame *)

(** X17: a Y frame for a course whose group the session already holds is
    answered [R <id> :Group conflict] and nothing else happens: no
    transaction is begun, no counter and no set of the session changes.
    The handler returns nil, or the error of the write wrapped as a send
    error.  Both handlers of the Y frame. *)
Theorem group_conflict_is_answered env pg reportError verb mar1 userID session
    (b : WsmY.bookkeeping) w course :
  state w = 2%N ->
  io_err env (EvCtxDone :: trace w) = None ->
  resolve w mar1 = Some course ->
  Group (heap w course) ∈ WsmY.userCourseGroups b ->
  let reply :=
    EvWriteText ("R " +:+ mar1 +:+ " :Group conflict") :: EvCtxDone :: trace w in
  let returned :=
    match io_err env reply with
    | Some err => Some (Wrap errCannotSend err)
    | None => None
    end in
  Wsm.messageChooseCourse env pg reportError [verb; mar1] userID session
    (WsmY.userCourseGroups b) w
  = ((returned, WsmY.userCourseGroups b), set_trace reply w) /\
  WsmY.messageChooseCourse env pg [verb; mar1] userID b w
  = ((returned, b), set_trace reply w).
Proof.
  intros Hmode Hctx Hres Hg. split.
  - eapply choose_conflict; eassumption.
  - eapply chooseY_conflict; eassumption.
Qed.

Lemma group_conflict_is_answered_witness :
  let reply := [EvWriteText "R 7 :Group conflict"; EvCtxDone] in
  Wsm.messageChooseCourse env_ok sample_unique_violation (makeReportError env_ok)
    ["Y"; "7"] "alice" "cookie" {["x"]} (sample_world 2)
  = ((None, {["x"]}), set_trace reply (sample_world 2)) /\
  WsmY.messageChooseCourse env_ok sample_unique_violation ["Y"; "7"] "alice"
    (WsmY.mkBook {["x"]} ∅) (sample_world 2)
  = ((None, WsmY.mkBook {["x"]} ∅), set_trace reply (sample_world 2)).
Proof.
  exact (group_conflict_is_answered env_ok sample_unique_violation
           (makeReportError env_ok) "Y" "7" "alice" "cookie"
           (WsmY.mkBook {["x"]} ∅) (sample_world 2) 0%nat
           eq_refl eq_refl eq_refl (elem_of_singleton_2 _ _ eq_refl)).
Defined.

(** X18: a Y frame that reaches the admission critical section of a
    course with no seat left is declined: the counter is not touched, the
    transaction is rolled back and, the rollback done, [R <id> :Full] is
    written; the session's groups are unchanged.  Both handlers of the Y
    frame. *)
Theorem full_course_is_declined env pg reportError verb mar1 userID session
    (b : WsmY.bookkeeping) w courseID course :
  reaches_admission env w userID mar1 courseID course ->
  Group (heap w course) ∉ WsmY.userCourseGroups b ->
  (Max (heap w course) <= Selected (heap w course))%N ->
  let declined :=
    EvUnlock course :: EvLock course :: t_insert env w userID courseID in
  io_err env (EvRollback :: declined) = None ->
  let answered :=
    EvRollback :: EvWriteText ("R " +:+ mar1 +:+ " :Full")
      :: EvRollback :: declined in
  (exists returned tail,
     Wsm.messageChooseCourse env pg reportError [verb; mar1] userID session
       (WsmY.userCourseGroups b) w
     = ((returned, WsmY.userCourseGroups b),
        set_trace (map EvConn tail ++ answered) w)) /\
  (exists returned,
     WsmY.messageChooseCourse env pg [verb; mar1] userID b w
     = ((returned, b), set_trace answered w)).
Proof.
  intros Hreach Hg Hfull declined Hroll answered. split.
  - eapply choose_full; eassumption.
  - eapply chooseY_full; eassumption.
Qed.

Lemma full_course_is_declined_witness :
  let answered :=
    [EvRollback; EvWriteText "R 7 :Full"; EvRollback; EvUnlock 0%nat;
     EvLock 0%nat; EvInsertChoice 0 "alice" 7; EvBegin; EvCtxDone] in
  (exists returned tail,
     Wsm.messageChooseCourse env_ok sample_unique_violation (makeReportError env_ok)
       ["Y"; "7"] "alice" "cookie" ∅ full_world
     = ((returned, ∅), set_trace (map EvConn tail ++ answered) full_world)) /\
  (exists returned,
     WsmY.messageChooseCourse env_ok sample_unique_violation ["Y"; "7"] "alice"
       (WsmY.mkBook ∅ ∅) full_world
     = ((returned, WsmY.mkBook ∅ ∅), set_trace answered full_world)).
Proof.
  assert (Hreach : reaches_admission env_ok full_world "alice" "7" 7 0%nat)
    by (repeat split).
  exact (full_course_is_declined env_ok sample_unique_violation
           (makeReportError env_ok) "Y" "7" "alice" "cookie"
           (WsmY.mkBook ∅ ∅) full_world 7%Z 0%nat
           Hreach (not_elem_of_empty _) (N.le_refl 1) eq_refl).
Defined.

(** X19: a Y frame that reaches the admission critical section of a
    course with a seat left, and whose transaction commits, takes the
    seat: [Selected] grows by one between the Lock and the Unlock, the
    update is propagated, the commit follows, then [Y <id>] is written;
    the course's group is added to the session's groups (and, in the
    later handler, the count of its type grows by one). *)
Theorem free_seat_is_granted env pg reportError verb mar1 userID session
    (b : WsmY.bookkeeping) w courseID course :
  reaches_admission env w userID mar1 courseID course ->
  Group (heap w course) ∉ WsmY.userCourseGroups b ->
  (Selected (heap w course) < Max (heap w course))%N ->
  let granted :=
    EvUnlock course :: EvAddSelected course 1 :: EvLock course
      :: t_insert env w userID courseID in
  io_err env (EvCommit :: EvGoPropagateSelectedUpdate course :: granted) = None ->
  let confirmed :=
    EvWriteText ("Y " +:+ mar1) :: EvCommit
      :: EvGoPropagateSelectedUpdate course :: granted in
  let seated :=
    heap_update (heap w) course
      (with_Selected (heap w course) (uint32_add (Selected (heap w course)) 1)) in
  let groups := {[Group (heap w course)]} ∪ WsmY.userCourseGroups b in
  (exists returned newer,
     Wsm.messageChooseCourse env pg reportError [verb; mar1] userID session
       (WsmY.userCourseGroups b) w
     = ((returned, groups),
        set_trace (newer ++ confirmed) (set_heap seated w))) /\
  (exists returned newer,
     WsmY.messageChooseCourse env pg [verb; mar1] userID b w
     = ((returned,
         WsmY.mkBook groups
           (WsmY.incr_type (Type_ (heap w course)) (WsmY.userCourseTypes b))),
        set_trace (newer ++ confirmed) (set_heap seated w))).
Proof.
  intros Hreach Hg Hfree granted Hcommit confirmed seated groups. split.
  - eapply choose_grant; eassumption.
  - eapply chooseY_grant; eassumption.
Qed.

Lemma free_seat_is_granted_witness :
  let w := sample_world 2 in
  let confirmed :=
    [EvWriteText "Y 7"; EvCommit; EvGoPropagateSelectedUpdate 0%nat;
     EvUnlock 0%nat; EvAddSelected 0%nat 1; EvLock 0%nat;
     EvInsertChoice 0 "alice" 7; EvBegin; EvCtxDone] in
  let seated :=
    heap_update (heap w) 0%nat (mkCourse 7 "Chess" "x" "Enrichment" 1 1) in
  (exists returned newer,
     Wsm.messageChooseCourse env_ok sample_unique_violation (makeReportError env_ok)
       ["Y"; "7"] "alice" "cookie" ∅ w
     = ((returned, {["x"]} ∪ ∅),
        set_trace (newer ++ confirmed) (set_heap seated w))) /\
  (exists returned newer,
     WsmY.messageChooseCourse env_ok sample_unique_violation ["Y"; "7"] "alice"
       (WsmY.mkBook ∅ ∅) w
     = ((returned,
         WsmY.mkBook ({["x"]} ∪ ∅) (WsmY.incr_type "Enrichment" ∅)),
        set_trace (newer ++ confirmed) (set_heap seated w))).
Proof.
  assert (Hreach : reaches_admission env_ok (sample_world 2) "alice" "7" 7 0%nat)
    by (repeat split).
  exact (free_seat_is_granted env_ok sample_unique_violation
           (makeReportError env_ok) "Y" "7" "alice" "cookie"
           (WsmY.mkBook ∅ ∅) (sample_world 2) 7%Z 0%nat
           Hreach (not_elem_of_empty _) eq_refl eq_refl).
Defined.

(** X20: a counter is incremented only for a well-formed Y frame, in open
    mode, for a course of the catalogue whose group the session does not
    hold, after the transaction has begun and the INSERT has succeeded,
    under the course's lock and while [Selected < Max].  Both handlers of
    the Y frame. *)
Theorem increment_only_after_insert env pg reportError mar userID session
    (ucg : userCourseGroupsT) (b : WsmY.bookkeeping) w newer older l :
  (trace (Wsm.messageChooseCourse env pg reportError mar userID session ucg w).2
     = newer ++ EvAddSelected l 1 :: older ++ trace w ->
   exists verb mar1 courseID,
     mar = [verb; mar1] /\ reaches_admission env w userID mar1 courseID l /\
     (Group (heap w l) ∉ ucg) /\
     (Selected (heap w l) < Max (heap w l))%N /\
     older ++ trace w = EvLock l :: t_insert env w userID courseID) /\
  (trace (WsmY.messageChooseCourse env pg mar userID b w).2
     = newer ++ EvAddSelected l 1 :: older ++ trace w ->
   exists verb mar1 courseID,
     mar = [verb; mar1] /\ reaches_admission env w userID mar1 courseID l /\
     (Group (heap w l) ∉ WsmY.userCourseGroups b) /\
     (Selected (heap w l) < Max (heap w l))%N /\
     older ++ trace w = EvLock l :: t_insert env w userID courseID).
Proof.
  split.
  - apply choose_increment_issued.
  - apply chooseY_increment_issued.
Qed.

Lemma increment_only_after_insert_witness :
  exists verb mar1 courseID,
    ["Y"; "7"] = [verb; mar1] /\
    reaches_admission env_ok (sample_world 2) "alice" mar1 courseID 0%nat /\
    (Group (heap (sample_world 2) 0%nat) ∉ (∅ : userCourseGroupsT)) /\
    (Selected (heap (sample_world 2) 0%nat) < Max (heap (sample_world 2) 0%nat))%N /\
    [EvLock 0%nat; EvInsertChoice 0 "alice" 7; EvBegin; EvCtxDone] ++ []
    = EvLock 0%nat :: t_insert env_ok (sample_world 2) "alice" courseID.
Proof.
  exact (proj1 (increment_only_after_insert env_ok sample_unique_violation
                  (makeReportError env_ok) ["Y"; "7"] "alice" "cookie" ∅
                  (WsmY.mkBook ∅ ∅) (sample_world 2)
                  [EvRollback; EvWriteText "M 7 1"; EvWriteText "Y 7"; EvCommit;
                   EvGoPropagateSelectedUpdate 0%nat; EvUnlock 0%nat]
                  [EvLock 0%nat; EvInsertChoice 0 "alice" 7; EvBegin; EvCtxDone]
                  0%nat) eq_refl).
Defined.

(** ** Requests that are turned away at the door *)

(** X21: a request that finds its context done is not served: the handler
    returns the context's error wrapped ([errContextCancelled] in
    wsm.go, [errContextCanceled] in the later handler) and does nothing
    else.  For Y and N the mode is tested first, so this is for open
    mode; HELLO tests the context first. *)
Theorem cancelled_context_ends_request env pg reportError choices mar userID
    session (ucg : userCourseGroupsT) (b : WsmY.bookkeeping) w e :
  io_err env (EvCtxDone :: trace w) = Some e ->
  let polled := set_trace (EvCtxDone :: trace w) w in
  Hello.messageHello env choices reportError mar userID session w
  = (Some (Wrap errContextCancelled e), polled) /\
  (state w = 2%N ->
   Wsm.messageChooseCourse env pg reportError mar userID session ucg w
   = ((Some (Wrap errContextCancelled e), ucg), polled) /\
   Wsm.messageUnchooseCourse env reportError mar userID session ucg w
   = ((Some (Wrap errContextCancelled e), ucg), polled) /\
   WsmY.messageChooseCourse env pg mar userID b w
   = ((Some (Wrap errContextCanceled e), b), polled)).
Proof.
  intros Hctx polled. subst polled. split; [|intros Hmode; repeat split].
  - unfold Hello.messageHello, ctx_Done. now rewrite bind_call, Hctx.
  - unfold Wsm.messageChooseCourse, ctx_Done.
    now rewrite bind_get, (mode_open _ Hmode), bind_call, Hctx.
  - unfold Wsm.messageUnchooseCourse, ctx_Done.
    now rewrite bind_get, (mode_open _ Hmode), bind_call, Hctx.
  - unfold WsmY.messageChooseCourse, ctx_Done.
    now rewrite bind_get, (mode_open _ Hmode), bind_call, Hctx.
Qed.

Lemma cancelled_context_ends_request_witness :
  let env := env_failing (fun ev => bool_decide (ev = EvCtxDone)) Canceled in
  let w := sample_world 2 in
  Hello.messageHello env (fun _ _ => Hello.mkChoices None None []) (makeReportError env)
    ["Y"; "7"] "alice" "cookie" w
  = (Some (Wrap errContextCancelled Canceled), set_trace [EvCtxDone] w) /\
  (state w = 2%N ->
   Wsm.messageChooseCourse env sample_unique_violation (makeReportError env)
     ["Y"; "7"] "alice" "cookie" ∅ w
   = ((Some (Wrap errContextCancelled Canceled), ∅), set_trace [EvCtxDone] w) /\
   Wsm.messageUnchooseCourse env (makeReportError env) ["Y"; "7"] "alice" "cookie" ∅ w
   = ((Some (Wrap errContextCancelled Canceled), ∅), set_trace [EvCtxDone] w) /\
   WsmY.messageChooseCourse env sample_unique_violation ["Y"; "7"] "alice"
     (WsmY.mkBook ∅ ∅) w
   = ((Some (Wrap errContextCanceled Canceled), WsmY.mkBook ∅ ∅),
      set_trace [EvCtxDone] w)).
Proof.
  exact (cancelled_context_ends_request
           (env_failing (fun ev => bool_decide (ev = EvCtxDone)) Canceled)
           sample_unique_violation
           (makeReportError (env_failing (fun ev => bool_decide (ev = EvCtxDone)) Canceled))
           (fun _ _ => Hello.mkChoices None None []) ["Y"; "7"] "alice" "cookie" ∅
           (WsmY.mkBook ∅ ∅) (sample_world 2) Canceled eq_refl).
Defined.

(** ** The HELLO handler *)

Section HelloFacts.
Import Hello.
Variables (env : envT) (choices : list event -> string -> choicesT).
Variable reportError : reportErrorT.

(** X22: [messageHello] changes nothing of the shared state: it polls the
    context once and after that only writes to the connection. *)
Theorem hello_only_talks mar userID session w :
  exists sent,
    (messageHello env choices reportError mar userID session w).2
    = set_trace (map EvConn sent ++ EvCtxDone :: trace w) w.
Proof.
  unfold messageHello, ctx_Done. rewrite bind_call.
  destruct (io_err env (EvCtxDone :: trace w)); [exists []; reflexivity|].
  rewrite bind_get. world_simpl.
  destruct (query_err _).
  { unfold on_conn. world_simpl. destruct (reportError _ _) as [r evs].
    exists evs. reflexivity. }
  destruct (collect_err _).
  { unfold on_conn. world_simpl. destruct (reportError _ _) as [r evs].
    exists evs. reflexivity. }
  rewrite bind_get. world_simpl. unfold writeText.
  destruct (state w =? 2)%N.
  - rewrite bind_call. world_simpl.
    destruct (io_err env (EvWriteText "START" :: _)).
    + exists [WriteText "START"]. reflexivity.
    + rewrite bind_call. world_simpl.
      destruct (io_err env (EvWriteText _ :: EvWriteText "START" :: _));
        eexists [_; _]; reflexivity.
  - run_M. destruct (io_err env (EvWriteText _ :: _)); eexists [_]; reflexivity.
Qed.

(** X23: when the context is live and the choices are read, [messageHello]
    writes [START] first if selections are open and, [START] delivered or
    not due, [HI :<ids>] with the ids joined by commas; it returns the
    error of the last write wrapped as a send error, or nil.  The fields
    of the HELLO frame it is answering play no role. *)
Theorem hello_greets mar userID session w :
  let polled := EvCtxDone :: trace w in
  io_err env polled = None ->
  let answer := choices polled userID in
  query_err answer = None -> collect_err answer = None ->
  let started :=
    if (state w =? 2)%N then EvWriteText "START" :: polled else polled in
  (state w = 2%N -> io_err env started = None) ->
  let greeted :=
    EvWriteText ("HI :" +:+ strings_Join (courseIDs answer) ",") :: started in
  messageHello env choices reportError mar userID session w
  = (match io_err env greeted with
     | Some err => Some (Wrap errCannotSend err)
     | None => None
     end, set_trace greeted w).
Proof.
  intros polled Hctx answer Hq Hc started Hstart greeted.
  subst greeted started answer polled.
  unfold messageHello, ctx_Done. rewrite bind_call, Hctx, bind_get. world_simpl.
  rewrite Hq, Hc, bind_get. world_simpl. unfold writeText.
  destruct (state w =? 2)%N eqn:Hmode.
  - apply N.eqb_eq in Hmode. specialize (Hstart Hmode).
    rewrite bind_call. world_simpl. rewrite Hstart, bind_call. world_simpl.
    now destruct (io_err env (EvWriteText (_ +:+ _) :: _)).
  - run_M. now destruct (io_err env (EvWriteText _ :: _)).
Qed.
End HelloFacts.

Lemma hello_greets_witness :
  Hello.messageHello env_ok (fun _ _ => Hello.mkChoices None None ["7"; "12"])
    (makeReportError env_ok) ["HELLO"] "alice" "cookie" (sample_world 2)
  = (None, set_trace [EvWriteText "HI :7,12"; EvWriteText "START"; EvCtxDone]
             (sample_world 2)).
Proof.
  exact (hello_greets env_ok (fun _ _ => Hello.mkChoices None None ["7"; "12"])
           (makeReportError env_ok) ["HELLO"] "alice" "cookie" (sample_world 2)
           eq_refl eq_refl eq_refl (fun _ => eq_refl)).
Defined.

(** ** The connection loops *)

Section Loops.
Import Split Wire.
Variable env : envT.

Lemma splitMsg_panics_value b :
  is_Ok (splitMsg b) = false -> exists p, splitMsg b = Panic p.
Proof. destruct (splitMsg b); [discriminate | eauto]. Qed.

(** X24: the first connection loop answers every frame it can split with
    exactly one frame, in order: [HI] for HELLO and
    [E :Unknown command <verb>] for anything else.  Whether the writes
    succeed makes no difference, and it never returns on a frame. *)
Theorem conn0_answers_every_frame (msgs : list (list byte)) w :
  Forall (fun b => is_Ok (splitMsg b) = true) msgs ->
  Conn0.serve env (map Conn0.Received msgs) w
  = (Conn0.Waiting,
     set_trace
       (rev (map (fun b => EvWriteText (Conn0.answer (Conn0.verb b))) msgs)
          ++ trace w) w).
Proof.
  intros Hall. revert w. induction Hall as [|b msgs Hb _ IH]; intros w.
  - now destruct w.
  - cbn [map Conn0.serve]. unfold Conn0.verb.
    destruct (splitMsg b) as [mar|p] eqn:Hsplit; [|discriminate].
    destruct mar as [|mar0 args];
      [now apply splitMsg_loop_nonempty in Hsplit|].
    rewrite bind_call. rewrite IH. cbn [trace set_trace rev].
    rewrite <- app_assoc. reflexivity.
Qed.

(** X25: the first connection loop returns only the error of a failed
    read or of a failed write of a string taken from its [send]
    channel. *)
Theorem conn0_returns_only_on_failure arrivals w e :
  (Conn0.serve env arrivals w).1 = Conn0.Returned e ->
  In (Conn0.ReadFailed e) arrivals \/
  exists gonnasend t,
    In (Conn0.FromSend gonnasend) arrivals /\
    io_err env (EvWriteText gonnasend :: t) = Some e.
Proof.
  revert w. induction arrivals as [|a arrivals IH]; intros w; [discriminate|].
  destruct a as [s|b|err]; cbn [Conn0.serve].
  - rewrite bind_call.
    destruct (io_err env (EvWriteText s :: trace w)) as [err|] eqn:Hw.
    + intros [= ->]. right. exists s, (trace w). split; [now left | assumption].
    + intros H. destruct (IH _ H) as [Hin|(s' & t & Hin & Ht)].
      * left. now right.
      * right. exists s', t. split; [now right | assumption].
  - destruct (splitMsg b) as [[|mar0 args]|p]; try discriminate.
    rewrite bind_call. intros H.
    destruct (IH _ H) as [Hin|(s' & t & Hin & Ht)].
    + left. now right.
    + right. exists s', t. split; [now right | assumption].
  - intros [= ->]. left. now left.
Qed.

(** X26: a frame that ends in a space and has no trailing argument makes
    both connection loops panic in [splitMsg], before anything is written
    and whatever follows. *)
Theorem final_space_frame_panics_session pg reportError choices
    errCannotReceiveMessage b rest0 rest userID session
    (ucg : userCourseGroupsT) w :
  last b = Some SPACE -> ~ has_marker b ->
  exists p,
    splitMsg b = Panic p /\
    Conn0.serve env (Conn0.Received b :: rest0) w = (Conn0.Panicked p, w) /\
    Conn.serve env pg reportError choices errCannotReceiveMessage
      (Conn.Received b :: rest) userID session ucg w
    = (Conn.Panicked p, w).
Proof.
  intros Hlast Hno.
  destruct (splitMsg_panics_value b) as [p Hp].
  { apply (splitMsg_loop_panics b b 0 [] [] eq_refl). auto. }
  exists p. cbn [Conn0.serve Conn.serve]. rewrite Hp. auto.
Qed.

End Loops.

Lemma conn0_answers_every_frame_witness :
  Conn0.serve env_ok
    [Conn0.Received (Split.frame "HELLO"); Conn0.Received (Split.frame "Y 7")]
    (sample_world 2)
  = (Conn0.Waiting,
     set_trace [EvWriteText "E :Unknown command Y"; EvWriteText "HI"]
       (sample_world 2)).
Proof.
  apply (conn0_answers_every_frame env_ok
           [Split.frame "HELLO"; Split.frame "Y 7"] (sample_world 2)).
  repeat constructor.
Defined.

Lemma conn0_returns_only_on_failure_witness :
  let arrivals :=
    [Conn0.Received (Split.frame "HELLO"); Conn0.ReadFailed Canceled] in
  In (Conn0.ReadFailed Canceled) arrivals \/
  exists gonnasend t,
    In (Conn0.FromSend gonnasend) arrivals /\
    io_err env_ok (EvWriteText gonnasend :: t) = Some Canceled.
Proof.
  exact (conn0_returns_only_on_failure env_ok
           [Conn0.Received (Split.frame "HELLO"); Conn0.ReadFailed Canceled]
           (sample_world 2) Canceled eq_refl).
Defined.

Lemma final_space_frame_panics_session_witness :
  exists p,
    Split.splitMsg (Split.frame "Y ") = Panic p /\
    Conn0.serve env_ok [Conn0.Received (Split.frame "Y ")] (sample_world 2)
    = (Conn0.Panicked p, sample_world 2) /\
    Conn.serve env_ok sample_unique_violation (makeReportError env_ok)
      sample_choices (errorString "cannot receive message")
      [Conn.Received (Split.frame "Y ")] "alice" "cookie" ∅ (sample_world 2)
    = (Conn.Panicked p, sample_world 2).
Proof.
  apply (final_space_frame_panics_session env_ok sample_unique_violation
           (makeReportError env_ok) sample_choices
           (errorString "cannot receive message") (Split.frame "Y ") [] []
           "alice" "cookie" ∅ (sample_world 2)); [reflexivity|].
  exact (proj2 (proj1 (splitMsg_loop_panics (Split.frame "Y ") (Split.frame "Y ")
                         0 [] [] eq_refl) eq_refl)).
Defined.

(** ** The registry of sessions *)

Section Registry.
Import Conn.

Lemma Load_absent pool key : key ∉ pool.*1 -> Load pool key = None.
Proof.
  induction pool as [|[k v] pool IH]; [reflexivity|].
  cbn. rewrite not_elem_of_cons. intros [Hne Hnot].
  rewrite decide_False by congruence. auto.
Qed.

Lemma Load_Store_eq pool key value : Load (Store pool key value) key = Some value.
Proof.
  induction pool as [|[k v] pool IH]; cbn.
  - now rewrite decide_True.
  - destruct (decide (k = key)); cbn.
    + now rewrite decide_True.
    + now rewrite decide_False.
Qed.

Lemma Load_Store_ne pool key value key' :
  key' <> key -> Load (Store pool key value) key' = Load pool key'.
Proof.
  intros Hne. induction pool as [|[k v] pool IH]; cbn.
  - now rewrite decide_False.
  - destruct (decide (k = key)) as [->|]; cbn.
    + now rewrite !decide_False.
    + now rewrite IH.
Qed.

Lemma Store_keys pool key value :
  (Store pool key value).*1 = pool.*1 \/
  ((key ∉ pool.*1) /\ (Store pool key value).*1 = pool.*1 ++ [key]).
Proof.
  induction pool as [|[k v] pool IH]; cbn.
  - right. split; [apply not_elem_of_nil | reflexivity].
  - destruct (decide (k = key)) as [->|Hne]; cbn; [now left|].
    destruct IH as [-> | [Hnot ->]]; [now left|].
    right. split; [|reflexivity]. rewrite not_elem_of_cons. split; congruence.
Qed.

Lemma NoDup_Store pool key value :
  NoDup pool.*1 -> NoDup (Store pool key value).*1.
Proof.
  intros Hnd. destruct (Store_keys pool key value) as [-> | [Hnot ->]];
    [assumption|].
  apply NoDup_app. repeat split; [assumption | | apply NoDup_singleton].
  intros x Hx Hx'. apply elem_of_cons in Hx' as [-> | Hx']; [contradiction|].
  now apply elem_of_nil in Hx'.
Qed.

Lemma Load_CompareAndDelete_ne pool key old key' :
  key' <> key -> Load (CompareAndDelete pool key old) key' = Load pool key'.
Proof.
  intros Hne. induction pool as [|[k v] pool IH]; cbn; [reflexivity|].
  destruct (decide (k = key)) as [->|].
  - destruct (decide (key = key')); [congruence|].
    destruct (decide (v = old)); cbn; [reflexivity|].
    destruct (decide (key = key')); [congruence | reflexivity].
  - cbn. now rewrite IH.
Qed.

Lemma Load_CompareAndDelete_eq pool key old :
  NoDup pool.*1 -> Load pool key = Some old ->
  Load (CompareAndDelete pool key old) key = None.
Proof.
  induction pool as [|[k v] pool IH]; cbn; [discriminate|].
  intros Hnd. apply NoDup_cons in Hnd as [Hk Hnd].
  destruct (decide (k = key)) as [->|].
  - intros [= ->]. rewrite decide_True by reflexivity. now apply Load_absent.
  - intros Hl. cbn. rewrite decide_False by assumption. auto.
Qed.

End Registry.

(** ** Whole sessions *)

Ltac runs_session_step :=
  first
    [ apply runs_sendSelectedUpdate | apply runs_messageChooseCourse
    | apply runs_messageUnchooseCourse
    | apply runs_ret | apply runs_get | apply runs_on_conn | apply runs_writeText
    | apply runs_emit; reflexivity
    | apply runs_call; reflexivity
    | apply runs_bind; [|intros ?]
    | match goal with
      | |- runs (match ?x with _ => _ end) => destruct x
      | |- runs (if ?x then _ else _) => destruct x
      end ].

Section Sessions.
Import Conn.
Variables (env : envT) (pg : string) (reportError : reportErrorT).
Variable choices : list event -> string -> Hello.choicesT.
Variable populate : string -> M (option error * userCourseGroupsT).
Variable errCannotReceiveMessage : error.
Variable sprint : error -> string.

Lemma frames_messageChooseCourse mar userID session ucg :
  frames (Wsm.messageChooseCourse env pg reportError mar userID session ucg).
Proof.
  unfold Wsm.messageChooseCourse, Wsm.chooseCourse_closure, Wsm.chooseCourse_tx.
  frames_tac.
Qed.

Lemma frames_messageUnchooseCourse mar userID session ucg :
  frames (Wsm.messageUnchooseCourse env reportError mar userID session ucg).
Proof. unfold Wsm.messageUnchooseCourse. frames_tac. Qed.

Lemma frames_messageHello mar userID session :
  frames (Hello.messageHello env choices reportError mar userID session).
Proof. unfold Hello.messageHello. frames_tac. Qed.

Lemma runs_messageHello mar userID session :
  runs (Hello.messageHello env choices reportError mar userID session).
Proof. unfold Hello.messageHello, ctx_Done. repeat runs_session_step. Qed.

Lemma frames_serve arrivals userID session : forall ucg,
  frames (serve env pg reportError choices errCannotReceiveMessage
            arrivals userID session ucg).
Proof.
  induction arrivals as [|a arrivals IH]; intros ucg; [apply frames_ret|].
  destruct a as [err|courseID|b|err]; cbn [serve]; try apply frames_ret.
  - apply frames_bind; [frames_tac|]. intros [e|]; [apply frames_ret | apply IH].
  - destruct (Split.splitMsg b) as [[|mar0 args]|p]; try apply frames_ret.
    destruct (String.eqb mar0 "HELLO");
      [|destruct (String.eqb mar0 "Y"); [|destruct (String.eqb mar0 "N")]].
    + apply frames_bind; [apply frames_messageHello|].
      intros [e|]; [apply frames_ret | apply IH].
    + apply frames_bind; [apply frames_messageChooseCourse|].
      intros [[e|] g]; [apply frames_ret | apply IH].
    + apply frames_bind; [apply frames_messageUnchooseCourse|].
      intros [[e|] g]; [apply frames_ret | apply IH].
    + frames_tac.
Qed.


Lemma silent_cancel_serve arrivals userID session : forall ucg,
  silent is_cancel (serve env pg reportError choices errCannotReceiveMessage
                      arrivals userID session ucg).
Proof.
  induction arrivals as [|a arrivals IH]; intros ucg; [apply silent_ret|].
  destruct a as [err|courseID|b|err]; cbn [serve]; try apply silent_ret.
  - apply silent_bind; [silent_tac|]. intros [e|]; [apply silent_ret | apply IH].
  - destruct (Split.splitMsg b) as [[|mar0 args]|p]; try apply silent_ret.
    destruct (String.eqb mar0 "HELLO");
      [|destruct (String.eqb mar0 "Y"); [|destruct (String.eqb mar0 "N")]].
    + apply silent_bind; [unfold Hello.messageHello; silent_tac|].
      intros [e|]; [apply silent_ret | apply IH].
    + apply silent_bind.
      { unfold Wsm.messageChooseCourse, Wsm.chooseCourse_closure,
          Wsm.chooseCourse_tx. silent_tac. }
      intros [[e|] g]; [apply silent_ret | apply IH].
    + apply silent_bind; [unfold Wsm.messageUnchooseCourse; silent_tac|].
      intros [[e|] g]; [apply silent_ret | apply IH].
    + silent_tac.
Qed.

Lemma runs_serve arrivals userID session : forall ucg,
  runs (serve env pg reportError choices errCannotReceiveMessage
          arrivals userID session ucg).
Proof.
  induction arrivals as [|a arrivals IH]; intros ucg; [apply runs_ret|].
  destruct a as [err|courseID|b|err]; cbn [serve]; try apply runs_ret.
  - apply runs_bind; [apply runs_sendSelectedUpdate|].
    intros [e|]; [apply runs_ret | apply IH].
  - destruct (Split.splitMsg b) as [[|mar0 args]|p]; try apply runs_ret.
    destruct (String.eqb mar0 "HELLO");
      [|destruct (String.eqb mar0 "Y"); [|destruct (String.eqb mar0 "N")]].
    + apply runs_bind; [apply runs_messageHello|].
      intros [e|]; [apply runs_ret | apply IH].
    + apply runs_bind; [apply runs_messageChooseCourse|].
      intros [[e|] g]; [apply runs_ret | apply IH].
    + apply runs_bind; [apply runs_messageUnchooseCourse|].
      intros [[e|] g]; [apply runs_ret | apply IH].
    + repeat runs_session_step.
Qed.

Lemma frames_body arrivals session userID :
  frames (populate userID) ->
  frames (body env pg reportError choices populate errCannotReceiveMessage sprint
            arrivals session userID).
Proof.
  intros Hp. unfold body. apply frames_bind; [assumption|].
  intros [[e|] g]; [frames_tac | apply frames_serve].
Qed.

Lemma silent_cancel_body arrivals session userID :
  silent is_cancel (populate userID) ->
  silent is_cancel
    (body env pg reportError choices populate errCannotReceiveMessage sprint
       arrivals session userID).
Proof.
  intros Hp. unfold body. apply silent_bind; [assumption|].
  intros [[e|] g]; [silent_tac | apply silent_cancel_serve].
Qed.

Lemma runs_body arrivals session userID :
  runs (populate userID) ->
  runs (body env pg reportError choices populate errCannotReceiveMessage sprint
          arrivals session userID).
Proof.
  intros Hp. unfold body. apply runs_bind; [assumption|].
  intros [[e|] g]; [repeat runs_session_step | apply runs_serve].
Qed.

Lemma register_spec userID newCancel w :
  register userID newCancel w = (tt, registered userID newCancel w).
Proof.
  unfold register, registered. rewrite bind_get.
  destruct (Load (cancelPool w) userID); [reflexivity|]. now destruct w.
Qed.

Lemma unregister_spec userID newCancel retErr w :
  exists told,
    (unregister env userID newCancel retErr w).2
    = set_cancelPool (CompareAndDelete (cancelPool w) userID newCancel)
        (set_trace (map EvConn told ++ trace w) w).
Proof.
  unfold unregister, writeText. destruct retErr as [err|].
  - destruct (errors_Is err Canceled).
    + exists [WriteText "E :Context canceled"]. reflexivity.
    + exists []. now destruct w.
  - exists []. now destruct w.
Qed.

Lemma conn_events_no_cancel told :
  Forall (fun ev => is_cancel ev = false) (map EvConn told).
Proof. induction told; constructor; [reflexivity | assumption]. Qed.

(** X27: [handleConn] keeps one session for each user in the registry.  It
    cancels the session the user already has, and no other, before it
    does anything else; while it waits its own cancel function is the
    user's entry; when it returns or panics the user has no entry.  The
    entries of other users are never touched.  ([populateUserCourseGroups]
    is taken to change nothing but counters and the trace and to cancel
    nothing.) *)
Theorem handleConn_registry arrivals newCancel session userID n w :
  frames (populate userID) -> silent is_cancel (populate userID) ->
  NoDup (cancelPool w).*1 ->
  let r := handleConn env pg reportError choices populate errCannotReceiveMessage
             sprint arrivals newCancel session userID n w in
  (exists delta,
     trace r.2
     = delta ++ match Load (cancelPool w) userID with
                | Some old => [EvCancel old]
                | None => []
                end ++ trace w /\
     Forall (fun ev => is_cancel ev = false) delta) /\
  (forall key, key <> userID ->
     Load (cancelPool r.2) key = Load (cancelPool w) key) /\
  Load (cancelPool r.2) userID
  = match r.1.1 with Waiting => Some newCancel | _ => None end.
Proof.
  intros Hframes Hsilent Hnd r.
  assert (Hr : r = handleConn env pg reportError choices populate
                     errCannotReceiveMessage sprint arrivals newCancel session
                     userID n w) by reflexivity.
  clearbody r. unfold handleConn in Hr.
  unfold bind at 1 in Hr. rewrite register_spec in Hr.
  set (w1 := registered userID newCancel w) in Hr.
  change (match Load (cancelPool w) userID with
          | Some old => [EvCancel old]
          | None => []
          end ++ trace w) with (trace w1).
  assert (Hpool1 : cancelPool w1 = Store (cancelPool w) userID newCancel)
    by reflexivity.
  assert (Hgone : forall pool, pool = cancelPool w1 ->
            (forall key, key <> userID ->
               Load (CompareAndDelete pool userID newCancel) key
               = Load (cancelPool w) key) /\
            Load (CompareAndDelete pool userID newCancel) userID = None).
  { intros pool ->. rewrite Hpool1. split.
    - intros key Hne. now rewrite Load_CompareAndDelete_ne, Load_Store_ne.
    - apply Load_CompareAndDelete_eq; [now apply NoDup_Store|].
      apply Load_Store_eq. }
  assert (Hleft : forall (w2 : world) d (retErr : option error) (e' : ending)
                         (n2 : notifierT),
            cancelPool w2 = cancelPool w1 -> trace w2 = d ++ trace w1 ->
            Forall (fun ev => is_cancel ev = false) d ->
            let r := (unregister env userID newCancel retErr;; ret (e', n2)) w2 in
            (exists delta,
               trace r.2 = delta ++ trace w1 /\
               Forall (fun ev => is_cancel ev = false) delta) /\
            (forall key, key <> userID ->
               Load (cancelPool r.2) key = Load (cancelPool w) key) /\
            Load (cancelPool r.2) userID = None).
  { intros w2 d retErr e' n2 Hpool2 Htrace Hd. cbn zeta. unfold bind.
    destruct (unregister_spec userID newCancel retErr w2) as [told Hu].
    destruct (unregister _ _ _ _ w2) as [[] w3]. cbn [snd] in Hu. subst w3.
    cbn [ret snd trace cancelPool set_cancelPool set_trace].
    destruct (Hgone _ Hpool2) as [Hother Hself].
    split; [|split; assumption].
    exists (map EvConn told ++ d). rewrite Htrace, app_assoc.
    split; [reflexivity|]. apply Forall_app. split; [|assumption].
    apply conn_events_no_cancel. }
  rewrite bind_get in Hr.
  destruct (store_usems _ _ _) as [[[]|p] n1].
  - unfold bind at 1 in Hr.
    pose proof (frames_body arrivals session userID Hframes w1) as Hsame.
    pose proof (silent_cancel_body arrivals session userID Hsilent w1)
      as (d & Htrace & Hd).
    destruct (body _ _ _ _ _ _ _ _ _ _ w1) as [e w2]. cbn [snd] in Hsame, Htrace.
    destruct Hsame as (_ & _ & Hpool2 & _).
    destruct e as [retErr|p|].
    + rewrite bind_get in Hr. destruct (release _ _ _) as [released n2].
      destruct (Hleft w2 d retErr
                  (match released with
                   | Panic p => Panicked p
                   | Ok _ => Returned retErr
                   end) n2 Hpool2 Htrace Hd) as (Ht & Hother & Hself).
      cbn zeta in Ht, Hother, Hself. rewrite <- Hr in Ht, Hother, Hself.
      split; [exact Ht|]. split; [exact Hother|].
      rewrite Hself, Hr. unfold bind.
      destruct (unregister _ _ _ _ w2). cbn. now destruct released.
    + rewrite bind_get in Hr. destruct (release _ _ _) as [released n2].
      destruct (Hleft w2 d None
                  (match released with
                   | Panic p => Panicked p
                   | Ok _ => Panicked p
                   end) n2 Hpool2 Htrace Hd) as (Ht & Hother & Hself).
      cbn zeta in Ht, Hother, Hself. rewrite <- Hr in Ht, Hother, Hself.
      split; [exact Ht|]. split; [exact Hother|].
      rewrite Hself, Hr. unfold bind.
      destruct (unregister _ _ _ _ w2). cbn. now destruct released.
    + subst r. cbn [ret fst snd]. rewrite Hpool2, Hpool1. split; [|split].
      * exists d. split; [exact Htrace | exact Hd].
      * intros key Hne. now apply Load_Store_ne.
      * apply Load_Store_eq.
  - destruct (Hleft w1 [] None (Panicked p) n1 eq_refl eq_refl (List.Forall_nil _))
      as (Ht & Hother & Hself).
    cbn zeta in Ht, Hother, Hself. rewrite <- Hr in Ht, Hother, Hself.
    split; [exact Ht|]. split; [exact Hother|].
    rewrite Hself, Hr. unfold bind. now destruct (unregister _ _ _ _ w1).
Qed.

Lemma runs_register userID newCancel : runs (register userID newCancel).
Proof.
  intros w. rewrite register_spec. unfold registered. cbn [snd trace heap set_cancelPool set_trace].
  eexists. split; [reflexivity|].
  destruct (Load (cancelPool w) userID).
  - apply logged_other; [apply logged_nil | reflexivity].
  - apply logged_nil.
Qed.

Lemma runs_unregister userID newCancel retErr :
  runs (unregister env userID newCancel retErr).
Proof.
  intros w. destruct (unregister_spec userID newCancel retErr w) as [told ->].
  exists (map EvConn told). split; [reflexivity | apply logged_conn].
Qed.

Lemma runs_handleConn arrivals newCancel session userID n :
  runs (populate userID) ->
  runs (handleConn env pg reportError choices populate errCannotReceiveMessage
          sprint arrivals newCancel session userID n).
Proof.
  intros Hp. unfold handleConn.
  apply runs_bind; [apply runs_register | intros _].
  apply runs_bind; [apply runs_get | intros cs].
  destruct (store_usems _ _ _) as [[[]|p] n1].
  - apply runs_bind; [now apply runs_body | intros e].
    destruct e as [retErr|p|]; [| |apply runs_ret];
      (apply runs_bind; [apply runs_get | intros cs2];
       destruct (release _ _ _) as [released n2];
       apply runs_bind; [apply runs_unregister | intros _; apply runs_ret]).
  - apply runs_bind; [apply runs_unregister | intros _; apply runs_ret].
Qed.

(** X29: a whole session keeps [Selected <= Max] for every course,
    whatever frames arrive and whatever the environment answers: every
    change to a counter in the run of [handleConn] is a logged one, and
    each increment stands between the Lock and the Unlock of its course
    at a moment when [Selected < Max].  ([populateUserCourseGroups] is
    taken to change counters in logged runs only.) *)
Theorem session_keeps_capacity arrivals newCancel session userID n w :
  runs (populate userID) -> capacity_inv (heap w) ->
  let w' := (handleConn env pg reportError choices populate
               errCannotReceiveMessage sprint arrivals newCancel session
               userID n w).2 in
  capacity_inv (heap w') /\
  exists delta,
    trace w' = delta ++ trace w /\ logged (heap w) delta (heap w') /\
    increments_in_critical_section (heap w) delta.
Proof.
  intros Hp Hinv. apply runs_capacity; [now apply runs_handleConn | assumption].
Qed.

Lemma int64_add_back c k :
  (- 2 ^ 63 <= c < 2 ^ 63)%Z -> int64_add (int64_add c k) (- k) = c.
Proof.
  intros Hc. unfold int64_add.
  replace ((c + k + 2 ^ 63) mod 2 ^ 64 - 2 ^ 63 + - k + 2 ^ 63)%Z
    with ((c + k + 2 ^ 63) mod 2 ^ 64 - k)%Z by lia.
  rewrite Zminus_mod_idemp_l.
  replace (c + k + 2 ^ 63 - k)%Z with (c + 2 ^ 63)%Z by lia.
  rewrite Z.mod_small by lia. lia.
Qed.

Lemma store_usems_spec userID entries :
  Forall (fun e => e.2 <> None) entries -> forall n,
  exists n',
    store_usems userID entries n = (Ok tt, n') /\
    numCourses n' = numCourses n /\ usemCount n' = usemCount n /\
    (forall l other, other <> userID -> Usems n' l !! other = Usems n l !! other) /\
    (forall l,
       Usems n l !! userID = Some (Usem.init Usem.zero) \/
       (exists id, (id, Some l) ∈ entries) ->
       Usems n' l !! userID = Some (Usem.init Usem.zero)).
Proof.
  induction 1 as [|[id [course|]] entries Hhead _ IH]; intros n; cbn in *.
  - exists n. do 3 (split; [reflexivity|]). split; [reflexivity|].
    intros l [Hl|[id Hin]]; [assumption | now apply elem_of_nil in Hin].
  - destruct (IH (Usems_Store course userID (Usem.init Usem.zero) n))
      as (n' & -> & Hnum & Hcount & Hothers & Hmine).
    exists n'. split; [reflexivity|]. split; [assumption|]. split; [assumption|].
    split.
    + intros l other Hne. rewrite Hothers by assumption. cbn.
      destruct (decide (l = course)); [|reflexivity].
      now rewrite lookup_insert_ne.
    + intros l Hl. apply Hmine. cbn.
      destruct (decide (l = course)) as [->|Hne].
      * left. apply lookup_insert_eq.
      * destruct Hl as [Hl|[id' Hin]]; [now left|].
        apply elem_of_cons in Hin as [[= _ ->]|Hin]; [contradiction|].
        right. eauto.
  - contradiction.
Qed.

Lemma delete_usems_spec userID entries :
  Forall (fun e => e.2 <> None) entries -> forall n,
  exists n',
    delete_usems userID entries n = (Ok tt, n') /\
    numCourses n' = numCourses n /\ usemCount n' = usemCount n /\
    (forall l other, other <> userID -> Usems n' l !! other = Usems n l !! other) /\
    (forall l,
       Usems n l !! userID = None \/ (exists id, (id, Some l) ∈ entries) ->
       Usems n' l !! userID = None).
Proof.
  induction 1 as [|[id [course|]] entries Hhead _ IH]; intros n; cbn in *.
  - exists n. do 3 (split; [reflexivity|]). split; [reflexivity|].
    intros l [Hl|[id Hin]]; [assumption | now apply elem_of_nil in Hin].
  - destruct (IH (Usems_Delete course userID n))
      as (n' & -> & Hnum & Hcount & Hothers & Hmine).
    exists n'. split; [reflexivity|]. split; [assumption|]. split; [assumption|].
    split.
    + intros l other Hne. rewrite Hothers by assumption. cbn.
      destruct (decide (l = course)); [|reflexivity].
      now rewrite lookup_delete_ne.
    + intros l Hl. apply Hmine. cbn.
      destruct (decide (l = course)) as [->|Hne].
      * left. apply lookup_delete_eq.
      * destruct Hl as [Hl|[id' Hin]]; [now left|].
        apply elem_of_cons in Hin as [[= _ ->]|Hin]; [contradiction|].
        right. eauto.
  - contradiction.
Qed.

Lemma catalogue_entries (cs : gmap Z (option loc)) :
  (forall id, cs !! id <> Some None) ->
  Forall (fun e => e.2 <> None) (map_to_list cs).
Proof.
  intros Hnil. apply Forall_forall. intros [id c] Hin.
  apply elem_of_map_to_list in Hin. cbn. intros ->. now apply (Hnil id).
Qed.

(** X28: in a catalogue without nil entries [handleConn] gives back what
    it takes for its signals.  While it waits, every course has an
    initialised signal under the user and [usemCount] is up by
    [numCourses]; when it returns or panics, the user's signals are
    deleted and [usemCount] is what it was.  The signals of other users
    are never touched.  ([populateUserCourseGroups] is taken to change
    nothing but counters and the trace.) *)
Theorem handleConn_releases_usems arrivals newCancel session userID n w :
  frames (populate userID) ->
  (forall id, courses w !! id <> Some None) ->
  (- 2 ^ 63 <= usemCount n < 2 ^ 63)%Z ->
  let r := handleConn env pg reportError choices populate errCannotReceiveMessage
             sprint arrivals newCancel session userID n w in
  let n' := r.1.2 in
  numCourses n' = numCourses n /\
  (forall l other, other <> userID -> Usems n' l !! other = Usems n l !! other) /\
  match r.1.1 with
  | Waiting =>
      usemCount n' = int64_add (usemCount n) (Z.of_N (numCourses n)) /\
      forall id l, courses w !! id = Some (Some l) ->
        Usems n' l !! userID = Some (Usem.init Usem.zero)
  | _ =>
      usemCount n' = usemCount n /\
      forall id l, courses w !! id = Some (Some l) -> Usems n' l !! userID = None
  end.
Proof.
  intros Hframes Hnil Hc r n'. subst n'.
  assert (Hr : r = handleConn env pg reportError choices populate
                     errCannotReceiveMessage sprint arrivals newCancel session
                     userID n w) by reflexivity.
  clearbody r. unfold handleConn in Hr.
  unfold bind at 1 in Hr. rewrite register_spec in Hr.
  set (w1 := registered userID newCancel w) in Hr.
  rewrite bind_get in Hr. change (courses w1) with (courses w) in Hr.
  pose proof (catalogue_entries _ Hnil) as Hentries.
  destruct (store_usems_spec userID _ Hentries
              (AddInt64_usemCount (Z.of_N (numCourses n)) n))
    as (n1 & Hs & Hnum1 & Hcount1 & Hothers1 & Hmine1).
  cbn [numCourses usemCount Usems AddInt64_usemCount] in Hnum1, Hcount1, Hothers1.
  rewrite Hs in Hr. unfold bind at 1 in Hr.
  pose proof (frames_body arrivals session userID Hframes w1) as Hsame.
  destruct (body _ _ _ _ _ _ _ _ _ _ w1) as [e w2]. cbn [snd] in Hsame.
  destruct Hsame as (_ & Hcourses2 & _).
  change (courses w1) with (courses w) in Hcourses2.
  assert (Hleft : forall (retErr : option error) (e' : ending),
            r = (let* cs := get courses in
                 let '(released, n0) := release userID (map_to_list cs) n1 in
                 unregister env userID newCancel retErr;;
                 ret (match released with
                      | Panic p => Panicked p
                      | Ok _ => e'
                      end, n0)) w2 ->
            r.1.1 = e' /\ numCourses r.1.2 = numCourses n /\
            (forall l other, other <> userID ->
               Usems r.1.2 l !! other = Usems n l !! other) /\
            usemCount r.1.2 = usemCount n /\
            forall id l, courses w !! id = Some (Some l) ->
              Usems r.1.2 l !! userID = None).
  { intros retErr e' ->. rewrite bind_get, Hcourses2. unfold release.
    destruct (delete_usems_spec userID _ Hentries n1)
      as (n2 & -> & Hnum2 & Hcount2 & Hothers2 & Hmine2).
    unfold bind. destruct (unregister _ _ _ _ w2) as [[] w3].
    cbn [ret fst snd numCourses usemCount Usems AddInt64_usemCount].
    split; [reflexivity|]. split; [congruence|]. split; [|split].
    - intros l other Hne. now rewrite Hothers2, Hothers1.
    - rewrite Hcount2, Hcount1, Hnum2, Hnum1. now apply int64_add_back.
    - intros id l Hl. apply Hmine2. right. exists id.
      now apply elem_of_map_to_list. }
  destruct e as [retErr|p|].
  - destruct (Hleft retErr (Returned retErr) Hr) as (-> & Hnum & Hothers & Hrest).
    auto.
  - destruct (Hleft None (Panicked p) Hr) as (-> & Hnum & Hothers & Hrest).
    auto.
  - subst r. cbn [ret fst snd]. split; [assumption|]. split; [|split].
    + intros l other Hne. now rewrite Hothers1.
    + now rewrite Hcount1.
    + intros id l Hl. apply Hmine1. right. exists id.
      now apply elem_of_map_to_list.
Qed.

Lemma store_usems_nil userID entries :
  (exists id, (id, None) ∈ entries) -> forall n,
  exists n',
    store_usems userID entries n
    = (Panic (PanicMsg "invalid memory address or nil pointer dereference"), n') /\
    numCourses n' = numCourses n /\ usemCount n' = usemCount n.
Proof.
  induction entries as [|[id0 [course|]] entries IH]; intros [id Hin] n.
  - now apply elem_of_nil in Hin.
  - apply elem_of_cons in Hin as [[= _]|Hin]. cbn.
    destruct (IH (ex_intro _ id Hin)
                (Usems_Store course userID (Usem.init Usem.zero) n))
      as (n' & -> & Hnum & Hcount).
    exists n'. auto.
  - exists n. auto.
Qed.

(** X30: with a nil entry in the catalogue [handleConn] panics while it
    sets up its signals, before it reads a frame.  The second deferred
    function is not registered yet: [usemCount] stays up by [numCourses].
    The session the user had has been cancelled all the same. *)
Theorem nil_course_breaks_session_start arrivals newCancel session userID n w id :
  courses w !! id = Some None ->
  let r := handleConn env pg reportError choices populate errCannotReceiveMessage
             sprint arrivals newCancel session userID n w in
  r.1.1 = Panicked (PanicMsg "invalid memory address or nil pointer dereference") /\
  usemCount r.1.2 = int64_add (usemCount n) (Z.of_N (numCourses n)) /\
  trace r.2 = match Load (cancelPool w) userID with
              | Some old => [EvCancel old]
              | None => []
              end ++ trace w.
Proof.
  intros Hnil r.
  assert (Hr : r = handleConn env pg reportError choices populate
                     errCannotReceiveMessage sprint arrivals newCancel session
                     userID n w) by reflexivity.
  clearbody r. unfold handleConn in Hr.
  unfold bind at 1 in Hr. rewrite register_spec in Hr.
  set (w1 := registered userID newCancel w) in Hr.
  rewrite bind_get in Hr. change (courses w1) with (courses w) in Hr.
  destruct (store_usems_nil userID (map_to_list (courses w))
              (ex_intro _ id (proj2 (elem_of_map_to_list _ _ _) Hnil))
              (AddInt64_usemCount (Z.of_N (numCourses n)) n))
    as (n1 & Hs & Hnum & Hcount).
  rewrite Hs in Hr. subst r. cbn. auto.
Qed.

End Sessions.

Lemma sample_registry_keys : NoDup (cancelPool (sample_world 2)).*1.
Proof.
  apply NoDup_cons. split.
  - intros Hin. apply elem_of_cons in Hin as [Heq|Hin]; [discriminate Heq|].
    now apply elem_of_nil in Hin.
  - apply NoDup_singleton.
Defined.

Lemma sample_catalogue_no_nil id : courses (sample_world 2) !! id <> Some None.
Proof.
  intros H. unfold sample_world in H. cbn [courses] in H.
  apply lookup_singleton_Some in H as [_ H]. discriminate H.
Defined.

Lemma handleConn_registry_witness :
  let r := Conn.handleConn env_ok sample_unique_violation (makeReportError env_ok)
             sample_choices sample_populate (errorString "cannot receive message")
             (fun _ => "") [Conn.Received (Split.frame "HELLO"); Conn.Done Canceled]
             3%nat "cookie" "alice" sample_notifier (sample_world 2) in
  (exists delta,
     trace r.2
     = delta ++ match Conn.Load (cancelPool (sample_world 2)) "alice" with
                | Some old => [EvCancel old]
                | None => []
                end ++ trace (sample_world 2) /\
     Forall (fun ev => is_cancel ev = false) delta) /\
  (forall key, key <> "alice" ->
     Conn.Load (cancelPool r.2) key = Conn.Load (cancelPool (sample_world 2)) key) /\
  Conn.Load (cancelPool r.2) "alice"
  = match r.1.1 with Conn.Waiting => Some 3%nat | _ => None end.
Proof.
  apply (handleConn_registry env_ok sample_unique_violation
           (makeReportError env_ok) sample_choices sample_populate
           (errorString "cannot receive message") (fun _ => "")
           [Conn.Received (Split.frame "HELLO"); Conn.Done Canceled]
           3%nat "cookie" "alice" sample_notifier (sample_world 2)).
  - apply frames_ret.
  - apply silent_ret.
  - apply sample_registry_keys.
Defined.

Lemma session_keeps_capacity_witness :
  let w' := (Conn.handleConn env_ok sample_unique_violation
               (makeReportError env_ok) sample_choices sample_populate
               (errorString "cannot receive message") (fun _ => "")
               [Conn.Received (Split.frame "Y 7"); Conn.Received (Split.frame "Y 7")]
               3%nat "cookie" "alice" sample_notifier (sample_world 2)).2 in
  capacity_inv (heap w') /\
  exists delta,
    trace w' = delta ++ trace (sample_world 2) /\
    logged (heap (sample_world 2)) delta (heap w') /\
    increments_in_critical_section (heap (sample_world 2)) delta.
Proof.
  apply (session_keeps_capacity env_ok sample_unique_violation
           (makeReportError env_ok) sample_choices sample_populate
           (errorString "cannot receive message") (fun _ => "")
           [Conn.Received (Split.frame "Y 7"); Conn.Received (Split.frame "Y 7")]
           3%nat "cookie" "alice" sample_notifier (sample_world 2)).
  - apply runs_ret.
  - apply sample_world_capacity.
Defined.

Lemma handleConn_releases_usems_witness :
  let r := Conn.handleConn env_ok sample_unique_violation (makeReportError env_ok)
             sample_choices sample_populate (errorString "cannot receive message")
             (fun _ => "") [Conn.Received (Split.frame "HELLO"); Conn.Done Canceled]
             3%nat "cookie" "alice" sample_notifier (sample_world 2) in
  let n' := r.1.2 in
  Conn.numCourses n' = Conn.numCourses sample_notifier /\
  (forall l other, other <> "alice" ->
     Conn.Usems n' l !! other = Conn.Usems sample_notifier l !! other) /\
  match r.1.1 with
  | Conn.Waiting =>
      Conn.usemCount n'
      = Conn.int64_add (Conn.usemCount sample_notifier)
          (Z.of_N (Conn.numCourses sample_notifier)) /\
      forall id l, courses (sample_world 2) !! id = Some (Some l) ->
        Conn.Usems n' l !! "alice" = Some (Usem.init Usem.zero)
  | _ =>
      Conn.usemCount n' = Conn.usemCount sample_notifier /\
      forall id l, courses (sample_world 2) !! id = Some (Some l) ->
        Conn.Usems n' l !! "alice" = None
  end.
Proof.
  apply (handleConn_releases_usems env_ok sample_unique_violation
           (makeReportError env_ok) sample_choices sample_populate
           (errorString "cannot receive message") (fun _ => "")
           [Conn.Received (Split.frame "HELLO"); Conn.Done Canceled]
           3%nat "cookie" "alice" sample_notifier (sample_world 2)).
  - apply frames_ret.
  - apply sample_catalogue_no_nil.
  - cbn. lia.
Defined.

Lemma nil_course_breaks_session_start_witness :
  let r := Conn.handleConn env_ok sample_unique_violation (makeReportError env_ok)
             sample_choices sample_populate (errorString "cannot receive message")
             (fun _ => "") [Conn.Received (Split.frame "HELLO")]
             3%nat "cookie" "alice" sample_notifier nil_world in
  r.1.1 = Conn.Panicked
            (PanicMsg "invalid memory address or nil pointer dereference") /\
  Conn.usemCount r.1.2
  = Conn.int64_add (Conn.usemCount sample_notifier)
      (Z.of_N (Conn.numCourses sample_notifier)) /\
  trace r.2 = match Conn.Load (cancelPool nil_world) "alice" with
              | Some old => [EvCancel old]
              | None => []
              end ++ trace nil_world.
Proof.
  apply (nil_course_breaks_session_start env_ok sample_unique_violation
           (makeReportError env_ok) sample_choices sample_populate
           (errorString "cannot receive message") (fun _ => "")
           [Conn.Received (Split.frame "HELLO")]
           3%nat "cookie" "alice" sample_notifier nil_world 7%Z).
  apply lookup_singleton_eq.
Defined.
